(** * MFT crawler (scripts/crawler.js): change detection and bounded history

    A shallow embedding of the crawl pass of the MFT feed tracker and the
    properties of its change detection, snapshot handling and history
    ledger.

    Conventions of the embedding.
    - A JavaScript string is the Rocq [string] of the bytes of its UTF-8
      form, which is how the literals of the script that are not ASCII
      (the console lines, [件]) stand in this file; a surrogate that
      stands alone is written as the three bytes of a character of its
      range.  JavaScript counts a string in UTF-16 units, and so does
      [Utf16]: [Utf16.prefix 500] is [value.substring(0, 500)].
    - The file system is part of the machine state [Sys]: the two JSON
      documents and the snapshot files, a finite map from the path of a
      file to its text.  The path of the snapshot of a feed is what
      [path.join] makes of the snapshot directory and [<id>.txt]
      ([snapshotPath]), so that two ids that [path.join] normalises to one
      path share one file.
    - What the outside world does during a pass (what the network answers,
      whether a file operation fails, what the clock shows) is a [World];
      the pass is a function of the world and of the machine state.
    - Library functions the script calls but does not define (md5, cheerio,
      [String.prototype.trim], [Date.prototype.toISOString], [path.join],
      [Diff.diffLines]) are interfaces, and the properties of the pass hold
      for every implementation of them.  [Diff.diffLines] has a model as
      well, [JsDiff.line_diff], for the statements about what a diff
      contains. *)

From Stdlib Require Import ZArith String Ascii List Bool Lia.
From stdpp Require Import base option list strings pretty gmap.

Set Default Proof Using "Type".
Local Open Scope string_scope.

(** ** Data model *)

(** An entry of [feeds.json] ([feedsData.feeds]).  [selector],
    [lastChecked] and [lastUpdated] may be absent or [null]. *)
Module Feed.
Record t := mk {
  id : string;
  url : string;
  title : string;
  tags : list string;
  selector : option string;
  addedAt : string;
  lastChecked : option string;
  lastUpdated : option string;
}.

(** [feed.lastChecked = v] *)
Definition set_lastChecked (v : string) (f : t) : t :=
  mk (id f) (url f) (title f) (tags f) (selector f) (addedAt f)
     (Some v) (lastUpdated f).

(** [feed.title = v] *)
Definition set_title (v : string) (f : t) : t :=
  mk (id f) (url f) v (tags f) (selector f) (addedAt f)
     (lastChecked f) (lastUpdated f).

(** [feed.lastUpdated = v] *)
Definition set_lastUpdated (v : string) (f : t) : t :=
  mk (id f) (url f) (title f) (tags f) (selector f) (addedAt f)
     (lastChecked f) (Some v).
End Feed.

(** One element of the [diff] array of a history entry. *)
Module Segment.
Record t := mk {
  type : string;
  content : string;
}.
End Segment.

(** An entry of [history.json] ([historyData.updates]): the object literal
    of lines 150-162. *)
Module Update.
Record t := mk {
  id : string;
  feedId : string;
  feedTitle : string;
  url : string;
  tags : list string;
  detectedAt : string;
  diff : list Segment.t;
  diffSummary : string;
}.
End Update.

(** A part of the array [Diff.diffLines] returns; an absent [added] or
    [removed] flag reads as [false]. *)
Module Change.
Record t := mk {
  value : string;
  added : bool;
  removed : bool;
}.
End Change.

(** What [fetchContent] returns on success. *)
Module Page.
Record t := mk {
  content : string;
  title : string;
}.
End Page.

Record FeedsData := { feeds : list Feed.t; known_tags : list string }.
Record HistoryData := { updates : list Update.t }.

(** ** The outside world *)

(** The response of [fetch]: [ok], [status], [statusText], and what
    [response.text()] gives, the body or the message of its rejection. *)
Record Response := {
  ok : bool;
  status : Z;
  statusText : string;
  text : string + string;
}.

(** [await fetch(url, ...)]: the promise is rejected (network error, or the
    30 s timeout) with a message, or resolved with a response. *)
Inductive FetchOutcome :=
  | Rejected (message : string)
  | Resolved (response : Response).

(** What happens while the loop handles one feed. *)
Record FeedEvents := {
  fetched : FetchOutcome;
  (** [fs.readFile] of the snapshot fails although the file exists *)
  snapshot_unreadable : bool;
  (** [fs.writeFile] of the snapshot fails, with this message *)
  snapshot_write_error : option string;
  (** the value of [Date.now()] at line 151 *)
  date_now : Z;
}.

Record World := {
  (** the clock at line 108 and at line 114, in milliseconds *)
  launch_ms : Z;
  start_ms : Z;
  (** the events of the i-th iteration of the loop *)
  events : nat -> FeedEvents;
  (** failures of the two writes of lines 180 and 181 *)
  feeds_write_error : option string;
  history_write_error : option string;
}.

(** ** Machine state and the monad of the script *)

Inductive Line :=
  | Log (s : string)      (* console.log *)
  | Error (s : string).   (* console.error *)

Record Sys := {
  feeds_file : option FeedsData;      (* data/feeds.json, if it parses *)
  history_file : option HistoryData;  (* data/history.json, if it parses *)
  snapshots : gmap string string;     (* the snapshot files, by path *)
  console : list Line;                (* oldest line first *)
}.

Definition with_snapshots (m : gmap string string) (s : Sys) : Sys :=
  {| feeds_file := feeds_file s; history_file := history_file s;
     snapshots := m; console := console s |}.
Definition with_console (c : list Line) (s : Sys) : Sys :=
  {| feeds_file := feeds_file s; history_file := history_file s;
     snapshots := snapshots s; console := c |}.
Definition with_feeds_file (d : FeedsData) (s : Sys) : Sys :=
  {| feeds_file := Some d; history_file := history_file s;
     snapshots := snapshots s; console := console s |}.
Definition with_history_file (d : HistoryData) (s : Sys) : Sys :=
  {| feeds_file := feeds_file s; history_file := Some d;
     snapshots := snapshots s; console := console s |}.

(** A computation returns a value or throws (rejects) with a message. *)
Inductive Res (A : Type) :=
  | Ok (a : A)
  | Throw (message : string).
Arguments Ok {A} a.
Arguments Throw {A} message.

Definition M (A : Type) : Type := Sys -> Res A * Sys.

Definition ret {A} (a : A) : M A := fun s => (Ok a, s).
Definition throw {A} (message : string) : M A := fun s => (Throw message, s).
Definition bind {A B} (m : M A) (k : A -> M B) : M B :=
  fun s => match m s with
           | (Ok a, s') => k a s'
           | (Throw e, s') => (Throw e, s')
           end.
(** [try { m } catch (error) { handler(error.message) }] *)
Definition try_catch {A} (m : M A) (handler : string -> M A) : M A :=
  fun s => match m s with
           | (Ok a, s') => (Ok a, s')
           | (Throw e, s') => handler e s'
           end.

Declare Scope js_scope.
Delimit Scope js_scope with js.
Notation "x <- c1 ;; c2" := (bind c1 (fun x => c2))
  (at level 100, c1 at next level, right associativity) : js_scope.
Notation "c1 ;; c2" := (bind c1 (fun _ => c2))
  (at level 100, right associativity) : js_scope.
Local Open Scope js_scope.

Definition console_log (line : string) : M unit :=
  fun s => (Ok tt, with_console (console s ++ [Log line]) s).
Definition console_error (line : string) : M unit :=
  fun s => (Ok tt, with_console (console s ++ [Error line]) s).

(** [cond || dflt] on strings: the empty string is falsy. *)
Definition or_else (v dflt : string) : string :=
  if decide (v = "") then dflt else v.

(** The history is cut to this many entries (line 177). *)
Definition HISTORY_CAP : nat := 100.
(** A segment keeps this many UTF-16 units (line 159). *)
Definition CONTENT_CAP : nat := 500.

(** ** Strings as JavaScript counts them *)

Module Utf16.

(** The number of UTF-16 units of the character whose UTF-8 form starts
    with the byte [b]: one for a character of one, two or three bytes, two
    for a character of four bytes (a surrogate pair in JavaScript).  A
    continuation byte ([10xxxxxx]) starts no character. *)
Definition units (b : ascii) : nat :=
  let n := nat_of_ascii b in
  if (n <? 128)%nat then 1
  else if (n <? 192)%nat then 0
  else if (n <? 240)%nat then 1
  else 2.

(** [str.length] *)
Fixpoint length (s : string) : nat :=
  match s with
  | EmptyString => 0
  | String b rest => units b + length rest
  end.

(** The first unit of the surrogate pair of the four-byte character that
    starts with the bytes [b0], [b1], [b2], as the three bytes of a
    character of its range.  The pair stands for the code point [cp] of
    the character; its first unit is [0xD800 + ((cp - 0x10000) >> 10)]. *)
Definition high_surrogate (b0 b1 b2 : ascii) : string :=
  let top := (nat_of_ascii b0 mod 8) * 256 + (nat_of_ascii b1 mod 64) * 4
             + (nat_of_ascii b2 mod 64) / 16 - 64 in
  String (ascii_of_nat 237)
    (String (ascii_of_nat (160 + (top / 64) mod 16))
       (String (ascii_of_nat (128 + top mod 64)) EmptyString)).

(** [str.substring(0, n)]: the first [n] units of [str].  A character is
    taken with its continuation bytes; when one unit is left and the next
    character is a surrogate pair, the first unit of the pair is taken
    alone. *)
Fixpoint prefix (n : nat) (s : string) : string :=
  match s with
  | EmptyString => EmptyString
  | String b rest =>
      match units b with
      | 0 => String b (prefix n rest)
      | 1 =>
          match n with
          | 0 => EmptyString
          | S n' => String b (prefix n' rest)
          end
      | _ =>
          match n with
          | 0 => EmptyString
          | 1 =>
              match rest with
              | String b1 (String b2 _) => high_surrogate b b1 b2
              | _ => EmptyString
              end
          | S (S n') => String b (prefix n' rest)
          end
      end
  end.

End Utf16.

(** ** Library functions

    The functions the script imports; each is an interface, and the
    development holds for every implementation of it. *)

(** [crypto.createHash('md5').update(content).digest('hex')] *)
Class Md5 := md5_hex : string -> string.
(** [cheerio.load(html)(selector).text()]: the text of the selection, or
    the message of the exception cheerio throws. *)
Class Cheerio := cheerio_text : string -> string -> string + string.
(** [String.prototype.trim] *)
Class Trim := trim : string -> string.
(** [new Date(ms).toISOString()] *)
Class IsoDate := toISOString : Z -> string.
(** [Diff.diffLines] of the package [diff] *)
Class LineDiff := diffLines : string -> string -> list Change.t.
(** [path.join(SNAPSHOTS_DIR, name)] of the module [path], for the
    [SNAPSHOTS_DIR] of line 22: the path of [name] from the snapshot
    directory.  [path.join] normalises the path it gives ([.] and [..]
    segments are resolved), so that different names can give one path. *)
Class PathJoin := join_snapshots_dir : string -> string.

(** ** The script *)

Section Crawler.

Context `{!Md5, !Cheerio, !Trim, !IsoDate, !LineDiff, !PathJoin}.

(** An awaited promise or a call that may throw: [inl] is the value,
    [inr] the message of the rejection. *)
Definition settle {A} (r : A + string) : M A :=
  match r with
  | inl a => ret a
  | inr message => throw message
  end.

(** Lines 30-58.  [net] is what [fetch] answers for this call. *)
Definition fetchContent (net : FetchOutcome) (url selector : string)
  : M (option Page.t) :=
  try_catch
    (response <- match net with
                 | Rejected message => throw message
                 | Resolved response => ret response
                 end ;;
     if negb (ok response) then
       throw ("HTTP " +:+ pretty (status response) +:+ ": "
              +:+ statusText response)
     else
       html <- settle (text response) ;;
       title_text <- settle (cheerio_text html "title") ;;
       let title := or_else (trim title_text) url in
       selected <- settle (cheerio_text html selector) ;;
       let content := trim selected in
       ret (Some (Page.mk content title)))
    (fun message =>
       console_error ("[エラー] " +:+ url +:+ " の取得に失敗: " +:+ message) ;;
       ret None).

(** Lines 65-67. *)
Definition generateHash (content : string) : string := md5_hex content.

(** Lines 75 and 85: [path.join(SNAPSHOTS_DIR, `${feedId}.txt`)]. *)
Definition snapshotPath (feedId : string) : string :=
  join_snapshots_dir (feedId +:+ ".txt").

(** Lines 74-77.  A failing [fs.writeFile] rejects, and nothing here
    catches it; the failed write is taken to leave the file as it was. *)
Definition saveSnapshot (ev : FeedEvents) (feedId content : string)
  : M unit :=
  match snapshot_write_error ev with
  | Some message => throw message
  | None => fun s =>
      (Ok tt,
       with_snapshots (<[snapshotPath feedId := content]> (snapshots s)) s)
  end.

(** Lines 84-91.  Any failure of [fs.readFile], a missing file as well
    as an unreadable one, gives [null]. *)
Definition loadSnapshot (ev : FeedEvents) (feedId : string)
  : M (option string) :=
  try_catch
    (fun s => if snapshot_unreadable ev
              then (Throw "readFile", s)
              else match snapshots s !! snapshotPath feedId with
                   | Some content => (Ok (Some content), s)
                   | None => (Throw "ENOENT", s)
                   end)
    (fun _ => ret None).

(** [part.added || part.removed] *)
Definition is_edit (part : Change.t) : bool :=
  Change.added part || Change.removed part.

(** Lines 99-102. *)
Definition calculateDiff (oldContent newContent : string)
  : list Change.t :=
  let changes := diffLines oldContent newContent in
  List.filter is_edit changes.

(** Lines 157-160: the [diff] field of a history entry. *)
Definition diff_entry (part : Change.t) : Segment.t :=
  Segment.mk (if Change.added part then "added" else "removed")
             (Utf16.prefix CONTENT_CAP (Change.value part)).

(** Line 161: the [diffSummary] field. *)
Definition diff_summary (diff : list Change.t) : string :=
  "+" +:+ pretty (length (List.filter Change.added diff)) +:+ "件 / -"
  +:+ pretty (length (List.filter Change.removed diff)) +:+ "件".

(** Lines 150-162: the object put in front of [historyData.updates].
    [feed] is the feed after the metadata update of lines 133-136. *)
Definition new_update (now : string) (ev : FeedEvents) (feed : Feed.t)
    (diff : list Change.t) : Update.t :=
  {| Update.id := Feed.id feed +:+ "-" +:+ pretty (date_now ev);
     Update.feedId := Feed.id feed;
     Update.feedTitle := Feed.title feed;
     Update.url := Feed.url feed;
     Update.tags := Feed.tags feed;
     Update.detectedAt := now;
     Update.diff := List.map diff_entry diff;
     Update.diffSummary := diff_summary diff |}.

(** The local variables of [crawl] the loop updates. *)
Record Locals := {
  historyData : HistoryData;
  updatedCount : nat;
}.

(** [feed.selector || 'body'] *)
Definition selector_or_body (feed : Feed.t) : string :=
  match Feed.selector feed with
  | Some sel => or_else sel "body"
  | None => "body"
  end.

(** Lines 133-136. *)
Definition update_metadata (now : string) (result : Page.t)
    (feed : Feed.t) : Feed.t :=
  let feed := Feed.set_lastChecked now feed in
  if decide (Page.title result <> "" /\ Page.title result <> Feed.url feed)
  then Feed.set_title (Page.title result) feed
  else feed.

(** Lines 118-173: the body of the loop, for the feed at hand.  The
    pause of line 173 lets time pass and changes nothing else. *)
Definition crawl_feed (now : string) (ev : FeedEvents) (feed : Feed.t)
    (l : Locals) : M (Feed.t * Locals) :=
  console_log ("📄 巡回中: " +:+ Feed.title feed +:+ " ("
               +:+ Feed.url feed +:+ ")") ;;
  result <- fetchContent (fetched ev) (Feed.url feed)
                         (selector_or_body feed) ;;
  match result with
  | None =>
      console_log "  ⚠️ スキップ: 取得失敗" ;;
      ret (feed, l)
  | Some result =>
      previousContent <- loadSnapshot ev (Feed.id feed) ;;
      let currentHash := generateHash (Page.content result) in
      let feed := update_metadata now result feed in
      match previousContent with
      | None =>
          console_log "  ✨ 初回スナップショット保存" ;;
          saveSnapshot ev (Feed.id feed) (Page.content result) ;;
          ret (feed, l)
      | Some previousContent =>
          if decide (generateHash previousContent <> currentHash) then
            console_log "  🔄 更新を検出!" ;;
            let diff := calculateDiff previousContent
                                      (Page.content result) in
            let history :=
              {| updates := new_update now ev feed diff
                            :: updates (historyData l) |} in
            saveSnapshot ev (Feed.id feed) (Page.content result) ;;
            let feed := Feed.set_lastUpdated now feed in
            ret (feed, {| historyData := history;
                          updatedCount := S (updatedCount l) |})
          else
            console_log "  ✓ 変更なし" ;;
            ret (feed, l)
      end
  end.

(** Lines 117-174: [for (const feed of feedsData.feeds)].  [i] is the
    index of the first feed of [fs] in the registry; the feeds are
    updated in place, so the loop gives the list of the updated feeds. *)
Fixpoint crawl_feeds (w : World) (now : string) (i : nat)
    (fs : list Feed.t) (l : Locals) : M (list Feed.t * Locals) :=
  match fs with
  | [] => ret ([], l)
  | feed :: rest =>
      r <- crawl_feed now (events w i) feed l ;;
      r' <- crawl_feeds w now (S i) rest (snd r) ;;
      ret (fst r :: fst r', snd r')
  end.

(** [JSON.parse(await fs.readFile(FEEDS_PATH))], and the same for the
    history.  A file that cannot be read or parsed makes the call throw;
    the text of the message is not modelled. *)
Definition read_feeds : M FeedsData :=
  fun s => match feeds_file s with
           | Some d => (Ok d, s)
           | None => (Throw "feeds.json", s)
           end.
Definition read_history : M HistoryData :=
  fun s => match history_file s with
           | Some d => (Ok d, s)
           | None => (Throw "history.json", s)
           end.

(** Lines 180 and 181. *)
Definition write_feeds (w : World) (d : FeedsData) : M unit :=
  match feeds_write_error w with
  | Some message => throw message
  | None => fun s => (Ok tt, with_feeds_file d s)
  end.
Definition write_history (w : World) (d : HistoryData) : M unit :=
  match history_write_error w with
  | Some message => throw message
  | None => fun s => (Ok tt, with_history_file d s)
  end.

(** Lines 107-184. *)
Definition crawl (w : World) : M unit :=
  console_log ("🚀 MFT巡回開始: " +:+ toISOString (launch_ms w)) ;;
  feedsData <- read_feeds ;;
  historyData0 <- read_history ;;
  let now := toISOString (start_ms w) in
  r <- crawl_feeds w now 0 (feeds feedsData)
         {| historyData := historyData0; updatedCount := 0 |} ;;
  let feedsData := {| feeds := fst r; known_tags := known_tags feedsData |} in
  let historyData1 :=
    {| updates := take HISTORY_CAP (updates (historyData (snd r))) |} in
  write_feeds w feedsData ;;
  write_history w historyData1 ;;
  console_log ("✅ 巡回完了: " +:+ pretty (updatedCount (snd r))
               +:+ "件の更新を検出").

(** Line 187: [crawl().catch(console.error)]. *)
Definition main (w : World) : M unit :=
  try_catch (crawl w) console_error.

End Crawler.

(** ** The line diff *)

Module JsDiff.

(** Modelled from the spec: the package [diff], from which the script
    imports [Diff.diffLines], is not among the sources.  This module models
    the line diff the spec describes (4.3): both texts as sequences of
    lines, and the ordered sequence of unchanged, added and removed
    segments of a longest-common-subsequence diff of the two. *)

(** One step of an edit script over lines. *)
Inductive Edit :=
  | Keep (line : string)
  | Del (line : string)
  | Ins (line : string).

Definition newline : ascii := "010"%char.

(** Modelled from the spec: the text as a sequence of lines.  A line is
    taken with its terminator, as the tokenizer of the package takes it, so
    that the lines concatenate to the text; the last line has none when
    the text does not end with one. *)
Fixpoint tokenize (s : string) : list string :=
  match s with
  | EmptyString => []
  | String c rest =>
      if Ascii.eqb c newline then String c EmptyString :: tokenize rest
      else match tokenize rest with
           | [] => [String c EmptyString]
           | line :: lines => String c line :: lines
           end
  end.

(** Modelled from the spec: the longest-common-subsequence diff, as a
    shortest edit script from [xs] to [ys].  Equal heads are kept, and
    otherwise the shorter of deleting the head of [xs] and inserting the
    head of [ys] is taken, deletion on a tie.  The kept lines are a
    longest common subsequence. *)
Fixpoint script (xs : list string) : list string -> list Edit :=
  match xs with
  | [] => List.map Ins
  | x :: xs' =>
      fix script_x (ys : list string) : list Edit :=
        match ys with
        | [] => List.map Del (x :: xs')
        | y :: ys' =>
            if String.eqb x y then Keep x :: script xs' ys'
            else
              let del := Del x :: script xs' (y :: ys') in
              let ins := Ins y :: script_x ys' in
              if (length del <=? length ins)%nat then del else ins
        end
  end.

Definition part_of (e : Edit) : Change.t :=
  match e with
  | Keep line => Change.mk line false false
  | Del line => Change.mk line false true
  | Ins line => Change.mk line true false
  end.

Definition same_kind (a b : Change.t) : bool :=
  Bool.eqb (Change.added a) (Change.added b)
  && Bool.eqb (Change.removed a) (Change.removed b).

(** Modelled from the spec: the segments.  Consecutive steps of one kind
    make one part, its value the lines concatenated. *)
Fixpoint group (es : list Edit) : list Change.t :=
  match es with
  | [] => []
  | e :: rest =>
      let p := part_of e in
      match group rest with
      | q :: parts =>
          if same_kind p q
          then Change.mk (Change.value p +:+ Change.value q)
                         (Change.added q) (Change.removed q) :: parts
          else p :: q :: parts
      | [] => [p]
      end
  end.

(** Modelled from the spec: [Diff.diffLines], which the script imports
    from the package [diff]; the package is not among the sources.  The
    spec (4.3) has it treat both texts as sequences of lines and give the
    ordered sequence of line-level segments, classified as unchanged,
    added or removed, of a standard longest-common-subsequence line diff.
    The lines are compared as [tokenize] gives them, terminator
    included, which is how the package cuts a text into lines. *)
Definition line_diff : LineDiff :=
  fun oldStr newStr => group (script (tokenize oldStr) (tokenize newStr)).

End JsDiff.

(** ** Vocabulary of the statements *)

(** A machine with no files and an empty console. *)
Definition blank : Sys :=
  {| feeds_file := None; history_file := None;
     snapshots := ∅; console := [] |}.

(** What [fetchContent] returns for [feed] in the iteration with events
    [ev]; it does not depend on the machine state
    ([fetchContent_result]). *)
Definition fetch_result `{!Cheerio, !Trim} (ev : FeedEvents) (feed : Feed.t)
  : option Page.t :=
  match fst (fetchContent (fetched ev) (Feed.url feed)
                          (selector_or_body feed) blank) with
  | Ok result => result
  | Throw _ => None
  end.

(** What [loadSnapshot] returns in state [s] ([loadSnapshot_run]). *)
Definition stored_snapshot `{!PathJoin} (ev : FeedEvents) (s : Sys)
    (feedId : string) : option string :=
  if snapshot_unreadable ev then None
  else snapshots s !! snapshotPath feedId.

(** The paths of the snapshots of the feeds [fs], in their order. *)
Definition snapshot_paths `{!PathJoin} (fs : list Feed.t) : list string :=
  (fun f => snapshotPath (Feed.id f)) <$> fs.

(** The lines of the console. *)
Definition visiting_line (feed : Feed.t) : Line :=
  Log ("📄 巡回中: " +:+ Feed.title feed +:+ " (" +:+ Feed.url feed +:+ ")").
Definition fetch_error_line (url message : string) : Line :=
  Error ("[エラー] " +:+ url +:+ " の取得に失敗: " +:+ message).
Definition skip_line : Line := Log "  ⚠️ スキップ: 取得失敗".
Definition first_seen_line : Line := Log "  ✨ 初回スナップショット保存".
Definition changed_line : Line := Log "  🔄 更新を検出!".
Definition unchanged_line : Line := Log "  ✓ 変更なし".

(** The state after the loop body has logged [lines]. *)
Definition logged (lines : list Line) (s : Sys) : Sys :=
  with_console (console s ++ lines) s.

(** The state after the loop body has logged [lines] and then written
    [content] to the snapshot of [feedId]. *)
Definition saved `{!PathJoin} (feedId content : string) (lines : list Line)
    (s : Sys) : Sys :=
  with_snapshots (<[snapshotPath feedId := content]> (snapshots s))
                 (logged lines s).

(** The history entries of [us] that belong to the feed [feedId]. *)
Definition updates_of (feedId : string) (us : list Update.t)
  : list Update.t :=
  List.filter (fun u => bool_decide (Update.feedId u = feedId)) us.

(** The feeds of [fs] with the id [feedId]. *)
Definition feeds_with_id (feedId : string) (fs : list Feed.t)
  : list Feed.t :=
  List.filter (fun f => bool_decide (Feed.id f = feedId)) fs.

(** [u] is the entry the body of the loop makes for [f] in the iteration
    [i] of the pass of [w]: its [feedId] is the id of [f], its [id] that id
    joined with the clock of the iteration, its [detectedAt] is [now]. *)
Definition made_for (w : World) (now : string) (i : nat) (f : Feed.t)
    (u : Update.t) : Prop :=
  Update.feedId u = Feed.id f
  /\ Update.id u = Feed.id f +:+ "-" +:+ pretty (date_now (events w i))
  /\ Update.detectedAt u = now.

(** [pass_entries w now i fs new]: [new] are entries a loop over the feeds
    [fs], the first of which has index [i], can have made: every feed
    gives no entry or one, and the entry of a later feed stands before the
    entry of an earlier one. *)
Inductive pass_entries (w : World) (now : string)
  : nat -> list Feed.t -> list Update.t -> Prop :=
  | pass_entries_nil i : pass_entries w now i [] []
  | pass_entries_none i f fs new :
      pass_entries w now (S i) fs new ->
      pass_entries w now i (f :: fs) new
  | pass_entries_one i f fs new u :
      pass_entries w now (S i) fs new ->
      made_for w now i f u ->
      pass_entries w now i (f :: fs) (new ++ [u]).

(** The entry the body of the loop makes for [f] in an iteration with the
    events [ev], when the snapshot it reads is the one of the state [s]:
    the entry of lines 150-162 when the fetch succeeds, a snapshot is read
    and the hashes differ, and none otherwise. *)
Definition entry_for `{!Md5, !Cheerio, !Trim, !LineDiff, !PathJoin}
    (now : string) (ev : FeedEvents) (s : Sys) (f : Feed.t)
  : option Update.t :=
  match fetch_result ev f with
  | None => None
  | Some page =>
      match stored_snapshot ev s (Feed.id f) with
      | None => None
      | Some previous =>
          if decide (generateHash previous
                     <> generateHash (Page.content page))
          then Some (new_update now ev (update_metadata now page f)
                       (calculateDiff previous (Page.content page)))
          else None
      end
  end.

(** The entry of one iteration, if any, as a list. *)
Definition entry_list (e : option Update.t) : list Update.t :=
  match e with
  | Some u => [u]
  | None => []
  end.

(** The entries of a loop over the feeds [fs], the first of which has the
    index [i], when every feed finds the snapshot of the state [s]: the
    entry of a later feed stands before the entry of an earlier one. *)
Fixpoint entries_from `{!Md5, !Cheerio, !Trim, !LineDiff, !PathJoin}
    (w : World) (now : string) (s : Sys) (i : nat) (fs : list Feed.t)
  : list Update.t :=
  match fs with
  | [] => []
  | f :: rest =>
      (entries_from w now s (S i) rest
       ++ entry_list (entry_for now (events w i) s f))%list
  end.

(** The first line of the console (line 108). *)
Definition start_line `{!IsoDate} (w : World) : Line :=
  Log ("🚀 MFT巡回開始: " +:+ toISOString (launch_ms w)).

(** The run timestamp: [now] of line 114. *)
Definition run_timestamp `{!IsoDate} (w : World) : string :=
  toISOString (start_ms w).

(** The history the loop of the pass returns, before the cut of line 177
    and the two writes; none when the loop throws. *)
Definition loop_history
    `{!Md5, !Cheerio, !Trim, !IsoDate, !LineDiff, !PathJoin}
    (w : World) (s : Sys) (fd : FeedsData) (hd : HistoryData)
  : option (list Update.t) :=
  match crawl_feeds w (run_timestamp w) 0 (feeds fd)
          {| historyData := hd; updatedCount := 0 |}
          (logged [start_line w] s) with
  | (Ok (_, l'), _) => Some (updates (historyData l'))
  | (Throw _, _) => None
  end.

(** The entries of the pass of [w] from the machine state [s], when
    every feed finds the snapshot the pass started with. *)
Definition entries_of_pass
    `{!Md5, !Cheerio, !Trim, !IsoDate, !LineDiff, !PathJoin}
    (w : World) (s : Sys) (fs : list Feed.t) : list Update.t :=
  entries_from w (run_timestamp w) s 0 fs.

(** The fetch of [feed] fails in the iteration with the events [ev]:
    [fetchContent] returns [null].  This is every failure the [catch] of
    lines 54-57 sees: a rejected [fetch] (network error, timeout), a
    status that is not a success, a body that cannot be read, an
    exception of cheerio. *)
Definition fetch_failed `{!Cheerio, !Trim} (ev : FeedEvents) (feed : Feed.t)
  : Prop :=
  fetch_result ev feed = None.

(** The message of the error [fetchContent] catches when the fetch fails
    in the network: the promise of [fetch] is rejected (network error,
    timeout), the response has a status that is not a success, or the
    promise of [response.text()] is rejected (network error or timeout
    while the body is read). *)
Definition network_failure (o : FetchOutcome) : option string :=
  match o with
  | Rejected message => Some message
  | Resolved response =>
      if negb (ok response) then
        Some ("HTTP " +:+ pretty (status response) +:+ ": "
              +:+ statusText response)
      else match text response with
           | inl _ => None
           | inr message => Some message
           end
  end.

(** The three lines a skipped feed leaves on the console, [message] being
    the message of the error caught. *)
Definition skipped_lines (feed : Feed.t) (message : string) : list Line :=
  [visiting_line feed;
   fetch_error_line (Feed.url feed) message;
   skip_line].

(** [seg] is the history form of the part [part]: its kind, and the first
    [CONTENT_CAP] UTF-16 units of its text. *)
Definition records (seg : Segment.t) (part : Change.t) : Prop :=
  Segment.type seg = (if Change.added part then "added" else "removed")
  /\ Segment.content seg = Utf16.prefix CONTENT_CAP (Change.value part).

(** ** Sample runs *)

Module Sample.

(** Stand-ins for the libraries: a hash that tells all texts apart, pages
    whose title is ["News"] and whose selected text is the whole body, no
    trimming, and a timestamp that shows the milliseconds. *)
Definition md5 : Md5 := fun content => content.
Definition cheerio : Cheerio :=
  fun html selector =>
    inl (if decide (selector = "title") then "News" else html).
Definition trim : Trim := fun s => s.
Definition iso : IsoDate := fun ms => "T" +:+ pretty ms.
(** The snapshot directory; the ids of the samples are plain file names,
    for which [path.join] only puts the directory in front. *)
Definition dir : PathJoin := fun name => "data/snapshots/" +:+ name.

#[local] Existing Instances md5 cheerio trim iso JsDiff.line_diff dir.

Definition nl : string := String JsDiff.newline EmptyString.
Definition hello_world : string := "Hello" +:+ nl +:+ "World".
Definition hello_world_foo : string := hello_world +:+ nl +:+ "Foo".

Definition feed_a : Feed.t :=
  {| Feed.id := "a"; Feed.url := "https://a.example";
     Feed.title := "Site A"; Feed.tags := ["news"];
     Feed.selector := Some "article";
     Feed.addedAt := "2026-01-19T00:00:00+09:00";
     Feed.lastChecked := None; Feed.lastUpdated := None |}.
Definition feed_b : Feed.t :=
  {| Feed.id := "b"; Feed.url := "https://b.example";
     Feed.title := "Site B"; Feed.tags := ["blog"];
     Feed.selector := None;
     Feed.addedAt := "2026-01-19T00:00:00+09:00";
     Feed.lastChecked := None; Feed.lastUpdated := None |}.

Definition registry : FeedsData :=
  {| feeds := [feed_a; feed_b]; known_tags := ["news"; "blog"] |}.
Definition no_history : HistoryData := {| updates := [] |}.

(** The disk before the pass: feed [a] has the snapshot ["Hello\nWorld"],
    feed [b] has none. *)
Definition disk : Sys :=
  {| feeds_file := Some registry; history_file := Some no_history;
     snapshots := {[ snapshotPath "a" := hello_world ]}; console := [] |}.

Definition page (html : string) : FetchOutcome :=
  Resolved {| ok := true; status := 200; statusText := "OK";
              text := inl html |}.
Definition not_found : FetchOutcome :=
  Resolved {| ok := false; status := 404; statusText := "Not Found";
              text := inl "" |}.

(** An iteration in which the file system works. *)
Definition quiet (o : FetchOutcome) (i : nat) : FeedEvents :=
  {| fetched := o; snapshot_unreadable := false;
     snapshot_write_error := None;
     date_now := 1700000000000 + Z.of_nat i |}.
(** An iteration in which the snapshot cannot be written. *)
Definition read_only (o : FetchOutcome) (i : nat) : FeedEvents :=
  {| fetched := o; snapshot_unreadable := false;
     snapshot_write_error := Some "EACCES: permission denied";
     date_now := 1700000000000 + Z.of_nat i |}.
(** An iteration in which the snapshot cannot be read. *)
Definition unreadable (o : FetchOutcome) (i : nat) : FeedEvents :=
  {| fetched := o; snapshot_unreadable := true;
     snapshot_write_error := None;
     date_now := 1700000000000 + Z.of_nat i |}.

Definition world (evs : nat -> FeedEvents) : World :=
  {| launch_ms := 1699999999000; start_ms := 1699999999500;
     events := evs;
     feeds_write_error := None; history_write_error := None |}.

(** Every page reads ["Hello\nWorld\nFoo"]: feed [a] has changed. *)
Definition world_grown : World := world (quiet (page hello_world_foo)).
(** Every page reads ["Hello\nWorld"]: feed [a] is unchanged. *)
Definition world_same : World := world (quiet (page hello_world)).
(** The site of feed [a] answers 404. *)
Definition world_down : World :=
  world (fun i => match i with
                  | 0 => quiet not_found i
                  | _ => quiet (page hello_world) i
                  end).
(** The snapshot of feed [a] cannot be written. *)
Definition world_read_only : World :=
  world (fun i => match i with
                  | 0 => read_only (page hello_world_foo) i
                  | _ => quiet (page hello_world_foo) i
                  end).

(** The disks after the passes that return. *)
Definition after_grown : Sys := snd (crawl world_grown disk).
Definition after_same : Sys := snd (crawl world_same disk).
Definition after_down : Sys := snd (crawl world_down disk).

(** The page [fetchContent] returns for a body. *)
Definition fetched_page (html : string) : Page.t := Page.mk html "News".

(** A history at the cap: 100 entries of an earlier pass. *)
Definition old_entry (n : nat) : Update.t :=
  {| Update.id := "a-" +:+ pretty n; Update.feedId := "a";
     Update.feedTitle := "Site A"; Update.url := "https://a.example";
     Update.tags := ["news"]; Update.detectedAt := "T0";
     Update.diff := []; Update.diffSummary := "+0件 / -0件" |}.
Definition full_history : HistoryData :=
  {| updates := List.map old_entry (seq 0 100) |}.
Definition disk_full : Sys :=
  {| feeds_file := Some {| feeds := [feed_a]; known_tags := ["news"] |};
     history_file := Some full_history;
     snapshots := {[ snapshotPath "a" := hello_world ]}; console := [] |}.
Definition after_full : Sys := snd (crawl world_grown disk_full).

(** A disk on which both feeds have the snapshot ["Hello\nWorld"]: in the
    pass of [world_grown] both have changed. *)
Definition disk_both : Sys :=
  {| feeds_file := Some registry; history_file := Some no_history;
     snapshots := {[ snapshotPath "a" := hello_world;
                     snapshotPath "b" := hello_world ]};
     console := [] |}.
Definition after_both : Sys := snd (crawl world_grown disk_both).

(** A registry of 101 feeds, each with the snapshot ["Hello\nWorld"]: in
    the pass of [world_grown] all of them have changed. *)
Definition feed_n (n : nat) : Feed.t :=
  {| Feed.id := "f" +:+ pretty n;
     Feed.url := "https://f.example/" +:+ pretty n;
     Feed.title := "Site"; Feed.tags := [];
     Feed.selector := None;
     Feed.addedAt := "2026-01-19T00:00:00+09:00";
     Feed.lastChecked := None; Feed.lastUpdated := None |}.
Definition crowd : FeedsData :=
  {| feeds := List.map feed_n (seq 0 101); known_tags := [] |}.
Definition disk_crowd : Sys :=
  {| feeds_file := Some crowd; history_file := Some no_history;
     snapshots :=
       list_to_map
         (List.map (fun f => (snapshotPath (Feed.id f), hello_world))
                   (feeds crowd));
     console := [] |}.
Definition after_crowd : Sys := snd (crawl world_grown disk_crowd).

End Sample.

(** Two ids with one snapshot file. *)
Module Aliasing.

Import Sample.

(** A [path.join] that resolves a leading [./] of the name, as the one
    of Node does: [b.txt] and [./b.txt] are one path. *)
Definition resolve (name : string) : string :=
  match name with
  | String "." (String "/" rest) => rest
  | _ => name
  end.
Definition join_resolving : PathJoin :=
  fun name => "data/snapshots/" +:+ resolve name.

#[local] Existing Instances md5 cheerio trim iso JsDiff.line_diff
  join_resolving.

Definition feed_dot_b : Feed.t :=
  {| Feed.id := "./b"; Feed.url := "https://b.example/two";
     Feed.title := "Site B, page two"; Feed.tags := ["blog"];
     Feed.selector := None;
     Feed.addedAt := "2026-01-19T00:00:00+09:00";
     Feed.lastChecked := None; Feed.lastUpdated := None |}.

Definition registry : FeedsData :=
  {| feeds := [feed_b; feed_dot_b]; known_tags := ["blog"] |}.

(** The disk before the pass: no snapshot at all. *)
Definition disk : Sys :=
  {| feeds_file := Some registry; history_file := Some no_history;
     snapshots := ∅; console := [] |}.

(** The page of feed [b] reads ["one"], the page of feed [./b] reads
    ["two"]. *)
Definition world : World :=
  Sample.world (fun i => match i with
                         | 0 => quiet (page "one") i
                         | _ => quiet (page "two") i
                         end).

Definition after : Sys := snd (crawl world disk).

End Aliasing.

(** ** The page builder (scripts/build.js) *)

Module Build.

(** [str.replace(/c/g, replacement)] for a pattern of one character [c]
    that is no operator of regular expressions, and a replacement without
    [$]: every [c] of [str] becomes [replacement]. *)
Fixpoint replace_all (c : ascii) (replacement : string) (str : string)
  : string :=
  match str with
  | EmptyString => EmptyString
  | String a rest =>
      if Ascii.eqb a c then replacement +:+ replace_all c replacement rest
      else String a (replace_all c replacement rest)
  end.

(** The double quotation mark, written by its code. *)
Definition double_quote : ascii := "034"%char.

(** Lines 59-67.  [!str] holds for the empty string. *)
Definition escapeHtml (str : string) : string :=
  if decide (str = "") then ""
  else
    replace_all "'" "&#039;"
      (replace_all double_quote "&quot;"
         (replace_all ">" "&gt;"
            (replace_all "<" "&lt;"
               (replace_all "&" "&amp;" str)))).

(** [tags.join(sep)] (line 90): the texts with [sep] between them. *)
Fixpoint join (sep : string) (pieces : list string) : string :=
  match pieces with
  | [] => EmptyString
  | [piece] => piece
  | piece :: rest => piece +:+ sep +:+ join sep rest
  end.

End Build.

(** ** The tag filter of the page (docs/app.js) *)

Module App.

(** A [.tag-filter] button: its [data-tag], and whether its class list has
    [active]. *)
Record Button := { tag : string; active : bool }.

(** An [.update-card]: its [data-tags] and its [style.display]. *)
Record Card := { tags : string; display : string }.

(** [state.selectedTags], and what the filter reads and writes of the
    document: the buttons and the cards, in document order. *)
Record Doc := {
  selectedTags : list string;
  filters : list Button;
  cards : list Card;
}.

(** [classList.toggle('active', b)], [classList.add('active')],
    [classList.remove('active')] *)
Definition set_active (b : bool) (f : Button) : Button :=
  {| tag := tag f; active := b |}.

(** [str.split(sep)] for a separator of one character: the pieces between
    the separators; a text without separator, the empty one as well, is
    one piece. *)
Fixpoint split (sep : ascii) (str : string) : list string :=
  match str with
  | EmptyString => [EmptyString]
  | String c rest =>
      if Ascii.eqb c sep then EmptyString :: split sep rest
      else match split sep rest with
           | [] => [String c EmptyString]
           | piece :: pieces => String c piece :: pieces
           end
  end.

(** Lines 188-201. *)
Definition filterCards (d : Doc) : Doc :=
  let show (card : Card) : Card :=
    if bool_decide ("all" ∈ selectedTags d) then
      {| tags := tags card; display := "" |}
    else
      let cardTags := split "," (tags card) in
      let visible :=
        existsb (fun t => bool_decide (t ∈ selectedTags d)) cardTags in
      {| tags := tags card; display := if visible then "" else "none" |} in
  {| selectedTags := selectedTags d; filters := filters d;
     cards := show <$> cards d |}.

(** [document.querySelector('.tag-filter[data-tag="all"]')]: the index of
    the first button whose [data-tag] is [all], if there is one. *)
Definition all_button (fs : list Button) : option nat :=
  fst <$> list_find (fun f => tag f = "all") fs.

(** [btn.classList.contains('active')] for the button at index [b]. *)
Definition is_active (fs : list Button) (b : nat) : bool :=
  match fs !! b with
  | Some f => active f
  | None => false
  end.

(** Lines 137-169.  [b] is the index of the button [btn] among the
    [.tag-filter] buttons.  [None] is the [TypeError] of line 148 when the
    document has no button for [all]; nothing is changed before it. *)
Definition handleTagFilter (b : nat) (d : Doc) : option Doc :=
  match filters d !! b with
  | None => None
  | Some btn =>
      let tag := tag btn in
      if decide (tag = "all") then
        Some (filterCards
                {| selectedTags := ["all"];
                   filters :=
                     (fun f => set_active (bool_decide (App.tag f = "all")) f)
                     <$> filters d;
                   cards := cards d |})
      else
        match all_button (filters d) with
        | None => None
        | Some allBtn =>
            let filters1 := alter (set_active false) allBtn (filters d) in
            let selected1 :=
              filter (fun t => t <> "all") (selectedTags d) in
            let toggled :=
              if is_active filters1 b then
                (alter (set_active false) b filters1,
                 filter (fun t => t <> tag) selected1)
              else
                (alter (set_active true) b filters1, (selected1 ++ [tag])%list) in
            let reset :=
              if decide (length (snd toggled) = 0) then
                (alter (set_active true) allBtn (fst toggled), ["all"])
              else toggled in
            Some (filterCards
                    {| selectedTags := snd reset; filters := fst reset;
                       cards := cards d |})
        end
  end.

(** Lines 175-183. *)
Definition selectSingleTag (tag : string) (d : Doc) : Doc :=
  filterCards
    {| selectedTags := [tag];
       filters :=
         (fun f => set_active (bool_decide (App.tag f = tag)) f)
         <$> filters d;
       cards := cards d |}.

End App.

(** ** Vocabulary of the statements about the page builder *)

(** What [escapeHtml] makes of one character. *)
Definition escape_char (c : ascii) : string :=
  if Ascii.eqb c "&" then "&amp;"
  else if Ascii.eqb c "<" then "&lt;"
  else if Ascii.eqb c ">" then "&gt;"
  else if Ascii.eqb c Build.double_quote then "&quot;"
  else if Ascii.eqb c "'" then "&#039;"
  else String c EmptyString.

(** Every character of [s] escaped on its own, in one pass. *)
Fixpoint escape_each (s : string) : string :=
  match s with
  | EmptyString => EmptyString
  | String c rest => escape_char c +:+ escape_each rest
  end.

(** The character [c] occurs in [s]. *)
Fixpoint occurs (c : ascii) (s : string) : Prop :=
  match s with
  | EmptyString => False
  | String a rest => a = c \/ occurs c rest
  end.

(** The five replacements of [escapeHtml], in its order. *)
Definition five_replacements (str : string) : string :=
  Build.replace_all "'" "&#039;"
    (Build.replace_all Build.double_quote "&quot;"
       (Build.replace_all ">" "&gt;"
          (Build.replace_all "<" "&lt;"
             (Build.replace_all "&" "&amp;" str)))).

(** One of the five characters [escapeHtml] replaces. *)
Definition special (c : ascii) : Prop :=
  c = "&"%char \/ c = "<"%char \/ c = ">"%char
  \/ c = Build.double_quote \/ c = "'"%char.

(** ** Vocabulary of the further statements *)

(** [f'] is [f] with, at most, other [title], [lastChecked] and
    [lastUpdated]. *)
Definition same_source (f f' : Feed.t) : Prop :=
  Feed.id f' = Feed.id f
  /\ Feed.url f' = Feed.url f
  /\ Feed.tags f' = Feed.tags f
  /\ Feed.selector f' = Feed.selector f
  /\ Feed.addedAt f' = Feed.addedAt f.

(** The last line of the console of a pass that made [n] entries
    (line 183). *)
Definition done_line (n : nat) : Line :=
  Log ("✅ 巡回完了: " +:+ pretty n +:+ "件の更新を検出").

(** No snapshot is written in the iterations [i], ..., [i + n - 1] of the
    pass of [w] with a failure. *)
Definition snapshot_writes_work (w : World) (i n : nat) : Prop :=
  forall j, j < n -> snapshot_write_error (events w (i + j)) = None.

(** [f'] is what the body of the loop makes of [f] in an iteration with
    the events [ev]: [f] itself when the fetch fails; otherwise
    [lastChecked] is [now], [title] is the title of the page when that is
    not empty and not the URL, and [lastUpdated] is as before or [now]. *)
Definition visited `{!Cheerio, !Trim} (now : string) (ev : FeedEvents)
    (f f' : Feed.t) : Prop :=
  same_source f f'
  /\ match fetch_result ev f with
     | None => f' = f
     | Some page =>
         Feed.lastChecked f' = Some now
         /\ Feed.title f'
            = (if decide (Page.title page <> ""
                          /\ Page.title page <> Feed.url f)
               then Page.title page else Feed.title f)
         /\ (Feed.lastUpdated f' = Feed.lastUpdated f
             \/ Feed.lastUpdated f' = Some now)
     end.

(** The body of the loop will make no entry for [f] in an iteration with
    the events [ev] from the state [s]: the fetch fails, or no snapshot is
    read, or the snapshot read hashes as the fetched text does. *)
Definition settled `{!Md5, !Cheerio, !Trim, !PathJoin} (ev : FeedEvents)
    (s : Sys) (f : Feed.t) : Prop :=
  match fetch_result ev f with
  | None => True
  | Some page =>
      match stored_snapshot ev s (Feed.id f) with
      | None => True
      | Some previous =>
          generateHash previous = generateHash (Page.content page)
      end
  end.

(** The string has no hyphen. *)
Fixpoint no_dash (s : string) : Prop :=
  match s with
  | EmptyString => True
  | String c rest => c <> "-"%char /\ no_dash rest
  end.

(** The clock of the iterations [0], ..., [n - 1] of the pass of [w] is
    not before the epoch, so that [Date.now()] prints without a sign. *)
Definition clock_after_epoch (w : World) (n : nat) : Prop :=
  forall j, j < n -> (0 <= date_now (events w j))%Z.

(** ** Vocabulary of the statements about the tag filter *)

(** The buttons [fs] show the selection [selected]: a button is active
    exactly when its tag is selected. *)
Definition shows (fs : list App.Button) (selected : list string) : Prop :=
  forall k f, fs !! k = Some f ->
    (App.active f = true <-> App.tag f ∈ selected).

(** The buttons of the document show its selection. *)
Definition synced (d : App.Doc) : Prop :=
  shows (App.filters d) (App.selectedTags d).

(** A page as the builder writes it for the tags [news] and [blog]: the
    button for [all] is active, and [all] is what is selected. *)
Module SamplePage.

Definition buttons : list App.Button :=
  [ {| App.tag := "all"; App.active := true |};
    {| App.tag := "news"; App.active := false |};
    {| App.tag := "blog"; App.active := false |} ].

Definition card_tags : list string := ["news"; "tech"].

Definition page : App.Doc :=
  {| App.selectedTags := ["all"];
     App.filters := buttons;
     App.cards :=
       [ {| App.tags := Build.join "," card_tags; App.display := "" |};
         {| App.tags := "blog"; App.display := "" |} ] |}.

(** The page after a click on the button for [blog]. *)
Definition page_blog : App.Doc :=
  match App.handleTagFilter 2 page with
  | Some d => d
  | None => page
  end.

End SamplePage.

(** Further sample runs of the pass. *)
Module MoreSamples.

Import Sample.
#[local] Existing Instances md5 trim iso JsDiff.line_diff dir.

(** Pages without a title. *)
Definition cheerio_untitled : Cheerio :=
  fun html selector =>
    inl (if decide (selector = "title") then "" else html).

(** A disk on which [feeds.json] is missing. *)
Definition disk_without_registry : Sys :=
  {| feeds_file := None; history_file := Some no_history;
     snapshots := {[ snapshotPath "a" := hello_world ]}; console := [] |}.

(** [feeds.json] cannot be written at the end of the pass. *)
Definition world_registry_locked : World :=
  {| launch_ms := 1699999999000; start_ms := 1699999999500;
     events := quiet (page hello_world_foo);
     feeds_write_error := Some "EACCES: permission denied";
     history_write_error := None |}.

(** The snapshot of feed [a] is written, the one of feed [b] cannot be. *)
Definition world_late_failure : World :=
  world (fun i => match i with
                  | 0 => quiet (page hello_world_foo) i
                  | _ => read_only (page hello_world_foo) i
                  end).

(** The loop of the pass of [world_registry_locked]. *)
Definition loop_locked
  : Res (list Feed.t * Locals) * Sys :=
  crawl_feeds (H0 := cheerio) world_registry_locked
    (run_timestamp world_registry_locked) 0 (feeds registry)
    {| historyData := no_history; updatedCount := 0 |}
    (logged [start_line world_registry_locked] disk).

Definition locked_feeds : list Feed.t :=
  match fst loop_locked with
  | Ok r => fst r
  | Throw _ => []
  end.
Definition locked_locals : Locals :=
  match fst loop_locked with
  | Ok r => snd r
  | Throw _ => {| historyData := no_history; updatedCount := 0 |}
  end.

(** The second of two passes over the same pages. *)
Definition after_second : Sys :=
  snd (crawl (H0 := cheerio) world_grown after_grown).

(** The pass over pages without a title. *)
Definition after_untitled : Sys :=
  snd (crawl (H0 := cheerio_untitled) world_grown disk).

End MoreSamples.

(** ** Properties of the script *)

Section Properties.

Context `{!Md5, !Cheerio, !Trim, !IsoDate, !LineDiff, !PathJoin}.

Local Open Scope list_scope.

(** *** The primitives *)

Lemma bind_ok {A B} (m : M A) (k : A -> M B) s a s' :
  m s = (Ok a, s') -> (x <- m ;; k x) s = k a s'.
Proof. intros Hm. unfold bind. now rewrite Hm. Qed.

Lemma bind_throw {A B} (m : M A) (k : A -> M B) s e s' :
  m s = (Throw e, s') -> (x <- m ;; k x) s = (Throw e, s').
Proof. intros Hm. unfold bind. now rewrite Hm. Qed.

(** [fetchContent] never throws: it returns a page and leaves the state
    alone, or returns [null] and logs one error line; which of the two does
    not depend on the state. *)
Lemma fetchContent_run net url selector :
  (exists page, forall s,
      fetchContent net url selector s = (Ok (Some page), s))
  \/ (exists message, forall s,
      fetchContent net url selector s
      = (Ok None, with_console (console s ++ [fetch_error_line url message]) s)).
Proof.
  unfold fetchContent, try_catch, bind, settle, ret, throw, console_error.
  destruct net as [message|response]; simpl.
  { right. exists message. reflexivity. }
  destruct (ok response); simpl.
  2:{ right. eexists. reflexivity. }
  destruct (text response) as [html|message]; simpl.
  2:{ right. exists message. reflexivity. }
  destruct (cheerio_text html "title") as [title_text|message]; simpl.
  2:{ right. exists message. reflexivity. }
  destruct (cheerio_text html selector) as [selected|message]; simpl.
  2:{ right. exists message. reflexivity. }
  left. eexists. reflexivity.
Qed.

(** A rejected [fetch] (network error, timeout) makes [fetchContent]
    return [null]. *)
Lemma fetchContent_rejected message url selector s :
  fetchContent (Rejected message) url selector s
  = (Ok None, with_console (console s ++ [fetch_error_line url message]) s).
Proof. reflexivity. Qed.

(** So does a response whose status is not a success. *)
Lemma fetchContent_not_ok response url selector s :
  ok response = false ->
  fetchContent (Resolved response) url selector s
  = (Ok None,
     with_console
       (console s ++
        [fetch_error_line url
           ("HTTP " +:+ pretty (status response) +:+ ": "
            +:+ statusText response)]) s).
Proof.
  intros Hok.
  unfold fetchContent, try_catch, bind, ret. simpl. rewrite Hok. reflexivity.
Qed.

Lemma loadSnapshot_run ev feedId s :
  loadSnapshot ev feedId s = (Ok (stored_snapshot ev s feedId), s).
Proof.
  unfold loadSnapshot, stored_snapshot, try_catch, ret.
  destruct (snapshot_unreadable ev); [reflexivity|].
  destruct (snapshots s !! snapshotPath feedId); reflexivity.
Qed.

Lemma saveSnapshot_ok ev feedId content s :
  snapshot_write_error ev = None ->
  saveSnapshot ev feedId content s
  = (Ok tt,
     with_snapshots (<[snapshotPath feedId := content]> (snapshots s)) s).
Proof. intros Hw. unfold saveSnapshot. now rewrite Hw. Qed.

Lemma saveSnapshot_throw ev feedId content s message :
  snapshot_write_error ev = Some message ->
  saveSnapshot ev feedId content s = (Throw message, s).
Proof. intros Hw. unfold saveSnapshot. now rewrite Hw. Qed.

Lemma fetchContent_result ev feed :
  match fetch_result ev feed with
  | Some page => forall s,
      fetchContent (fetched ev) (Feed.url feed) (selector_or_body feed) s
      = (Ok (Some page), s)
  | None => exists message, forall s,
      fetchContent (fetched ev) (Feed.url feed) (selector_or_body feed) s
      = (Ok None, logged [fetch_error_line (Feed.url feed) message] s)
  end.
Proof.
  unfold fetch_result.
  destruct (fetchContent_run (fetched ev) (Feed.url feed)
              (selector_or_body feed)) as [[page Hp]|[message Hm]].
  - rewrite Hp. simpl. exact Hp.
  - rewrite Hm. simpl. exists message. exact Hm.
Qed.

(** *** The body of the loop, case by case *)

Lemma logged_logged a b s : logged b (logged a s) = logged (a ++ b) s.
Proof. unfold logged, with_console. simpl. now rewrite <- app_assoc. Qed.

(** The fetch failed: the feed is skipped. *)
Lemma crawl_feed_skipped ev feed :
  fetch_result ev feed = None ->
  exists message, forall now l s,
    crawl_feed now ev feed l s
    = (Ok (feed, l),
       logged [visiting_line feed;
               fetch_error_line (Feed.url feed) message; skip_line] s).
Proof.
  intros Hf. pose proof (fetchContent_result ev feed) as Hr.
  rewrite Hf in Hr. destruct Hr as [message Hr]. exists message.
  intros now l s. unfold crawl_feed.
  rewrite (bind_ok _ _ _ tt (logged [visiting_line feed] s)) by reflexivity.
  rewrite (bind_ok _ _ _ _ _ (Hr _)).
  rewrite (bind_ok _ _ _ tt (logged [skip_line] _)) by reflexivity.
  unfold ret. rewrite !logged_logged. reflexivity.
Qed.

(** The part of the body after a successful fetch. *)
Lemma crawl_feed_fetched now ev feed page l s :
  fetch_result ev feed = Some page ->
  crawl_feed now ev feed l s
  = (let feed' := update_metadata now page feed in
     match stored_snapshot ev s (Feed.id feed) with
     | None =>
         console_log "  ✨ 初回スナップショット保存" ;;
         saveSnapshot ev (Feed.id feed') (Page.content page) ;;
         ret (feed', l)
     | Some previousContent =>
         if decide (generateHash previousContent
                    <> generateHash (Page.content page)) then
           console_log "  🔄 更新を検出!" ;;
           saveSnapshot ev (Feed.id feed') (Page.content page) ;;
           ret (Feed.set_lastUpdated now feed',
                {| historyData :=
                     {| updates :=
                          new_update now ev feed'
                            (calculateDiff previousContent (Page.content page))
                          :: updates (historyData l) |};
                   updatedCount := S (updatedCount l) |})
         else
           console_log "  ✓ 変更なし" ;;
           ret (feed', l)
     end) (logged [visiting_line feed] s).
Proof.
  intros Hf. pose proof (fetchContent_result ev feed) as Hr.
  rewrite Hf in Hr. unfold crawl_feed.
  rewrite (bind_ok _ _ _ tt (logged [visiting_line feed] s)) by reflexivity.
  rewrite (bind_ok _ _ _ _ _ (Hr _)).
  rewrite (bind_ok _ _ _ _ _ (loadSnapshot_run _ _ _)).
  reflexivity.
Qed.

Lemma update_metadata_id now page feed :
  Feed.id (update_metadata now page feed) = Feed.id feed.
Proof. unfold update_metadata. case_decide; reflexivity. Qed.

(** No snapshot: the text is stored, nothing else happens. *)
Lemma crawl_feed_first_seen now ev feed page l s :
  fetch_result ev feed = Some page ->
  stored_snapshot ev s (Feed.id feed) = None ->
  snapshot_write_error ev = None ->
  crawl_feed now ev feed l s
  = (Ok (update_metadata now page feed, l),
     saved (Feed.id feed) (Page.content page)
           [visiting_line feed; first_seen_line] s).
Proof.
  intros Hf Hs Hw. rewrite (crawl_feed_fetched _ _ _ _ _ _ Hf). cbv zeta.
  rewrite Hs, update_metadata_id.
  rewrite (bind_ok _ _ _ tt (logged [first_seen_line] _)) by reflexivity.
  rewrite (bind_ok _ _ _ _ _ (saveSnapshot_ok _ _ _ _ Hw)).
  unfold ret. rewrite logged_logged. reflexivity.
Qed.

(** The hashes differ: an entry is put in front of the history, the
    snapshot is overwritten, [lastUpdated] is set. *)
Lemma crawl_feed_changed now ev feed page previous l s :
  fetch_result ev feed = Some page ->
  stored_snapshot ev s (Feed.id feed) = Some previous ->
  generateHash previous <> generateHash (Page.content page) ->
  snapshot_write_error ev = None ->
  crawl_feed now ev feed l s
  = (Ok (Feed.set_lastUpdated now (update_metadata now page feed),
         {| historyData :=
              {| updates :=
                   new_update now ev (update_metadata now page feed)
                     (calculateDiff previous (Page.content page))
                   :: updates (historyData l) |};
            updatedCount := S (updatedCount l) |}),
     saved (Feed.id feed) (Page.content page)
           [visiting_line feed; changed_line] s).
Proof.
  intros Hf Hs Hh Hw. rewrite (crawl_feed_fetched _ _ _ _ _ _ Hf). cbv zeta.
  rewrite Hs, update_metadata_id. rewrite decide_True by exact Hh.
  rewrite (bind_ok _ _ _ tt (logged [changed_line] _)) by reflexivity.
  rewrite (bind_ok _ _ _ _ _ (saveSnapshot_ok _ _ _ _ Hw)).
  unfold ret. rewrite logged_logged. reflexivity.
Qed.

(** The hashes agree: only the metadata update of lines 133-136. *)
Lemma crawl_feed_unchanged now ev feed page previous l s :
  fetch_result ev feed = Some page ->
  stored_snapshot ev s (Feed.id feed) = Some previous ->
  generateHash previous = generateHash (Page.content page) ->
  crawl_feed now ev feed l s
  = (Ok (update_metadata now page feed, l),
     logged [visiting_line feed; unchanged_line] s).
Proof.
  intros Hf Hs Hh. rewrite (crawl_feed_fetched _ _ _ _ _ _ Hf). cbv zeta.
  rewrite Hs. rewrite decide_False by (intros Hne; exact (Hne Hh)).
  rewrite (bind_ok _ _ _ tt (logged [unchanged_line] _)) by reflexivity.
  unfold ret. rewrite logged_logged. reflexivity.
Qed.

(** The snapshot is to be written and the write fails: the body throws. *)
Lemma crawl_feed_write_fails now ev feed page message l s :
  fetch_result ev feed = Some page ->
  match stored_snapshot ev s (Feed.id feed) with
  | None => True
  | Some previous =>
      generateHash previous <> generateHash (Page.content page)
  end ->
  snapshot_write_error ev = Some message ->
  exists line,
    crawl_feed now ev feed l s
    = (Throw message, logged [visiting_line feed; line] s).
Proof.
  intros Hf Hs Hw. rewrite (crawl_feed_fetched _ _ _ _ _ _ Hf). cbv zeta.
  destruct (stored_snapshot ev s (Feed.id feed)) as [previous|].
  - rewrite decide_True by exact Hs. exists changed_line.
    rewrite (bind_ok _ _ _ tt (logged [changed_line] _)) by reflexivity.
    rewrite (bind_throw _ _ _ _ _ (saveSnapshot_throw _ _ _ _ _ Hw)).
    rewrite logged_logged. reflexivity.
  - exists first_seen_line.
    rewrite (bind_ok _ _ _ tt (logged [first_seen_line] _)) by reflexivity.
    rewrite (bind_throw _ _ _ _ _ (saveSnapshot_throw _ _ _ _ _ Hw)).
    rewrite logged_logged. reflexivity.
Qed.

(** Every run of the body is one of the five above. *)
Lemma crawl_feed_cases now ev feed l s :
  (exists lines,
      crawl_feed now ev feed l s = (Ok (feed, l), logged lines s))
  \/ (exists page lines,
      crawl_feed now ev feed l s
      = (Ok (update_metadata now page feed, l), logged lines s))
  \/ (exists page lines,
      crawl_feed now ev feed l s
      = (Ok (update_metadata now page feed, l),
         saved (Feed.id feed) (Page.content page) lines s))
  \/ (exists page previous lines,
      crawl_feed now ev feed l s
      = (Ok (Feed.set_lastUpdated now (update_metadata now page feed),
             {| historyData :=
                  {| updates :=
                       new_update now ev (update_metadata now page feed)
                         (calculateDiff previous (Page.content page))
                       :: updates (historyData l) |};
                updatedCount := S (updatedCount l) |}),
         saved (Feed.id feed) (Page.content page) lines s))
  \/ (exists message lines,
      crawl_feed now ev feed l s = (Throw message, logged lines s)).
Proof.
  destruct (fetch_result ev feed) as [page|] eqn:Hf.
  2:{ left. destruct (crawl_feed_skipped _ _ Hf) as [message Hm].
      eexists. apply Hm. }
  right.
  destruct (stored_snapshot ev s (Feed.id feed)) as [previous|] eqn:Hs.
  - destruct (decide (generateHash previous
                      = generateHash (Page.content page))) as [Hh|Hh].
    { left. do 2 eexists. eapply crawl_feed_unchanged; eassumption. }
    right. right.
    destruct (snapshot_write_error ev) as [message|] eqn:Hw.
    + right.
      destruct (crawl_feed_write_fails now ev feed page message l s Hf)
        as [line Hl]; [now rewrite Hs|exact Hw|].
      do 2 eexists. exact Hl.
    + left. do 3 eexists. eapply crawl_feed_changed; eassumption.
  - right.
    destruct (snapshot_write_error ev) as [message|] eqn:Hw.
    + right. right.
      destruct (crawl_feed_write_fails now ev feed page message l s Hf)
        as [line Hl]; [now rewrite Hs|exact Hw|].
      do 2 eexists. exact Hl.
    + left. do 2 eexists. eapply crawl_feed_first_seen; eassumption.
Qed.

(** The body touches neither JSON file, and no snapshot file but the one
    of its feed. *)
Lemma crawl_feed_frame now ev feed l s r s' :
  crawl_feed now ev feed l s = (r, s') ->
  feeds_file s' = feeds_file s
  /\ history_file s' = history_file s
  /\ forall k, k <> snapshotPath (Feed.id feed) ->
               snapshots s' !! k = snapshots s !! k.
Proof.
  intros Hrun.
  destruct (crawl_feed_cases now ev feed l s)
    as [[? E]|[(? & ? & E)|[(? & ? & E)|[(? & ? & ? & E)|(? & ? & E)]]]];
    rewrite E in Hrun; injection Hrun as <- <-; simpl;
    repeat split; trivial; intros k Hk; now rewrite lookup_insert_ne.
Qed.

(** A run of the body that returns keeps the id of the feed, and leaves
    the history alone or puts one entry, made for this feed, in front. *)
Lemma crawl_feed_ok now ev feed l s feed' l' s' :
  crawl_feed now ev feed l s = (Ok (feed', l'), s') ->
  Feed.id feed' = Feed.id feed
  /\ (l' = l
      \/ exists u,
          updates (historyData l') = u :: updates (historyData l)
          /\ updatedCount l' = S (updatedCount l)
          /\ Update.feedId u = Feed.id feed
          /\ Update.id u = Feed.id feed +:+ "-" +:+ pretty (date_now ev)
          /\ Update.detectedAt u = now).
Proof.
  intros Hrun.
  destruct (crawl_feed_cases now ev feed l s)
    as [[? E]|[(? & ? & E)|[(? & ? & E)|[(? & ? & ? & E)|(? & ? & E)]]]];
    rewrite E in Hrun; try discriminate Hrun;
    injection Hrun as <- <- <-;
    simpl; rewrite ?update_metadata_id; split; auto.
  right. eexists. unfold new_update. simpl.
  rewrite ?update_metadata_id. repeat split.
Qed.

(** *** The loop *)

Lemma crawl_feeds_cons w now i feed rest l s :
  crawl_feeds w now i (feed :: rest) l s
  = match crawl_feed now (events w i) feed l s with
    | (Ok (feed', l1), s1) =>
        match crawl_feeds w now (S i) rest l1 s1 with
        | (Ok (rest', l2), s2) => (Ok (feed' :: rest', l2), s2)
        | (Throw e, s2) => (Throw e, s2)
        end
    | (Throw e, s1) => (Throw e, s1)
    end.
Proof.
  simpl. unfold bind, ret.
  destruct (crawl_feed now (events w i) feed l s) as [[[feed' l1]|e] s1];
    [|reflexivity]. simpl.
  destruct (crawl_feeds w now (S i) rest l1 s1) as [[[rest' l2]|e] s2];
    reflexivity.
Qed.

(** The loop over [l1 ++ feed :: l2] is the loop over [l1], the body for
    [feed], and the loop over [l2]. *)
Lemma crawl_feeds_middle w now l1 feed l2 : forall i l s fs' l' s',
  crawl_feeds w now i (l1 ++ feed :: l2) l s = (Ok (fs', l'), s') ->
  exists l1' la sa feed' lb sb l2',
    crawl_feeds w now i l1 l s = (Ok (l1', la), sa)
    /\ crawl_feed now (events w (i + length l1)) feed la sa
       = (Ok (feed', lb), sb)
    /\ crawl_feeds w now (S (i + length l1)) l2 lb sb = (Ok (l2', l'), s')
    /\ fs' = l1' ++ feed' :: l2'
    /\ length l1' = length l1.
Proof.
  induction l1 as [|g l1 IH]; intros i l s fs' l' s' Hrun.
  - simpl app in Hrun. rewrite crawl_feeds_cons in Hrun.
    simpl length. rewrite Nat.add_0_r.
    destruct (crawl_feed now (events w i) feed l s)
      as [[[feed' lb]|e] sb] eqn:Hstep; [|discriminate].
    destruct (crawl_feeds w now (S i) l2 lb sb)
      as [[[l2' lc]|e] sc] eqn:Hrest; [|discriminate].
    injection Hrun as <- <- <-.
    exists [], l, s, feed', lb, sb, l2'. repeat split; trivial.
  - simpl app in Hrun. rewrite crawl_feeds_cons in Hrun.
    destruct (crawl_feed now (events w i) g l s)
      as [[[g' lg]|e] sg] eqn:Hg; [|discriminate].
    destruct (crawl_feeds w now (S i) (l1 ++ feed :: l2) lg sg)
      as [[[rest' lr]|e] sr] eqn:Hrest; [|discriminate].
    injection Hrun as <- <- <-.
    destruct (IH _ _ _ _ _ _ Hrest)
      as (l1' & la & sa & feed' & lb & sb & l2' & Ha & Hb & Hc & -> & Hlen).
    exists (g' :: l1'), la, sa, feed', lb, sb, l2'.
    rewrite crawl_feeds_cons, Hg, Ha. simpl length.
    replace (i + S (length l1)) with (S i + length l1) by lia.
    repeat split; trivial. simpl. now rewrite Hlen.
Qed.

(** The loop touches neither JSON file, and only the snapshot files of
    the feeds it visits; this holds also when it throws. *)
Lemma crawl_feeds_frame w now fs : forall i l s r s',
  crawl_feeds w now i fs l s = (r, s') ->
  feeds_file s' = feeds_file s
  /\ history_file s' = history_file s
  /\ forall k, k ∉ snapshot_paths fs -> snapshots s' !! k = snapshots s !! k.
Proof.
  unfold snapshot_paths.
  induction fs as [|feed rest IH]; intros i l s r s' Hrun.
  { injection Hrun as <- <-. auto. }
  rewrite crawl_feeds_cons in Hrun.
  destruct (crawl_feed now (events w i) feed l s)
    as [r1 s1] eqn:Hstep.
  destruct (crawl_feed_frame _ _ _ _ _ _ _ Hstep) as (Hf1 & Hh1 & Hs1).
  assert (Hhead : forall k,
            k ∉ (fun f => snapshotPath (Feed.id f)) <$> feed :: rest ->
            snapshots s1 !! k = snapshots s !! k).
  { intros k Hk. apply Hs1. intros ->. apply Hk. rewrite fmap_cons. left. }
  destruct r1 as [[feed' l1]|e].
  2:{ injection Hrun as <- <-. auto. }
  destruct (crawl_feeds w now (S i) rest l1 s1) as [r2 s2] eqn:Hrest.
  destruct (IH _ _ _ _ _ Hrest) as (Hf2 & Hh2 & Hs2).
  assert (s' = s2) as -> by (destruct r2 as [[? ?]|?]; congruence).
  rewrite Hf2, Hh2. repeat split; trivial.
  intros k Hk. rewrite Hs2, Hhead; trivial.
  intros Hin. apply Hk. rewrite fmap_cons. now right.
Qed.

Lemma updates_of_app k us vs :
  updates_of k (us ++ vs) = updates_of k us ++ updates_of k vs.
Proof. apply List.filter_app. Qed.

(** The entries of a pass: each belongs to a feed of the pass and carries
    the timestamp of the pass; there are no more of them for an id than
    feeds with this id. *)
Lemma pass_entries_made w now i fs new :
  pass_entries w now i fs new ->
  Forall (fun u => Update.detectedAt u = now
                   /\ exists j f, fs !! j = Some f /\ made_for w now (i + j) f u)
         new.
Proof.
  induction 1 as [i|i f fs new Hp IH|i f fs new u Hp IH Hu].
  - constructor.
  - eapply Forall_impl; [exact IH|]. intros u (Hd & j & g & Hj & Hg).
    split; [exact Hd|]. exists (S j), g.
    replace (i + S j) with (S i + j) by lia. now split.
  - apply Forall_app. split.
    + eapply Forall_impl; [exact IH|]. intros v (Hd & j & g & Hj & Hg).
      split; [exact Hd|]. exists (S j), g.
      replace (i + S j) with (S i + j) by lia. now split.
    + apply Forall_singleton. split; [apply Hu|].
      exists 0, f. rewrite Nat.add_0_r. now split.
Qed.

Lemma pass_entries_count w now i fs new :
  pass_entries w now i fs new ->
  length new <= length fs
  /\ forall k, length (updates_of k new) <= length (feeds_with_id k fs).
Proof.
  induction 1 as [i|i f fs new Hp [IHn IHk]|i f fs new u Hp [IHn IHk] Hu].
  - split; [reflexivity|]. intros k. reflexivity.
  - split; [simpl; lia|]. intros k. specialize (IHk k).
    unfold feeds_with_id in *. simpl. case_bool_decide; simpl; lia.
  - split; [rewrite length_app; simpl; lia|]. intros k. specialize (IHk k).
    destruct Hu as (Hfid & _).
    rewrite updates_of_app, length_app.
    unfold feeds_with_id, updates_of in *. simpl. rewrite Hfid.
    case_bool_decide; simpl; lia.
Qed.

(** A loop that returns keeps the ids of the feeds and puts the entries it
    made in front of the history. *)
Lemma crawl_feeds_ok w now fs : forall i l s fs' l' s',
  crawl_feeds w now i fs l s = (Ok (fs', l'), s') ->
  Feed.id <$> fs' = Feed.id <$> fs
  /\ exists new,
      updates (historyData l') = new ++ updates (historyData l)
      /\ updatedCount l' = length new + updatedCount l
      /\ pass_entries w now i fs new.
Proof.
  induction fs as [|feed rest IH]; intros i l s fs' l' s' Hrun.
  { injection Hrun as <- <- <-. split; [reflexivity|].
    exists []. repeat split; constructor. }
  rewrite crawl_feeds_cons in Hrun.
  destruct (crawl_feed now (events w i) feed l s)
    as [[[feed' l1]|e] s1] eqn:Hstep; [|discriminate].
  destruct (crawl_feeds w now (S i) rest l1 s1)
    as [[[rest' l2]|e] s2] eqn:Hrest; [|discriminate].
  injection Hrun as <- <- <-.
  destruct (crawl_feed_ok _ _ _ _ _ _ _ _ Hstep) as (Hid & Hhead).
  destruct (IH _ _ _ _ _ _ Hrest) as (Hids & new & Hnew & Hcount & Hpass).
  split; [rewrite !fmap_cons; congruence|].
  destruct Hhead as [->|(u & Hu & Hc & Hfid & Huid & Hdet)].
  - exists new. repeat split; trivial. now constructor.
  - exists (new ++ [u]). rewrite Hnew, Hu, Hcount, Hc, <- app_assoc.
    rewrite length_app. simpl. repeat split; [lia|].
    constructor; [exact Hpass|]. repeat split; trivial.
Qed.

(** *** The pass *)

(** A pass that returns has read both documents, run the loop from the
    history read, and written the feeds of the loop and the first
    [HISTORY_CAP] entries of its history. *)
Lemma crawl_ok w s s' :
  crawl w s = (Ok tt, s') ->
  exists fd hd fs' l' s1,
    feeds_file s = Some fd
    /\ history_file s = Some hd
    /\ crawl_feeds w (run_timestamp w) 0 (feeds fd)
         {| historyData := hd; updatedCount := 0 |} (logged [start_line w] s)
       = (Ok (fs', l'), s1)
    /\ feeds_file s' = Some {| feeds := fs'; known_tags := known_tags fd |}
    /\ history_file s'
       = Some {| updates := take HISTORY_CAP (updates (historyData l')) |}
    /\ snapshots s' = snapshots s1.
Proof.
  unfold crawl. intros Hrun.
  rewrite (bind_ok _ _ _ tt (logged [start_line w] s)) in Hrun
    by reflexivity.
  unfold bind at 1 in Hrun. unfold read_feeds at 1 in Hrun.
  change (feeds_file (logged [start_line w] s)) with (feeds_file s) in Hrun.
  destruct (feeds_file s) as [fd|]; [|discriminate].
  unfold bind at 1 in Hrun. unfold read_history at 1 in Hrun.
  change (history_file (logged [start_line w] s))
    with (history_file s) in Hrun.
  destruct (history_file s) as [hd|]; [|discriminate].
  unfold bind at 1 in Hrun. fold (run_timestamp w) in Hrun.
  destruct (crawl_feeds w (run_timestamp w) 0 (feeds fd) _ _)
    as [[[fs' l']|e] s1] eqn:Hloop; [|discriminate].
  exists fd, hd, fs', l', s1.
  unfold bind, write_feeds, write_history, console_log in Hrun.
  simpl in Hrun.
  destruct (feeds_write_error w); [discriminate|].
  destruct (history_write_error w); [discriminate|].
  injection Hrun as <-. repeat split; trivial.
Qed.

Lemma feeds_with_id_none k (fs : list Feed.t) :
  k ∉ Feed.id <$> fs -> feeds_with_id k fs = [].
Proof.
  induction fs as [|f fs IH]; [reflexivity|]. rewrite fmap_cons.
  intros Hk. apply not_elem_of_cons in Hk as [Hne Hk].
  unfold feeds_with_id in *. simpl.
  rewrite bool_decide_eq_false_2 by congruence. now apply IH.
Qed.

(** Feeds with distinct snapshot paths have distinct ids. *)
Lemma snapshot_paths_ids (fs : list Feed.t) :
  NoDup (snapshot_paths fs) -> NoDup (Feed.id <$> fs).
Proof.
  unfold snapshot_paths. intros Hnd.
  apply (NoDup_fmap_1 snapshotPath). now rewrite <- list_fmap_compose.
Qed.

Lemma snapshot_path_elem (f : Feed.t) (fs : list Feed.t) :
  f ∈ fs -> snapshotPath (Feed.id f) ∈ snapshot_paths fs.
Proof.
  intros Hin. unfold snapshot_paths.
  now apply (list_elem_of_fmap_2 (fun g => snapshotPath (Feed.id g))).
Qed.

Lemma snapshot_path_fresh (f : Feed.t) (fs : list Feed.t) :
  snapshotPath (Feed.id f) ∉ snapshot_paths fs ->
  Feed.id f ∉ Feed.id <$> fs.
Proof.
  intros Hnot Hin. apply Hnot.
  apply list_elem_of_fmap in Hin as (g & Hg & Hin).
  rewrite Hg. now apply snapshot_path_elem.
Qed.

(** What a pass that returns did for the feed at index [i], the snapshot
    paths of the registry being distinct: the body ran for it from a state
    with the snapshot the pass started with, and the other feeds left its
    snapshot alone. *)
Lemma crawl_at w s s' fd hd i f :
  crawl w s = (Ok tt, s') ->
  feeds_file s = Some fd ->
  history_file s = Some hd ->
  NoDup (snapshot_paths (feeds fd)) ->
  feeds fd !! i = Some f ->
  exists la sa f' lb sb fd',
    crawl_feed (run_timestamp w) (events w i) f la sa = (Ok (f', lb), sb)
    /\ snapshots sa !! snapshotPath (Feed.id f)
       = snapshots s !! snapshotPath (Feed.id f)
    /\ snapshots s' !! snapshotPath (Feed.id f)
       = snapshots sb !! snapshotPath (Feed.id f)
    /\ feeds_file s' = Some fd'
    /\ feeds fd' !! i = Some f'.
Proof.
  intros Hrun Hfd Hhd Hnodup Hi.
  destruct (crawl_ok _ _ _ Hrun)
    as (fd0 & hd0 & fs' & l' & s1 & Hfd0 & Hhd0 & Hloop & Hfd' & Hhd' & Hsn).
  rewrite Hfd in Hfd0. rewrite Hhd in Hhd0.
  injection Hfd0 as <-. injection Hhd0 as <-.
  pose proof (take_drop_middle _ _ _ Hi) as Hsplit.
  pose proof (lookup_lt_Some _ _ _ Hi) as Hlt.
  set (l1 := take i (feeds fd)) in *. set (l2 := drop (S i) (feeds fd)) in *.
  assert (Hl1 : length l1 = i) by (subst l1; rewrite length_take; lia).
  rewrite <- Hsplit in Hloop, Hnodup.
  unfold snapshot_paths in Hnodup.
  rewrite fmap_app, fmap_cons in Hnodup.
  apply NoDup_app in Hnodup as (_ & Hnot1 & Hnodup).
  apply NoDup_cons in Hnodup as (Hnot2 & _).
  assert (Hk1 : snapshotPath (Feed.id f) ∉ snapshot_paths l1).
  { intros Hin. apply (Hnot1 _ Hin). left. }
  destruct (crawl_feeds_middle _ _ _ _ _ _ _ _ _ _ _ Hloop)
    as (l1' & la & sa & f' & lb & sb & l2' & Ha & Hb & Hc & -> & Hlen).
  simpl in Hb, Hc. rewrite Hl1 in Hb, Hc.
  destruct (crawl_feeds_frame _ _ _ _ _ _ _ _ Ha) as (_ & _ & Hsa).
  destruct (crawl_feeds_frame _ _ _ _ _ _ _ _ Hc) as (_ & _ & Hsc).
  exists la, sa, f', lb, sb, {| feeds := l1' ++ f' :: l2';
                               known_tags := known_tags fd |}.
  split_and!; trivial.
  - now rewrite Hsa.
  - now rewrite Hsn, Hsc.
  - simpl. rewrite lookup_app_r by lia.
    now replace (i - length l1') with 0 by lia.
Qed.

Lemma stored_snapshot_same ev s1 s2 k :
  snapshots s1 !! snapshotPath k = snapshots s2 !! snapshotPath k ->
  stored_snapshot ev s1 k = stored_snapshot ev s2 k.
Proof. intros Heq. unfold stored_snapshot. now rewrite Heq. Qed.

(** A body that returns after it had a snapshot to write has written it. *)
Lemma crawl_feed_ok_written now ev feed page l s r s' :
  crawl_feed now ev feed l s = (Ok r, s') ->
  fetch_result ev feed = Some page ->
  match stored_snapshot ev s (Feed.id feed) with
  | None => True
  | Some previous =>
      generateHash previous <> generateHash (Page.content page)
  end ->
  snapshot_write_error ev = None.
Proof.
  intros Hrun Hf Hs.
  destruct (snapshot_write_error ev) as [message|] eqn:Hw; [|reflexivity].
  destruct (crawl_feed_write_fails now ev feed page message l s Hf Hs Hw)
    as [line Hl].
  rewrite Hl in Hrun. discriminate.
Qed.

Lemma updates_of_one k u :
  Update.feedId u = k -> updates_of k [u] = [u].
Proof.
  intros Hk. unfold updates_of. simpl. now rewrite bool_decide_eq_true_2.
Qed.

(** *** The entries of a pass *)

Lemma entries_from_cons w now s i f rest :
  entries_from w now s i (f :: rest)
  = entries_from w now s (S i) rest
    ++ entry_list (entry_for now (events w i) s f).
Proof. reflexivity. Qed.

Lemma entry_for_same now ev s1 s2 f :
  snapshots s1 !! snapshotPath (Feed.id f)
  = snapshots s2 !! snapshotPath (Feed.id f) ->
  entry_for now ev s1 f = entry_for now ev s2 f.
Proof.
  intros Heq. unfold entry_for.
  now rewrite (stored_snapshot_same ev s1 s2 _ Heq).
Qed.

Lemma entry_for_feedId now ev s f u :
  entry_for now ev s f = Some u -> Update.feedId u = Feed.id f.
Proof.
  unfold entry_for.
  destruct (fetch_result ev f) as [page|]; [|discriminate].
  destruct (stored_snapshot ev s (Feed.id f)) as [previous|]; [|discriminate].
  case_decide; [|discriminate].
  intros Hu. injection Hu as <-. simpl. apply update_metadata_id.
Qed.

(** A run of the body that returns has put in front of the history the
    entry [entry_for] gives for the state it started from, and counted
    it. *)
Lemma crawl_feed_entry now ev feed l s feed' l' s' :
  crawl_feed now ev feed l s = (Ok (feed', l'), s') ->
  updates (historyData l')
  = entry_list (entry_for now ev s feed) ++ updates (historyData l)
  /\ updatedCount l'
     = length (entry_list (entry_for now ev s feed)) + updatedCount l.
Proof.
  intros Hrun. unfold entry_for.
  destruct (fetch_result ev feed) as [page|] eqn:Hf.
  2:{ destruct (crawl_feed_skipped _ _ Hf) as [message Hm].
      rewrite Hm in Hrun. injection Hrun as <- <- <-. now split. }
  destruct (stored_snapshot ev s (Feed.id feed)) as [previous|] eqn:Hs.
  - destruct (decide (generateHash previous
                      <> generateHash (Page.content page))) as [Hh|Hh].
    + assert (Hw : snapshot_write_error ev = None).
      { eapply crawl_feed_ok_written; [exact Hrun|exact Hf|now rewrite Hs]. }
      rewrite (crawl_feed_changed _ _ _ _ _ _ _ Hf Hs Hh Hw) in Hrun.
      injection Hrun as <- <- <-. now split.
    + assert (Heq : generateHash previous
                    = generateHash (Page.content page)).
      { destruct (decide (generateHash previous
                          = generateHash (Page.content page)));
          [assumption|contradiction]. }
      rewrite (crawl_feed_unchanged _ _ _ _ _ _ _ Hf Hs Heq) in Hrun.
      injection Hrun as <- <- <-. now split.
  - assert (Hw : snapshot_write_error ev = None).
    { eapply crawl_feed_ok_written; [exact Hrun|exact Hf|now rewrite Hs]. }
    rewrite (crawl_feed_first_seen _ _ _ _ _ _ Hf Hs Hw) in Hrun.
    injection Hrun as <- <- <-. now split.
Qed.

(** A loop that returns, over feeds with distinct snapshot paths that all
    find the snapshot of the state [s0], has put [entries_from] in front
    of the history, and counted its entries. *)
Lemma crawl_feeds_entries w now s0 fs : forall i l s fs' l' s',
  NoDup (snapshot_paths fs) ->
  (forall k, k ∈ snapshot_paths fs ->
             snapshots s !! k = snapshots s0 !! k) ->
  crawl_feeds w now i fs l s = (Ok (fs', l'), s') ->
  updates (historyData l')
  = entries_from w now s0 i fs ++ updates (historyData l)
  /\ updatedCount l' = length (entries_from w now s0 i fs) + updatedCount l.
Proof.
  induction fs as [|feed rest IH]; intros i l s fs' l' s' Hnd Hagree Hrun.
  { injection Hrun as <- <- <-. now split. }
  rewrite crawl_feeds_cons in Hrun.
  destruct (crawl_feed now (events w i) feed l s)
    as [[[feed' l1]|e] s1] eqn:Hstep; [|discriminate].
  destruct (crawl_feeds w now (S i) rest l1 s1)
    as [[[rest' l2]|e] s2] eqn:Hrest; [|discriminate].
  injection Hrun as <- <- <-.
  unfold snapshot_paths in Hnd. rewrite fmap_cons in Hnd.
  apply NoDup_cons in Hnd as [Hnot Hnd].
  destruct (crawl_feed_entry _ _ _ _ _ _ _ _ Hstep) as (Hu1 & Hc1).
  rewrite (entry_for_same now (events w i) s s0) in Hu1, Hc1
    by (apply Hagree; unfold snapshot_paths; rewrite fmap_cons; left).
  destruct (crawl_feed_frame _ _ _ _ _ _ _ Hstep) as (_ & _ & Hfr).
  assert (Hagree1 : forall k, k ∈ snapshot_paths rest ->
                       snapshots s1 !! k = snapshots s0 !! k).
  { intros k Hk. rewrite Hfr.
    - apply Hagree. unfold snapshot_paths. rewrite fmap_cons. now right.
    - intros ->. now apply Hnot. }
  destruct (IH (S i) l1 s1 _ _ _ Hnd Hagree1 Hrest) as (Hu2 & Hc2).
  rewrite entries_from_cons, Hu2, Hu1, Hc2, Hc1, length_app, <- app_assoc.
  split; [reflexivity|lia].
Qed.

(** The entries [entries_from] has for an id no feed has. *)
Lemma updates_of_entries_none w now s k fs : forall i,
  k ∉ Feed.id <$> fs -> updates_of k (entries_from w now s i fs) = [].
Proof.
  induction fs as [|f rest IH]; intros i Hk; [reflexivity|].
  rewrite fmap_cons in Hk. apply not_elem_of_cons in Hk as [Hne Hk].
  rewrite entries_from_cons, updates_of_app, IH by exact Hk. simpl.
  destruct (entry_for now (events w i) s f) as [u|] eqn:Hu; [|reflexivity].
  unfold updates_of. simpl.
  rewrite bool_decide_eq_false_2; [reflexivity|].
  rewrite (entry_for_feedId _ _ _ _ _ Hu). congruence.
Qed.

(** The entries [entries_from] has for the id of a feed, the ids being
    distinct: the entry of this feed, if it has one. *)
Lemma updates_of_entries w now s fs : forall i j f,
  NoDup (Feed.id <$> fs) ->
  fs !! j = Some f ->
  updates_of (Feed.id f) (entries_from w now s i fs)
  = entry_list (entry_for now (events w (i + j)) s f).
Proof.
  induction fs as [|g rest IH]; intros i j f Hnd Hj; [discriminate|].
  rewrite fmap_cons in Hnd. apply NoDup_cons in Hnd as [Hnot Hnd].
  rewrite entries_from_cons, updates_of_app.
  destruct j as [|j]; simpl in Hj.
  - injection Hj as ->. rewrite Nat.add_0_r.
    rewrite updates_of_entries_none by exact Hnot. simpl.
    destruct (entry_for now (events w i) s f) as [u|] eqn:Hu;
      [|reflexivity].
    apply updates_of_one. eapply entry_for_feedId, Hu.
  - rewrite (IH (S i) j f Hnd Hj).
    replace (S i + j) with (i + S j) by lia.
    assert (Hne : Feed.id g <> Feed.id f).
    { intros Heq. apply Hnot. rewrite Heq. apply list_elem_of_fmap_2.
      eapply list_elem_of_lookup_2, Hj. }
    assert (Hnone : updates_of (Feed.id f)
                      (entry_list (entry_for now (events w i) s g)) = []).
    { destruct (entry_for now (events w i) s g) as [u|] eqn:Hu;
        [|reflexivity].
      unfold updates_of. simpl.
      rewrite bool_decide_eq_false_2; [reflexivity|].
      now rewrite (entry_for_feedId _ _ _ _ _ Hu). }
    rewrite Hnone. apply app_nil_r.
Qed.

(** A pass that returns, the snapshot paths of the registry being
    distinct, has run the loop, which has put [entries_of_pass] in front
    of the history, and has written the first [HISTORY_CAP] entries of
    that. *)
Lemma crawl_entries w s s' fd hd :
  crawl w s = (Ok tt, s') ->
  feeds_file s = Some fd ->
  history_file s = Some hd ->
  NoDup (snapshot_paths (feeds fd)) ->
  exists fs' l' s1,
    crawl_feeds w (run_timestamp w) 0 (feeds fd)
      {| historyData := hd; updatedCount := 0 |} (logged [start_line w] s)
    = (Ok (fs', l'), s1)
    /\ updates (historyData l') = entries_of_pass w s (feeds fd) ++ updates hd
    /\ updatedCount l' = length (entries_of_pass w s (feeds fd))
    /\ history_file s'
       = Some {| updates := take HISTORY_CAP
                              (entries_of_pass w s (feeds fd) ++ updates hd) |}.
Proof.
  intros Hrun Hfd Hhd Hnd.
  destruct (crawl_ok _ _ _ Hrun)
    as (fd0 & hd0 & fs' & l' & s1 & Hfd0 & Hhd0 & Hloop & Hfd' & Hhd' & Hsn).
  rewrite Hfd in Hfd0. rewrite Hhd in Hhd0.
  injection Hfd0 as <-. injection Hhd0 as <-.
  destruct (crawl_feeds_entries w (run_timestamp w) s (feeds fd) 0 _
              (logged [start_line w] s) _ _ _
              Hnd (fun k _ => eq_refl) Hloop) as (Hu & Hc).
  cbn [historyData updatedCount] in Hu, Hc.
  exists fs', l', s1. unfold entries_of_pass.
  split_and!; [exact Hloop|exact Hu|lia|].
  now rewrite Hhd', Hu.
Qed.

Section Pass.

Variables (w : World) (s s' : Sys) (fd : FeedsData) (hd : HistoryData).
Variables (i : nat) (f : Feed.t).

Hypothesis Hfeeds : feeds_file s = Some fd.
Hypothesis Hhistory : history_file s = Some hd.
Hypothesis Hpaths : NoDup (snapshot_paths (feeds fd)).
Hypothesis Hfeed : feeds fd !! i = Some f.
Hypothesis Hrun : crawl w s = (Ok tt, s').

Let now := run_timestamp w.
Let ev := events w i.
Let new := entries_of_pass w s (feeds fd).

(** The entries of the pass for the feed at hand. *)
Lemma pass_entries_of_feed :
  updates_of (Feed.id f) new = entry_list (entry_for now ev s f).
Proof using Hpaths Hfeed.
  subst new. unfold entries_of_pass.
  rewrite (updates_of_entries w _ s (feeds fd) 0 i f);
    [reflexivity|now apply snapshot_paths_ids|exact Hfeed].
Qed.

(** The history the loop has returned, and the one the pass has
    written. *)
Lemma pass_history :
  loop_history w s fd hd = Some (new ++ updates hd)
  /\ history_file s'
     = Some {| updates := take HISTORY_CAP (new ++ updates hd) |}.
Proof using Hfeeds Hhistory Hpaths Hrun.
  destruct (crawl_entries _ _ _ _ _ Hrun Hfeeds Hhistory Hpaths)
    as (fs' & l' & s1 & Hloop & Hu & _ & Hh).
  split; [|exact Hh].
  unfold loop_history. now rewrite Hloop, Hu.
Qed.

(** The pass for a feed whose fetch failed. *)
Lemma pass_skipped :
  fetch_result ev f = None ->
  exists fd' hd',
    feeds_file s' = Some fd' /\ history_file s' = Some hd'
    /\ updates hd' = take HISTORY_CAP (new ++ updates hd)
    /\ updates_of (Feed.id f) new = []
    /\ snapshots s' !! snapshotPath (Feed.id f)
       = snapshots s !! snapshotPath (Feed.id f)
    /\ feeds fd' !! i = Some f.
Proof using All.
  intros Hf.
  destruct (crawl_at _ _ _ _ _ _ _ Hrun Hfeeds Hhistory Hpaths Hfeed)
    as (la & sa & f' & lb & sb & fd' & Hstep & Hsa & Hsb & Hfd' & Hi').
  destruct (crawl_feed_skipped _ _ Hf) as [message Hm].
  fold now ev in Hstep. rewrite Hm in Hstep.
  injection Hstep as <- <- <-.
  exists fd'. eexists. split_and!; [exact Hfd'|exact (proj2 pass_history)|..].
  - reflexivity.
  - rewrite pass_entries_of_feed. unfold entry_for. now rewrite Hf.
  - now rewrite Hsb, <- Hsa.
  - exact Hi'.
Qed.

(** The pass for a feed that had no snapshot. *)
Lemma pass_first_seen page :
  fetch_result ev f = Some page ->
  stored_snapshot ev s (Feed.id f) = None ->
  exists fd' hd',
    feeds_file s' = Some fd' /\ history_file s' = Some hd'
    /\ updates hd' = take HISTORY_CAP (new ++ updates hd)
    /\ updates_of (Feed.id f) new = []
    /\ snapshots s' !! snapshotPath (Feed.id f) = Some (Page.content page)
    /\ feeds fd' !! i = Some (update_metadata now page f).
Proof using All.
  intros Hf Hs.
  destruct (crawl_at _ _ _ _ _ _ _ Hrun Hfeeds Hhistory Hpaths Hfeed)
    as (la & sa & f' & lb & sb & fd' & Hstep & Hsa & Hsb & Hfd' & Hi').
  fold now ev in Hstep.
  assert (Hs' : stored_snapshot ev sa (Feed.id f) = None)
    by now rewrite (stored_snapshot_same _ _ _ _ Hsa).
  assert (Hw : snapshot_write_error ev = None).
  { eapply crawl_feed_ok_written; [exact Hstep|exact Hf|now rewrite Hs']. }
  rewrite (crawl_feed_first_seen _ _ _ _ _ _ Hf Hs' Hw) in Hstep.
  injection Hstep as <- <- <-.
  exists fd'. eexists. split_and!; [exact Hfd'|exact (proj2 pass_history)|..].
  - reflexivity.
  - rewrite pass_entries_of_feed. unfold entry_for. now rewrite Hf, Hs.
  - rewrite Hsb. simpl. apply lookup_insert_eq.
  - exact Hi'.
Qed.

(** The pass for a feed whose text hashes as its snapshot does. *)
Lemma pass_unchanged page previous :
  fetch_result ev f = Some page ->
  stored_snapshot ev s (Feed.id f) = Some previous ->
  generateHash previous = generateHash (Page.content page) ->
  exists fd' hd',
    feeds_file s' = Some fd' /\ history_file s' = Some hd'
    /\ updates hd' = take HISTORY_CAP (new ++ updates hd)
    /\ updates_of (Feed.id f) new = []
    /\ snapshots s' !! snapshotPath (Feed.id f)
       = snapshots s !! snapshotPath (Feed.id f)
    /\ feeds fd' !! i = Some (update_metadata now page f).
Proof using All.
  intros Hf Hs Hh.
  destruct (crawl_at _ _ _ _ _ _ _ Hrun Hfeeds Hhistory Hpaths Hfeed)
    as (la & sa & f' & lb & sb & fd' & Hstep & Hsa & Hsb & Hfd' & Hi').
  fold now ev in Hstep.
  assert (Hs' : stored_snapshot ev sa (Feed.id f) = Some previous)
    by now rewrite (stored_snapshot_same _ _ _ _ Hsa).
  rewrite (crawl_feed_unchanged _ _ _ _ _ _ _ Hf Hs' Hh) in Hstep.
  injection Hstep as <- <- <-.
  exists fd'. eexists. split_and!; [exact Hfd'|exact (proj2 pass_history)|..].
  - reflexivity.
  - rewrite pass_entries_of_feed. unfold entry_for. rewrite Hf, Hs.
    rewrite decide_False; [reflexivity|]. intros Hne. exact (Hne Hh).
  - now rewrite Hsb, <- Hsa.
  - exact Hi'.
Qed.

(** The pass for a feed whose text hashes differently from its
    snapshot. *)
Lemma pass_changed page previous :
  fetch_result ev f = Some page ->
  stored_snapshot ev s (Feed.id f) = Some previous ->
  generateHash previous <> generateHash (Page.content page) ->
  exists fd' hd',
    feeds_file s' = Some fd' /\ history_file s' = Some hd'
    /\ updates hd' = take HISTORY_CAP (new ++ updates hd)
    /\ updates_of (Feed.id f) new
       = [new_update now ev (update_metadata now page f)
            (calculateDiff previous (Page.content page))]
    /\ snapshots s' !! snapshotPath (Feed.id f) = Some (Page.content page)
    /\ feeds fd' !! i
       = Some (Feed.set_lastUpdated now (update_metadata now page f)).
Proof using All.
  intros Hf Hs Hh.
  destruct (crawl_at _ _ _ _ _ _ _ Hrun Hfeeds Hhistory Hpaths Hfeed)
    as (la & sa & f' & lb & sb & fd' & Hstep & Hsa & Hsb & Hfd' & Hi').
  fold now ev in Hstep.
  assert (Hs' : stored_snapshot ev sa (Feed.id f) = Some previous)
    by now rewrite (stored_snapshot_same _ _ _ _ Hsa).
  assert (Hw : snapshot_write_error ev = None).
  { eapply crawl_feed_ok_written; [exact Hstep|exact Hf|now rewrite Hs']. }
  rewrite (crawl_feed_changed _ _ _ _ _ _ _ Hf Hs' Hh Hw) in Hstep.
  injection Hstep as <- <- <-.
  exists fd'. eexists. split_and!; [exact Hfd'|exact (proj2 pass_history)|..].
  - reflexivity.
  - rewrite pass_entries_of_feed. unfold entry_for. rewrite Hf, Hs.
    now rewrite decide_True by exact Hh.
  - rewrite Hsb. simpl. apply lookup_insert_eq.
  - exact Hi'.
Qed.

End Pass.

(** The loop over [l1 ++ l2], as an equation: the loop over [l1], then
    the loop over [l2]; a throw ends it. *)
Lemma crawl_feeds_app w now l1 l2 : forall i l s,
  crawl_feeds w now i (l1 ++ l2) l s
  = match crawl_feeds w now i l1 l s with
    | (Ok (l1', la), sa) =>
        match crawl_feeds w now (i + length l1) l2 la sa with
        | (Ok (l2', lb), sb) => (Ok (l1' ++ l2', lb), sb)
        | (Throw e, sb) => (Throw e, sb)
        end
    | (Throw e, sa) => (Throw e, sa)
    end.
Proof.
  induction l1 as [|g l1 IH]; intros i l s.
  - simpl. unfold ret. rewrite Nat.add_0_r.
    destruct (crawl_feeds w now i l2 l s) as [[[l2' lb]|e] sb]; reflexivity.
  - simpl app. rewrite !crawl_feeds_cons.
    destruct (crawl_feed now (events w i) g l s) as [[[g' lg]|e] sg];
      [|reflexivity].
    rewrite IH. simpl length.
    replace (i + S (length l1)) with (S i + length l1) by lia.
    destruct (crawl_feeds w now (S i) l1 lg sg) as [[[l1' la]|e] sa];
      [|reflexivity].
    destruct (crawl_feeds w now (S i + length l1) l2 la sa)
      as [[[l2' lb]|e] sb]; reflexivity.
Qed.

(** A failure in the network makes [fetchContent] log its message and
    return [null]. *)
Lemma fetchContent_network_failure net url selector message s :
  network_failure net = Some message ->
  fetchContent net url selector s
  = (Ok None, logged [fetch_error_line url message] s).
Proof.
  destruct net as [m|response]; simpl.
  - intros Hm. injection Hm as <-. apply fetchContent_rejected.
  - destruct (ok response) eqn:Hok; simpl.
    + destruct (text response) as [html|m] eqn:Htext; [discriminate|].
      intros Hm. injection Hm as <-.
      unfold fetchContent, try_catch, bind, ret, settle, throw. simpl.
      rewrite Hok. simpl. rewrite Htext. reflexivity.
    + intros Hm. injection Hm as <-. now apply fetchContent_not_ok.
Qed.

Lemma network_failure_fetch_failed ev feed message :
  network_failure (fetched ev) = Some message -> fetch_failed ev feed.
Proof.
  intros Hm. unfold fetch_failed, fetch_result.
  now rewrite (fetchContent_network_failure _ _ _ _ _ Hm).
Qed.

(** A fetch that failed makes the body skip the feed; the message it logs
    is the one of the network when the failure is one of the network. *)
Lemma crawl_feed_fetch_failed ev feed :
  fetch_failed ev feed ->
  exists message,
    (forall m, network_failure (fetched ev) = Some m -> message = m)
    /\ forall now l s,
         crawl_feed now ev feed l s
         = (Ok (feed, l), logged (skipped_lines feed message) s).
Proof.
  intros Hfail.
  destruct (network_failure (fetched ev)) as [m|] eqn:Hnet.
  - exists m. split; [intros m' Hm'; now injection Hm' as <-|].
    intros now l s. unfold crawl_feed.
    rewrite (bind_ok _ _ _ tt (logged [visiting_line feed] s)) by reflexivity.
    rewrite (bind_ok _ _ _ _ _ (fetchContent_network_failure _ _ _ _ _ Hnet)).
    rewrite (bind_ok _ _ _ tt (logged [skip_line] _)) by reflexivity.
    unfold ret. rewrite !logged_logged. reflexivity.
  - destruct (crawl_feed_skipped _ _ Hfail) as [message Hm].
    exists message. split; [intros m Hm'; discriminate|exact Hm].
Qed.

(** A loop that throws makes the pass throw, before anything is written. *)
Lemma crawl_throws w s fd hd e s1 :
  feeds_file s = Some fd ->
  history_file s = Some hd ->
  crawl_feeds w (run_timestamp w) 0 (feeds fd)
    {| historyData := hd; updatedCount := 0 |} (logged [start_line w] s)
  = (Throw e, s1) ->
  crawl w s = (Throw e, s1).
Proof.
  intros Hfd Hhd Hloop. unfold crawl.
  rewrite (bind_ok _ _ _ tt (logged [start_line w] s)) by reflexivity.
  rewrite (bind_ok _ _ _ fd (logged [start_line w] s))
    by (unfold read_feeds; simpl; now rewrite Hfd).
  rewrite (bind_ok _ _ _ hd (logged [start_line w] s))
    by (unfold read_history; simpl; now rewrite Hhd).
  apply bind_throw. exact Hloop.
Qed.

Lemma feeds_with_id_unique k (fs : list Feed.t) :
  NoDup (Feed.id <$> fs) -> length (feeds_with_id k fs) <= 1.
Proof.
  induction fs as [|f fs IH]; [simpl; lia|]. rewrite fmap_cons.
  intros Hnd. apply NoDup_cons in Hnd as [Hnot Hnd].
  unfold feeds_with_id in *. simpl. case_bool_decide as Hk; simpl.
  - subst k. fold (feeds_with_id (Feed.id f) fs).
    rewrite feeds_with_id_none by exact Hnot. simpl. lia.
  - now apply IH.
Qed.

(** *** The entry of a changed feed *)

Lemma units_le_2 b : Utf16.units b <= 2.
Proof. unfold Utf16.units. repeat case_match; lia. Qed.

(** The first unit of a surrogate pair is one unit. *)
Lemma high_surrogate_length b0 b1 b2 :
  Utf16.length (Utf16.high_surrogate b0 b1 b2) = 1.
Proof.
  unfold Utf16.high_surrogate. cbv zeta.
  set (top := _ - 64).
  assert (Hx : (top / 64) mod 16 < 16) by (apply Nat.mod_upper_bound; lia).
  assert (Hy : top mod 64 < 64) by (apply Nat.mod_upper_bound; lia).
  cbn [Utf16.length]. unfold Utf16.units.
  rewrite !nat_ascii_embedding by lia.
  replace (237 <? 128)%nat with false by reflexivity.
  replace (237 <? 192)%nat with false by reflexivity.
  replace (237 <? 240)%nat with true by reflexivity.
  replace (160 + (top / 64) mod 16 <? 128)%nat with false
    by (symmetry; apply Nat.ltb_ge; lia).
  replace (160 + (top / 64) mod 16 <? 192)%nat with true
    by (symmetry; apply Nat.ltb_lt; lia).
  replace (128 + top mod 64 <? 128)%nat with false
    by (symmetry; apply Nat.ltb_ge; lia).
  replace (128 + top mod 64 <? 192)%nat with true
    by (symmetry; apply Nat.ltb_lt; lia).
  reflexivity.
Qed.

(** [str.substring(0, n)] has at most [n] units. *)
Lemma prefix_length_le s : forall n,
  Utf16.length (Utf16.prefix n s) <= n.
Proof.
  induction s as [|b rest IH]; intros n; [simpl; lia|].
  pose proof (units_le_2 b) as Hle.
  cbn [Utf16.prefix].
  destruct (Utf16.units b) as [|[|u]] eqn:Hu.
  - cbn [Utf16.length]. rewrite Hu. specialize (IH n). lia.
  - destruct n as [|n]; cbn [Utf16.length]; [lia|].
    rewrite Hu. specialize (IH n). lia.
  - destruct n as [|[|n]]; [cbn [Utf16.length]; lia| |].
    + destruct rest as [|b1 [|b2 rest']]; try (cbn [Utf16.length]; lia).
      now rewrite high_surrogate_length.
    + cbn [Utf16.length]. rewrite Hu. specialize (IH n). lia.
Qed.

(** A string of at most [n] units is its own [substring(0, n)]. *)
Lemma prefix_whole s : forall n,
  Utf16.length s <= n -> Utf16.prefix n s = s.
Proof.
  induction s as [|b rest IH]; intros n Hn; [reflexivity|].
  cbn [Utf16.length] in Hn. cbn [Utf16.prefix].
  pose proof (units_le_2 b) as Hle.
  destruct (Utf16.units b) as [|[|u]] eqn:Hu.
  - now rewrite IH by lia.
  - destruct n as [|n]; [lia|]. now rewrite IH by lia.
  - destruct n as [|[|n]]; [lia|lia|]. now rewrite IH by lia.
Qed.

Lemma filter_added_edits parts :
  List.filter Change.added (List.filter is_edit parts)
  = List.filter Change.added parts.
Proof.
  induction parts as [|p parts IH]; [reflexivity|]. simpl.
  destruct (is_edit p) eqn:He; simpl;
    destruct (Change.added p) eqn:Ha; rewrite ?IH; try reflexivity.
  unfold is_edit in He. rewrite Ha in He. discriminate.
Qed.

Lemma filter_removed_edits parts :
  List.filter Change.removed (List.filter is_edit parts)
  = List.filter Change.removed parts.
Proof.
  induction parts as [|p parts IH]; [reflexivity|]. simpl.
  destruct (is_edit p) eqn:He; simpl;
    destruct (Change.removed p) eqn:Hr; rewrite ?IH; try reflexivity.
  unfold is_edit in He. rewrite Hr, orb_true_r in He. discriminate.
Qed.

(** The [diff] of the entry has, in the order of the line diff, one
    segment for every part that is added or removed; no segment has more
    than 500 units, and a part of at most 500 units is kept whole; the
    summary counts the added and the removed parts of the line diff. *)
Lemma new_update_diff now ev feed previous current :
  let parts := diffLines previous current in
  let u := new_update now ev feed (calculateDiff previous current) in
  Forall2 records (Update.diff u) (List.filter is_edit parts)
  /\ Forall (fun seg => Utf16.length (Segment.content seg) <= 500)
            (Update.diff u)
  /\ Forall2 (fun seg part =>
                Utf16.length (Change.value part) <= 500 ->
                Segment.content seg = Change.value part)
             (Update.diff u) (List.filter is_edit parts)
  /\ Update.diffSummary u
     = "+" +:+ pretty (length (List.filter Change.added parts)) +:+ "件 / -"
       +:+ pretty (length (List.filter Change.removed parts)) +:+ "件".
Proof.
  intros parts u. subst u. unfold new_update, calculateDiff. cbv zeta.
  cbn [Update.diff Update.diffSummary]. fold parts. split_and!.
  - induction (List.filter is_edit parts) as [|p ps IH]; simpl;
      constructor; [split; reflexivity|exact IH].
  - induction (List.filter is_edit parts) as [|p ps IH]; simpl;
      constructor; [apply prefix_length_le|exact IH].
  - induction (List.filter is_edit parts) as [|p ps IH]; simpl;
      constructor; [apply prefix_whole|exact IH].
  - unfold diff_summary.
    now rewrite filter_added_edits, filter_removed_edits.
Qed.

(** *** The claims *)

(** C1.  A feed whose fetched text hashes differently from its stored
    snapshot, in a registry whose feeds have distinct snapshot files: the
    pass makes exactly one history entry for it, the snapshot becomes the
    new text, and [lastUpdated] becomes the timestamp of the run.  The
    entries of the pass are [entries_of_pass]: the loop returns them in
    front of the old history, and what is written is the first
    [HISTORY_CAP] entries of that. *)
Theorem changed_source_recorded w s s' fd hd i f page previous :
  feeds_file s = Some fd ->
  history_file s = Some hd ->
  NoDup (snapshot_paths (feeds fd)) ->
  feeds fd !! i = Some f ->
  crawl w s = (Ok tt, s') ->
  fetch_result (events w i) f = Some page ->
  stored_snapshot (events w i) s (Feed.id f) = Some previous ->
  generateHash previous <> generateHash (Page.content page) ->
  let new := entries_of_pass w s (feeds fd) in
  exists fd' hd' f' u,
    feeds_file s' = Some fd' /\ history_file s' = Some hd'
    /\ loop_history w s fd hd = Some (new ++ updates hd)
    /\ updates hd' = take HISTORY_CAP (new ++ updates hd)
    /\ updates_of (Feed.id f) new = [u]
    /\ Update.feedId u = Feed.id f
    /\ Update.detectedAt u = run_timestamp w
    /\ snapshots s' !! snapshotPath (Feed.id f) = Some (Page.content page)
    /\ feeds fd' !! i = Some f'
    /\ Feed.lastUpdated f' = Some (run_timestamp w).
Proof.
  intros Hfd Hhd Hids Hi Hrun Hf Hs Hh new.
  destruct (pass_changed w s s' fd hd i f Hfd Hhd Hids Hi Hrun
              page previous Hf Hs Hh)
    as (fd' & hd' & Hfd' & Hhd' & Hupd & Hof & Hsnap & Hi').
  destruct (pass_history w s s' fd hd Hfd Hhd Hids Hrun) as [Hloop _].
  exists fd', hd'. do 2 eexists.
  split_and!; [exact Hfd'|exact Hhd'|exact Hloop|exact Hupd|exact Hof
              |simpl; apply update_metadata_id|reflexivity
              |exact Hsnap|exact Hi'|reflexivity].
Qed.

(** C3.  A feed without a snapshot whose fetch succeeds, in a registry
    whose feeds have distinct snapshot files: the fetched text becomes its
    snapshot, the pass makes no history entry for it, and [lastUpdated]
    stays as it was. *)
Theorem first_seen_snapshot_only w s s' fd hd i f page :
  feeds_file s = Some fd ->
  history_file s = Some hd ->
  NoDup (snapshot_paths (feeds fd)) ->
  feeds fd !! i = Some f ->
  crawl w s = (Ok tt, s') ->
  fetch_result (events w i) f = Some page ->
  stored_snapshot (events w i) s (Feed.id f) = None ->
  let new := entries_of_pass w s (feeds fd) in
  exists fd' hd' f',
    feeds_file s' = Some fd' /\ history_file s' = Some hd'
    /\ loop_history w s fd hd = Some (new ++ updates hd)
    /\ updates hd' = take HISTORY_CAP (new ++ updates hd)
    /\ updates_of (Feed.id f) new = []
    /\ snapshots s' !! snapshotPath (Feed.id f) = Some (Page.content page)
    /\ feeds fd' !! i = Some f'
    /\ Feed.lastUpdated f' = Feed.lastUpdated f.
Proof.
  intros Hfd Hhd Hids Hi Hrun Hf Hs new.
  destruct (pass_first_seen w s s' fd hd i f Hfd Hhd Hids Hi Hrun page Hf Hs)
    as (fd' & hd' & Hfd' & Hhd' & Hupd & Hof & Hsnap & Hi').
  destruct (pass_history w s s' fd hd Hfd Hhd Hids Hrun) as [Hloop _].
  exists fd', hd'. eexists.
  split_and!; [exact Hfd'|exact Hhd'|exact Hloop|exact Hupd|exact Hof
              |exact Hsnap|exact Hi'|].
  unfold update_metadata. case_decide; reflexivity.
Qed.

(** C4.  A feed whose fetched text hashes as its stored snapshot does, in
    a registry whose feeds have distinct snapshot files: the pass makes no
    history entry for it, [lastUpdated] and the snapshot stay as they
    were, and [lastChecked] becomes the timestamp of the run. *)
Theorem unchanged_source_only_checked w s s' fd hd i f page previous :
  feeds_file s = Some fd ->
  history_file s = Some hd ->
  NoDup (snapshot_paths (feeds fd)) ->
  feeds fd !! i = Some f ->
  crawl w s = (Ok tt, s') ->
  fetch_result (events w i) f = Some page ->
  stored_snapshot (events w i) s (Feed.id f) = Some previous ->
  generateHash previous = generateHash (Page.content page) ->
  let new := entries_of_pass w s (feeds fd) in
  exists fd' hd' f',
    feeds_file s' = Some fd' /\ history_file s' = Some hd'
    /\ loop_history w s fd hd = Some (new ++ updates hd)
    /\ updates hd' = take HISTORY_CAP (new ++ updates hd)
    /\ updates_of (Feed.id f) new = []
    /\ snapshots s' !! snapshotPath (Feed.id f)
       = snapshots s !! snapshotPath (Feed.id f)
    /\ feeds fd' !! i = Some f'
    /\ Feed.lastUpdated f' = Feed.lastUpdated f
    /\ Feed.lastChecked f' = Some (run_timestamp w).
Proof.
  intros Hfd Hhd Hids Hi Hrun Hf Hs Hh new.
  destruct (pass_unchanged w s s' fd hd i f Hfd Hhd Hids Hi Hrun
              page previous Hf Hs Hh)
    as (fd' & hd' & Hfd' & Hhd' & Hupd & Hof & Hsnap & Hi').
  destruct (pass_history w s s' fd hd Hfd Hhd Hids Hrun) as [Hloop _].
  exists fd', hd'. eexists.
  split_and!; [exact Hfd'|exact Hhd'|exact Hloop|exact Hupd|exact Hof
              |exact Hsnap|exact Hi'|..];
    unfold update_metadata, Feed.set_lastChecked; simpl;
    case_decide; reflexivity.
Qed.

(** C5, as the script has it.  In the unchanged case, in a registry whose
    feeds have distinct snapshot files, the pass updates [lastChecked]
    and, when the title of the fetched page is not empty and is not the
    URL of the feed, [title]; no other field of the feed changes, the pass
    makes no history entry for the feed, and the snapshot stays as it
    was. *)
Theorem unchanged_source_metadata_only w s s' fd hd i f page previous :
  feeds_file s = Some fd ->
  history_file s = Some hd ->
  NoDup (snapshot_paths (feeds fd)) ->
  feeds fd !! i = Some f ->
  crawl w s = (Ok tt, s') ->
  fetch_result (events w i) f = Some page ->
  stored_snapshot (events w i) s (Feed.id f) = Some previous ->
  generateHash previous = generateHash (Page.content page) ->
  let new := entries_of_pass w s (feeds fd) in
  exists fd' hd' f',
    feeds_file s' = Some fd' /\ history_file s' = Some hd'
    /\ loop_history w s fd hd = Some (new ++ updates hd)
    /\ updates hd' = take HISTORY_CAP (new ++ updates hd)
    /\ updates_of (Feed.id f) new = []
    /\ snapshots s' !! snapshotPath (Feed.id f)
       = snapshots s !! snapshotPath (Feed.id f)
    /\ feeds fd' !! i = Some f'
    /\ Feed.lastChecked f' = Some (run_timestamp w)
    /\ Feed.title f'
       = (if decide (Page.title page <> "" /\ Page.title page <> Feed.url f)
          then Page.title page else Feed.title f)
    /\ Feed.id f' = Feed.id f /\ Feed.url f' = Feed.url f
    /\ Feed.tags f' = Feed.tags f /\ Feed.selector f' = Feed.selector f
    /\ Feed.addedAt f' = Feed.addedAt f
    /\ Feed.lastUpdated f' = Feed.lastUpdated f.
Proof.
  intros Hfd Hhd Hids Hi Hrun Hf Hs Hh new.
  destruct (pass_unchanged w s s' fd hd i f Hfd Hhd Hids Hi Hrun
              page previous Hf Hs Hh)
    as (fd' & hd' & Hfd' & Hhd' & Hupd & Hof & Hsnap & Hi').
  destruct (pass_history w s s' fd hd Hfd Hhd Hids Hrun) as [Hloop _].
  exists fd', hd'. eexists.
  split_and!; [exact Hfd'|exact Hhd'|exact Hloop|exact Hupd|exact Hof
              |exact Hsnap|exact Hi'|..];
    unfold update_metadata, Feed.set_lastChecked; simpl;
    case_decide; reflexivity.
Qed.

(** C6.  A feed whose fetch fails is logged and skipped.  The fetch fails
    when [fetchContent] returns [null]; every failure of the network does
    that (a rejected request, that is a network error or the timeout, a
    status that is not a success, a body that cannot be read), and the
    message logged is then the one of the network.  In the loop, the
    iteration of the feed only adds three lines to the console: the feed,
    the locals and the snapshots go on as they are, and the feeds after it
    are visited as after any other feed.  In a pass that returns, over a
    registry whose feeds have distinct snapshot files, the feed is written
    back as it was, its snapshot is the one the pass found, and no history
    entry is made for it. *)
Theorem failed_fetch_skipped w l1 f l2 :
  fetch_failed (events w (length l1)) f ->
  exists message,
    (forall m, network_failure (fetched (events w (length l1))) = Some m ->
               message = m)
    /\ (forall now l s,
          crawl_feeds w now 0 (l1 ++ f :: l2) l s
          = match crawl_feeds w now 0 l1 l s with
            | (Ok (l1', la), sa) =>
                match crawl_feeds w now (S (length l1)) l2 la
                        (logged (skipped_lines f message) sa) with
                | (Ok (l2', lb), sb) => (Ok (l1' ++ f :: l2', lb), sb)
                | (Throw e, sb) => (Throw e, sb)
                end
            | (Throw e, sa) => (Throw e, sa)
            end)
    /\ (forall s s' fd hd,
          feeds_file s = Some fd ->
          history_file s = Some hd ->
          feeds fd = l1 ++ f :: l2 ->
          NoDup (snapshot_paths (feeds fd)) ->
          crawl w s = (Ok tt, s') ->
          let new := entries_of_pass w s (feeds fd) in
          exists fd' hd',
            feeds_file s' = Some fd' /\ history_file s' = Some hd'
            /\ loop_history w s fd hd = Some (new ++ updates hd)
            /\ updates hd' = take HISTORY_CAP (new ++ updates hd)
            /\ updates_of (Feed.id f) new = []
            /\ snapshots s' !! snapshotPath (Feed.id f)
               = snapshots s !! snapshotPath (Feed.id f)
            /\ feeds fd' !! length l1 = Some f)
    /\ (forall ev g m,
          network_failure (fetched ev) = Some m -> fetch_failed ev g).
Proof.
  intros Hfail.
  destruct (crawl_feed_fetch_failed _ f Hfail) as (message & Hnet & Hskip).
  exists message. split_and!.
  - exact Hnet.
  - intros now l s. rewrite crawl_feeds_app.
    destruct (crawl_feeds w now 0 l1 l s) as [[[l1' la]|e] sa]; [|reflexivity].
    rewrite crawl_feeds_cons. change (0 + length l1) with (length l1).
    rewrite Hskip.
    destruct (crawl_feeds w now (S (length l1)) l2 la _)
      as [[[l2' lb]|e] sb]; reflexivity.
  - intros s s' fd hd Hfd Hhd Hsplit Hids Hrun new.
    assert (Hi : feeds fd !! length l1 = Some f).
    { rewrite Hsplit. apply list_lookup_middle. reflexivity. }
    destruct (pass_skipped w s s' fd hd (length l1) f Hfd Hhd Hids Hi Hrun
                Hfail)
      as (fd' & hd' & Hfd' & Hhd' & Hupd & Hof & Hsnap & Hi').
    destruct (pass_history w s s' fd hd Hfd Hhd Hids Hrun) as [Hloop _].
    exists fd', hd'. split_and!; assumption.
  - intros ev g m. apply network_failure_fetch_failed.
Qed.

(** C7, as the script has it.  A snapshot that cannot be read is treated
    as a missing one: the body stores the fetched text, makes no history
    entry, and returns, so that the loop goes on.  A snapshot that cannot
    be written makes the pass throw: neither JSON document is written, the
    feeds after this one keep the snapshots they had (the snapshot files
    of the registry being distinct), and [main] logs the error. *)
Theorem snapshot_read_recovers_write_aborts :
  (forall now ev f page l s,
     fetch_result ev f = Some page ->
     snapshot_unreadable ev = true ->
     snapshot_write_error ev = None ->
     crawl_feed now ev f l s
     = (Ok (update_metadata now page f, l),
        saved (Feed.id f) (Page.content page)
              [visiting_line f; first_seen_line] s))
  /\ (forall w s fd hd i f page message,
        feeds_file s = Some fd ->
        history_file s = Some hd ->
        NoDup (snapshot_paths (feeds fd)) ->
        feeds fd !! i = Some f ->
        fetch_result (events w i) f = Some page ->
        match stored_snapshot (events w i) s (Feed.id f) with
        | None => True
        | Some previous =>
            generateHash previous <> generateHash (Page.content page)
        end ->
        snapshot_write_error (events w i) = Some message ->
        exists e s',
          crawl w s = (Throw e, s')
          /\ main w s = (Ok tt, logged [Error e] s')
          /\ feeds_file s' = feeds_file s
          /\ history_file s' = history_file s
          /\ forall g, g ∈ drop (S i) (feeds fd) ->
                       snapshots s' !! snapshotPath (Feed.id g)
                       = snapshots s !! snapshotPath (Feed.id g)).
Proof.
  split.
  { intros now ev f page l s Hf Hr Hw.
    apply crawl_feed_first_seen; trivial.
    unfold stored_snapshot. now rewrite Hr. }
  intros w s fd hd i f page message Hfd Hhd Hids Hi Hf Hs Hw.
  pose proof (take_drop_middle _ _ _ Hi) as Hsplit.
  pose proof (lookup_lt_Some _ _ _ Hi) as Hlt.
  set (l1 := take i (feeds fd)) in *. set (l2 := drop (S i) (feeds fd)) in *.
  assert (Hl1 : length l1 = i) by (subst l1; rewrite length_take; lia).
  assert (Hrest : forall g, g ∈ f :: l2 ->
                    snapshotPath (Feed.id g) ∉ snapshot_paths l1).
  { intros g Hg Hin. rewrite <- Hsplit in Hids.
    unfold snapshot_paths in Hids. rewrite fmap_app in Hids.
    apply NoDup_app in Hids as (_ & Hnot & _).
    apply (Hnot _ Hin). fold (snapshot_paths (f :: l2)).
    now apply snapshot_path_elem. }
  set (s0 := logged [start_line w] s).
  set (l0 := {| historyData := hd; updatedCount := 0 |}).
  assert (Hloop : exists e s1,
    crawl_feeds w (run_timestamp w) 0 (feeds fd) l0 s0 = (Throw e, s1)
    /\ feeds_file s1 = feeds_file s /\ history_file s1 = history_file s
    /\ forall k, k ∉ snapshot_paths l1 ->
                 snapshots s1 !! k = snapshots s !! k).
  { rewrite <- Hsplit, crawl_feeds_app.
    destruct (crawl_feeds w (run_timestamp w) 0 l1 l0 s0)
      as [[[l1' la]|e] sa] eqn:Ha;
      destruct (crawl_feeds_frame _ _ _ _ _ _ _ _ Ha) as (Hfa & Hha & Hsa).
    - rewrite crawl_feeds_cons. simpl. rewrite Hl1.
      assert (Hs' : match stored_snapshot (events w i) sa (Feed.id f) with
                    | None => True
                    | Some previous =>
                        generateHash previous
                        <> generateHash (Page.content page)
                    end).
      { rewrite (stored_snapshot_same _ sa s); [exact Hs|].
        apply Hsa, Hrest. left. }
      destruct (crawl_feed_write_fails (run_timestamp w) _ f page message
                  la sa Hf Hs' Hw) as [line Hl].
      rewrite Hl. exists message. eexists. split; [reflexivity|].
      simpl. repeat split; trivial.
    - exists e, sa. repeat split; trivial. }
  destruct Hloop as (e & s1 & Hloop & Hf1 & Hh1 & Hs1).
  pose proof (crawl_throws _ _ _ _ _ _ Hfd Hhd Hloop) as Hcrawl.
  exists e, s1. split_and!; trivial.
  - unfold main, try_catch. rewrite Hcrawl. reflexivity.
  - intros g Hg. apply Hs1, Hrest. now right.
Qed.

(** C2.  The history a pass writes is the entries of the pass, newest
    first, followed by the old history, cut to [HISTORY_CAP] entries: it
    has at most 100 entries, the newest entry of the pass is its first, and
    what is cut is cut at the tail.  With an old history of 100 entries and
    one entry made, the history written has 100 entries: the new entry,
    then the old history without its last entry.  The entries of the pass
    are the ones the loop returns in front of the old history; they are
    [entries_of_pass] when the feeds have distinct snapshot files. *)
Theorem history_capped_newest_first w s s' hd :
  history_file s = Some hd ->
  crawl w s = (Ok tt, s') ->
  exists fd new hd',
    feeds_file s = Some fd /\ history_file s' = Some hd'
    /\ loop_history w s fd hd = Some (new ++ updates hd)
    /\ (NoDup (snapshot_paths (feeds fd)) ->
        new = entries_of_pass w s (feeds fd))
    /\ pass_entries w (run_timestamp w) 0 (feeds fd) new
    /\ updates hd' = take HISTORY_CAP (new ++ updates hd)
    /\ length (updates hd') <= 100
    /\ (forall u rest, new = u :: rest ->
          exists kept, updates hd' = u :: kept)
    /\ (forall u, new = [u] -> length (updates hd) = 100 ->
          updates hd' = u :: removelast (updates hd)
          /\ length (updates hd') = 100).
Proof.
  intros Hhd Hrun.
  destruct (crawl_ok _ _ _ Hrun)
    as (fd & hd0 & fs' & l' & s1 & Hfd & Hhd0 & Hloop & Hfd' & Hhd' & Hsn).
  rewrite Hhd in Hhd0. injection Hhd0 as <-.
  destruct (crawl_feeds_ok _ _ _ _ _ _ _ _ _ Hloop)
    as (_ & new & Hnew & _ & Hpass).
  cbn [historyData] in Hnew. rewrite Hnew in Hhd'.
  exists fd, new, {| updates := take HISTORY_CAP (new ++ updates hd) |}.
  cbn [updates].
  split_and!; [exact Hfd|exact Hhd'| | |exact Hpass|reflexivity|..].
  - unfold loop_history. now rewrite Hloop, Hnew.
  - intros Hnd.
    destruct (crawl_entries _ _ _ _ _ Hrun Hfd Hhd Hnd)
      as (fs2 & l2 & s2 & Hloop2 & Hu & _).
    rewrite Hloop in Hloop2. injection Hloop2 as <- <- <-.
    rewrite Hnew in Hu. now apply app_inv_tail in Hu.
  - rewrite length_take. unfold HISTORY_CAP. lia.
  - intros u rest ->. eexists. reflexivity.
  - intros u -> Hlen.
    change (take HISTORY_CAP ([u] ++ updates hd))
      with (u :: take 99 (updates hd)).
    rewrite removelast_firstn_len, Hlen. split; [reflexivity|].
    cbn [length]. rewrite length_take. lia.
Qed.

(** C10.  The entries of one pass all carry the timestamp of the run,
    taken once at line 114.  Every feed gives at most one entry: there are
    no more entries than feeds, no more entries for an id than feeds with
    this id, and at most one when the ids are distinct.  The id of an entry
    is the id of its feed joined with the clock of the iteration that made
    it; when that clock is not the one of line 114, it is not the id joined
    with the time of the run. *)
Theorem entries_share_run_timestamp w s s' fd hd :
  feeds_file s = Some fd ->
  history_file s = Some hd ->
  crawl w s = (Ok tt, s') ->
  exists new hd',
    history_file s' = Some hd'
    /\ updates hd' = take HISTORY_CAP (new ++ updates hd)
    /\ pass_entries w (run_timestamp w) 0 (feeds fd) new
    /\ Forall (fun u =>
         Update.detectedAt u = toISOString (start_ms w)
         /\ exists j g,
              feeds fd !! j = Some g
              /\ Update.feedId u = Feed.id g
              /\ Update.id u
                 = Feed.id g +:+ "-" +:+ pretty (date_now (events w j))
              /\ (date_now (events w j) <> start_ms w ->
                  Update.id u
                  <> Feed.id g +:+ "-" +:+ pretty (start_ms w))) new
    /\ length new <= length (feeds fd)
    /\ (forall k,
          length (updates_of k new) <= length (feeds_with_id k (feeds fd)))
    /\ (NoDup (Feed.id <$> feeds fd) ->
        forall k, length (updates_of k new) <= 1).
Proof.
  intros Hfd Hhd Hrun.
  destruct (crawl_ok _ _ _ Hrun)
    as (fd0 & hd0 & fs' & l' & s1 & Hfd0 & Hhd0 & Hloop & Hfd' & Hhd' & Hsn).
  rewrite Hfd in Hfd0. rewrite Hhd in Hhd0.
  injection Hfd0 as <-. injection Hhd0 as <-.
  destruct (crawl_feeds_ok _ _ _ _ _ _ _ _ _ Hloop)
    as (_ & new & Hnew & _ & Hpass).
  cbn [historyData] in Hnew. rewrite Hnew in Hhd'.
  destruct (pass_entries_count _ _ _ _ _ Hpass) as (Hlen & Hcount).
  exists new, {| updates := take HISTORY_CAP (new ++ updates hd) |}.
  cbn [updates].
  split_and!; [exact Hhd'|reflexivity|exact Hpass| |exact Hlen|exact Hcount|].
  - eapply Forall_impl; [exact (pass_entries_made _ _ _ _ _ Hpass)|].
    intros u (Hd & j & g & Hj & Hfid & Huid & _). split; [exact Hd|].
    exists j, g. simpl in Huid. split_and!; trivial.
    intros Hne Heq. rewrite Huid in Heq.
    apply String.app_inj, String.app_inj in Heq.
    apply Hne. now apply (inj pretty).
  - intros Hids k. etransitivity; [apply Hcount|].
    now apply feeds_with_id_unique.
Qed.

(** *** Further properties of the pass *)

(** The body returns when its write does not fail, whatever the network
    and the read of the snapshot do. *)
Lemma crawl_feed_returns now ev feed l s :
  snapshot_write_error ev = None ->
  exists feed' l' s', crawl_feed now ev feed l s = (Ok (feed', l'), s').
Proof.
  intros Hw.
  destruct (fetch_result ev feed) as [page|] eqn:Hf.
  2:{ destruct (crawl_feed_skipped _ _ Hf) as [message Hm].
      do 3 eexists. apply Hm. }
  destruct (stored_snapshot ev s (Feed.id feed)) as [previous|] eqn:Hs.
  - destruct (decide (generateHash previous
                      = generateHash (Page.content page))) as [Hh|Hh].
    + do 3 eexists. eapply crawl_feed_unchanged; eassumption.
    + do 3 eexists. eapply crawl_feed_changed; eassumption.
  - do 3 eexists. eapply crawl_feed_first_seen; eassumption.
Qed.

Lemma crawl_feeds_returns w now fs : forall i l s,
  snapshot_writes_work w i (length fs) ->
  exists fs' l' s', crawl_feeds w now i fs l s = (Ok (fs', l'), s').
Proof.
  induction fs as [|feed rest IH]; intros i l s Hw.
  { do 3 eexists. reflexivity. }
  rewrite crawl_feeds_cons.
  destruct (crawl_feed_returns now (events w i) feed l s)
    as (feed' & l1 & s1 & Hstep).
  { specialize (Hw 0). rewrite Nat.add_0_r in Hw. apply Hw. simpl. lia. }
  rewrite Hstep.
  destruct (IH (S i) l1 s1) as (rest' & l2 & s2 & Hrest).
  { intros j Hj. replace (S i + j) with (i + S j) by lia.
    apply Hw. simpl. lia. }
  rewrite Hrest. do 3 eexists. reflexivity.
Qed.

(** What the pass does after the loop has returned. *)
Lemma crawl_after_loop w s fd hd fs' l' s1 :
  feeds_file s = Some fd ->
  history_file s = Some hd ->
  crawl_feeds w (run_timestamp w) 0 (feeds fd)
    {| historyData := hd; updatedCount := 0 |} (logged [start_line w] s)
  = (Ok (fs', l'), s1) ->
  crawl w s
  = (write_feeds w {| feeds := fs'; known_tags := known_tags fd |} ;;
     write_history w
       {| updates := take HISTORY_CAP (updates (historyData l')) |} ;;
     console_log ("✅ 巡回完了: " +:+ pretty (updatedCount l')
                  +:+ "件の更新を検出")) s1.
Proof.
  intros Hfd Hhd Hloop. unfold crawl.
  rewrite (bind_ok _ _ _ tt (logged [start_line w] s)) by reflexivity.
  rewrite (bind_ok _ _ _ fd (logged [start_line w] s))
    by (unfold read_feeds; simpl; now rewrite Hfd).
  rewrite (bind_ok _ _ _ hd (logged [start_line w] s))
    by (unfold read_history; simpl; now rewrite Hhd).
  fold (run_timestamp w).
  rewrite (bind_ok _ _ _ _ _ Hloop). reflexivity.
Qed.

(** X1.  When both documents can be read and no write fails, the pass
    returns: a fetch that fails and a snapshot that cannot be read never
    end it. *)
Theorem pass_returns_when_writes_work w s fd hd :
  feeds_file s = Some fd ->
  history_file s = Some hd ->
  snapshot_writes_work w 0 (length (feeds fd)) ->
  feeds_write_error w = None ->
  history_write_error w = None ->
  exists s', crawl w s = (Ok tt, s').
Proof.
  intros Hfd Hhd Hw Hwf Hwh.
  destruct (crawl_feeds_returns w (run_timestamp w) (feeds fd) 0
              {| historyData := hd; updatedCount := 0 |}
              (logged [start_line w] s) Hw) as (fs' & l' & s1 & Hloop).
  rewrite (crawl_after_loop _ _ _ _ _ _ _ Hfd Hhd Hloop).
  unfold bind, write_feeds, write_history, console_log.
  rewrite Hwf, Hwh. eexists. reflexivity.
Qed.

(** A document that cannot be read makes the pass throw after its first
    line. *)
Lemma unreadable_document_ends_pass_aux w s :
  feeds_file s = None \/ history_file s = None ->
  exists e, crawl w s = (Throw e, logged [start_line w] s).
Proof.
  intros Hnone. unfold crawl.
  rewrite (bind_ok _ _ _ tt (logged [start_line w] s)) by reflexivity.
  destruct (feeds_file s) as [fd|] eqn:Hfd.
  - destruct Hnone as [Hnone|Hnone]; [discriminate|].
    rewrite (bind_ok _ _ _ fd (logged [start_line w] s))
      by (unfold read_feeds; simpl; now rewrite Hfd).
    eexists. apply bind_throw. unfold read_history. simpl.
    now rewrite Hnone.
  - eexists. apply bind_throw. unfold read_feeds. simpl. now rewrite Hfd.
Qed.

(** X2.  A document that cannot be read or parsed ends the pass before the
    loop: the pass throws with only its first line on the console and
    nothing else changed, no snapshot written, and [main] adds the error
    to the console. *)
Theorem unreadable_document_ends_pass w s :
  feeds_file s = None \/ history_file s = None ->
  exists e,
    crawl w s = (Throw e, logged [start_line w] s)
    /\ main w s = (Ok tt, logged [start_line w; Error e] s).
Proof.
  intros Hnone.
  destruct (unreadable_document_ends_pass_aux w s Hnone) as [e Hcrawl].
  exists e. split; [exact Hcrawl|].
  unfold main, try_catch. rewrite Hcrawl.
  change (console_error e (logged [start_line w] s))
    with (Ok tt, logged [Error e] (logged [start_line w] s)).
  now rewrite logged_logged.
Qed.

(** X3.  The two writes at the end of a pass.  When [feeds.json] cannot be
    written the pass throws with both documents as they were, although the
    loop has written its snapshots; when [feeds.json] is written and
    [history.json] cannot be, the pass throws with the new registry on the
    disk and the old history. *)
Theorem final_write_failure w s fd hd fs' l' s1 message :
  feeds_file s = Some fd ->
  history_file s = Some hd ->
  crawl_feeds w (run_timestamp w) 0 (feeds fd)
    {| historyData := hd; updatedCount := 0 |} (logged [start_line w] s)
  = (Ok (fs', l'), s1) ->
  (feeds_write_error w = Some message ->
   crawl w s = (Throw message, s1)
   /\ feeds_file s1 = Some fd /\ history_file s1 = Some hd)
  /\ (feeds_write_error w = None ->
      history_write_error w = Some message ->
      exists s',
        crawl w s = (Throw message, s')
        /\ feeds_file s'
           = Some {| feeds := fs'; known_tags := known_tags fd |}
        /\ history_file s' = Some hd
        /\ snapshots s' = snapshots s1).
Proof.
  intros Hfd Hhd Hloop.
  destruct (crawl_feeds_frame _ _ _ _ _ _ _ _ Hloop) as (Hf1 & Hh1 & _).
  simpl in Hf1, Hh1.
  rewrite (crawl_after_loop _ _ _ _ _ _ _ Hfd Hhd Hloop).
  unfold bind, write_feeds, write_history. split.
  - intros Hwf. rewrite Hwf. unfold throw.
    split_and!; [reflexivity|congruence..].
  - intros Hwf Hwh. rewrite Hwf, Hwh. unfold throw.
    eexists. split_and!; [reflexivity|reflexivity| |reflexivity].
    cbn [history_file with_feeds_file]. congruence.
Qed.

(** X4.  The number in the last line of the console is the number of
    entries the loop has put in front of the history, whatever the cut to
    [HISTORY_CAP] entries keeps of them: when the loop makes more than
    [HISTORY_CAP] entries, the pass reports more entries than the history
    it writes has. *)
Theorem reported_count_is_entries_made w s s' hd :
  history_file s = Some hd ->
  crawl w s = (Ok tt, s') ->
  exists fd new hd',
    feeds_file s = Some fd
    /\ loop_history w s fd hd = Some (new ++ updates hd)
    /\ (NoDup (snapshot_paths (feeds fd)) ->
        new = entries_of_pass w s (feeds fd))
    /\ history_file s' = Some hd'
    /\ updates hd' = take HISTORY_CAP (new ++ updates hd)
    /\ last (console s') = Some (done_line (length new))
    /\ (HISTORY_CAP < length new -> length (updates hd') < length new).
Proof.
  intros Hhd Hrun.
  destruct (crawl_ok _ _ _ Hrun)
    as (fd & hd0 & fs' & l' & s1 & Hfd & Hhd0 & Hloop & Hfd' & Hhd' & Hsn).
  rewrite Hhd in Hhd0. injection Hhd0 as <-.
  destruct (crawl_feeds_ok _ _ _ _ _ _ _ _ _ Hloop)
    as (_ & new & Hnew & Hcount & Hpass).
  cbn [historyData updatedCount] in Hnew, Hcount.
  rewrite Hnew in Hhd'.
  exists fd, new, {| updates := take HISTORY_CAP (new ++ updates hd) |}.
  cbn [updates].
  split_and!; [exact Hfd| | |exact Hhd'|reflexivity| |].
  - unfold loop_history. now rewrite Hloop, Hnew.
  - intros Hnd.
    destruct (crawl_entries _ _ _ _ _ Hrun Hfd Hhd Hnd)
      as (fs2 & l2 & s2 & Hloop2 & Hu & _).
    rewrite Hloop in Hloop2. injection Hloop2 as <- <- <-.
    rewrite Hnew in Hu. now apply app_inv_tail in Hu.
  - rewrite (crawl_after_loop _ _ _ _ _ _ _ Hfd Hhd Hloop) in Hrun.
    unfold bind, write_feeds, write_history, console_log in Hrun.
    destruct (feeds_write_error w); [discriminate|].
    destruct (history_write_error w); [discriminate|].
    injection Hrun as <-. cbn [console with_console].
    rewrite last_snoc, Hcount, Nat.add_0_r. reflexivity.
  - intros Hmany. rewrite length_take. lia.
Qed.

(** The body keeps what identifies the feed, and sets its metadata by the
    rule of lines 133-136 and 166. *)
Lemma crawl_feed_visited now ev feed l s feed' l' s' :
  crawl_feed now ev feed l s = (Ok (feed', l'), s') ->
  visited now ev feed feed'.
Proof.
  intros Hrun. unfold visited.
  destruct (fetch_result ev feed) as [page|] eqn:Hf.
  2:{ destruct (crawl_feed_skipped _ _ Hf) as [message Hm].
      rewrite Hm in Hrun. injection Hrun as <- <- <-.
      repeat split. }
  assert (Hmeta : forall g,
    g = update_metadata now page feed
    \/ g = Feed.set_lastUpdated now (update_metadata now page feed) ->
    same_source feed g
    /\ Feed.lastChecked g = Some now
    /\ Feed.title g
       = (if decide (Page.title page <> "" /\ Page.title page <> Feed.url feed)
          then Page.title page else Feed.title feed)
    /\ (Feed.lastUpdated g = Feed.lastUpdated feed
        \/ Feed.lastUpdated g = Some now)).
  { intros g [-> | ->];
      unfold same_source, update_metadata, Feed.set_lastChecked; simpl;
      case_decide; simpl; split_and!; auto. }
  apply Hmeta.
  destruct (stored_snapshot ev s (Feed.id feed)) as [previous|] eqn:Hs.
  - destruct (decide (generateHash previous
                      = generateHash (Page.content page))) as [Hh|Hh].
    + rewrite (crawl_feed_unchanged _ _ _ _ _ _ _ Hf Hs Hh) in Hrun.
      injection Hrun as <- <- <-. now left.
    + assert (Hw : snapshot_write_error ev = None).
      { eapply crawl_feed_ok_written; [exact Hrun|exact Hf|now rewrite Hs]. }
      rewrite (crawl_feed_changed _ _ _ _ _ _ _ Hf Hs Hh Hw) in Hrun.
      injection Hrun as <- <- <-. now right.
  - assert (Hw : snapshot_write_error ev = None).
    { eapply crawl_feed_ok_written; [exact Hrun|exact Hf|now rewrite Hs]. }
    rewrite (crawl_feed_first_seen _ _ _ _ _ _ Hf Hs Hw) in Hrun.
    injection Hrun as <- <- <-. now left.
Qed.

Lemma crawl_feeds_visited w now fs : forall i l s fs' l' s',
  crawl_feeds w now i fs l s = (Ok (fs', l'), s') ->
  length fs' = length fs
  /\ forall j f, fs !! j = Some f ->
       exists f', fs' !! j = Some f' /\ visited now (events w (i + j)) f f'.
Proof.
  induction fs as [|feed rest IH]; intros i l s fs' l' s' Hrun.
  { injection Hrun as <- <- <-. split; [reflexivity|].
    intros j f Hj. discriminate. }
  rewrite crawl_feeds_cons in Hrun.
  destruct (crawl_feed now (events w i) feed l s)
    as [[[feed' l1]|e] s1] eqn:Hstep; [|discriminate].
  destruct (crawl_feeds w now (S i) rest l1 s1)
    as [[[rest' l2]|e] s2] eqn:Hrest; [|discriminate].
  injection Hrun as <- <- <-.
  destruct (IH _ _ _ _ _ _ Hrest) as (Hlen & Hall).
  split; [simpl; now rewrite Hlen|].
  intros [|j] f Hj; simpl in Hj.
  - injection Hj as <-. exists feed'. rewrite Nat.add_0_r.
    split; [reflexivity|]. eapply crawl_feed_visited, Hstep.
  - destruct (Hall j f Hj) as (f' & Hj' & Hv). exists f'.
    replace (i + S j) with (S i + j) by lia. now split.
Qed.

(** X5.  A pass that returns writes back the registry it read, feed by
    feed: as many feeds, in the same order, each with the [id], [url],
    [tags], [selector] and [addedAt] it had, and the same list of known
    tags.  No feed is added, dropped or moved. *)
Theorem registry_shape_preserved w s s' fd :
  feeds_file s = Some fd ->
  crawl w s = (Ok tt, s') ->
  exists fd',
    feeds_file s' = Some fd'
    /\ known_tags fd' = known_tags fd
    /\ Forall2 same_source (feeds fd) (feeds fd').
Proof.
  intros Hfd Hrun.
  destruct (crawl_ok _ _ _ Hrun)
    as (fd0 & hd & fs' & l' & s1 & Hfd0 & Hhd & Hloop & Hfd' & Hhd' & Hsn).
  rewrite Hfd in Hfd0. injection Hfd0 as <-.
  destruct (crawl_feeds_visited _ _ _ _ _ _ _ _ _ Hloop) as (Hlen & Hall).
  eexists. split_and!; [exact Hfd'|reflexivity|].
  cbn [feeds]. apply Forall2_same_length_lookup. split; [now rewrite Hlen|].
  intros j f f' Hj Hj'. destruct (Hall j f Hj) as (g & Hg & Hs & _).
  rewrite Hj' in Hg. injection Hg as <-. exact Hs.
Qed.

(** X6.  The metadata of every feed after a pass that returns.  A feed
    whose fetch failed is written back as it was.  A feed whose fetch
    succeeded has [lastChecked] set to the timestamp of the run, whether
    it is new, changed or unchanged; its [title] is the title of the page
    when that is not empty and not the URL of the feed, and the old title
    otherwise; its [lastUpdated] is the old one or the timestamp of the
    run. *)
Theorem fetched_feed_metadata w s s' fd i f :
  feeds_file s = Some fd ->
  feeds fd !! i = Some f ->
  crawl w s = (Ok tt, s') ->
  exists fd' f',
    feeds_file s' = Some fd'
    /\ feeds fd' !! i = Some f'
    /\ match fetch_result (events w i) f with
       | None => f' = f
       | Some page =>
           Feed.lastChecked f' = Some (run_timestamp w)
           /\ Feed.title f'
              = (if decide (Page.title page <> ""
                            /\ Page.title page <> Feed.url f)
                 then Page.title page else Feed.title f)
           /\ (Feed.lastUpdated f' = Feed.lastUpdated f
               \/ Feed.lastUpdated f' = Some (run_timestamp w))
       end.
Proof.
  intros Hfd Hi Hrun.
  destruct (crawl_ok _ _ _ Hrun)
    as (fd0 & hd & fs' & l' & s1 & Hfd0 & Hhd & Hloop & Hfd' & Hhd' & Hsn).
  rewrite Hfd in Hfd0. injection Hfd0 as <-.
  destruct (crawl_feeds_visited _ _ _ _ _ _ _ _ _ Hloop) as (_ & Hall).
  destruct (Hall i f Hi) as (f' & Hi' & _ & Hv).
  eexists. exists f'. split_and!; [exact Hfd'|exact Hi'|exact Hv].
Qed.

(** The title [fetchContent] gives for a page whose [<title>] is empty,
    or blank, is the URL. *)
Lemma fetch_result_untitled ev feed response html title_text page :
  fetched ev = Resolved response ->
  text response = inl html ->
  cheerio_text html "title" = inl title_text ->
  trim title_text = "" ->
  fetch_result ev feed = Some page ->
  Page.title page = Feed.url feed.
Proof.
  intros Hev Htext Htitle Htrim.
  unfold fetch_result, fetchContent, try_catch, bind, settle, ret, throw.
  rewrite Hev. simpl. destruct (ok response); simpl.
  2:{ discriminate. }
  rewrite Htext. simpl. rewrite Htitle. simpl.
  destruct (cheerio_text html (selector_or_body feed)) as [selected|message];
    simpl; [|discriminate].
  intros Hp. injection Hp as <-. simpl. now rewrite Htrim.
Qed.

(** X7.  A page without a title never renames a feed: when the [<title>]
    of the fetched page is empty or blank, [fetchContent] gives the URL as
    the title, and the pass writes the feed back with the title it had. *)
Theorem untitled_page_keeps_title w s s' fd i f response html title_text :
  feeds_file s = Some fd ->
  feeds fd !! i = Some f ->
  crawl w s = (Ok tt, s') ->
  fetched (events w i) = Resolved response ->
  text response = inl html ->
  cheerio_text html "title" = inl title_text ->
  trim title_text = "" ->
  exists fd' f',
    feeds_file s' = Some fd'
    /\ feeds fd' !! i = Some f'
    /\ Feed.title f' = Feed.title f.
Proof.
  intros Hfd Hi Hrun Hev Htext Htitle Htrim.
  destruct (crawl_ok _ _ _ Hrun)
    as (fd0 & hd & fs' & l' & s1 & Hfd0 & Hhd & Hloop & Hfd' & Hhd' & Hsn).
  rewrite Hfd in Hfd0. injection Hfd0 as <-.
  destruct (crawl_feeds_visited _ _ _ _ _ _ _ _ _ Hloop) as (_ & Hall).
  destruct (Hall i f Hi) as (f' & Hi' & _ & Hv).
  eexists. exists f'. split_and!; [exact Hfd'|exact Hi'|].
  simpl in Hv.
  destruct (fetch_result (events w i) f) as [page|] eqn:Hf;
    [|now rewrite Hv].
  destruct Hv as (_ & Ht & _). rewrite Ht.
  rewrite (fetch_result_untitled _ _ _ _ _ _ Hev Htext Htitle Htrim Hf).
  rewrite decide_False; [reflexivity|]. intros [_ Hne]. now apply Hne.
Qed.

(** X8.  The entry made for a changed feed and the feed written back by
    the same pass agree, the feeds of the registry having distinct
    snapshot files: the entry carries the id, the URL, the tags and the
    title of the feed as the registry has them after the pass, so the
    title of the entry is the title just fetched when the pass renames the
    feed. *)
Theorem entry_agrees_with_registry w s s' fd hd i f page previous :
  feeds_file s = Some fd ->
  history_file s = Some hd ->
  NoDup (snapshot_paths (feeds fd)) ->
  feeds fd !! i = Some f ->
  crawl w s = (Ok tt, s') ->
  fetch_result (events w i) f = Some page ->
  stored_snapshot (events w i) s (Feed.id f) = Some previous ->
  generateHash previous <> generateHash (Page.content page) ->
  let new := entries_of_pass w s (feeds fd) in
  exists fd' hd' f' u,
    feeds_file s' = Some fd' /\ history_file s' = Some hd'
    /\ loop_history w s fd hd = Some (new ++ updates hd)
    /\ updates hd' = take HISTORY_CAP (new ++ updates hd)
    /\ updates_of (Feed.id f) new = [u]
    /\ feeds fd' !! i = Some f'
    /\ Update.feedId u = Feed.id f'
    /\ Update.feedTitle u = Feed.title f'
    /\ Update.url u = Feed.url f'
    /\ Update.tags u = Feed.tags f'.
Proof.
  intros Hfd Hhd Hids Hi Hrun Hf Hs Hh new.
  destruct (pass_changed w s s' fd hd i f Hfd Hhd Hids Hi Hrun
              page previous Hf Hs Hh)
    as (fd' & hd' & Hfd' & Hhd' & Hupd & Hof & Hsnap & Hi').
  destruct (pass_history w s s' fd hd Hfd Hhd Hids Hrun) as [Hloop _].
  exists fd', hd'. do 2 eexists.
  split_and!; [exact Hfd'|exact Hhd'|exact Hloop|exact Hupd|exact Hof
              |exact Hi'|..];
    reflexivity.
Qed.




(** What [fetchContent] returns depends on the feed through its URL and
    its selector only. *)
Lemma fetch_result_same ev1 ev2 f f' :
  fetched ev2 = fetched ev1 ->
  same_source f f' ->
  fetch_result ev2 f' = fetch_result ev1 f.
Proof.
  intros Hev (_ & Hurl & _ & Hsel & _).
  unfold fetch_result, selector_or_body. now rewrite Hev, Hurl, Hsel.
Qed.

Lemma crawl_feed_settled now ev feed l s feed' l' s' :
  settled ev s feed ->
  crawl_feed now ev feed l s = (Ok (feed', l'), s') ->
  l' = l.
Proof.
  unfold settled. intros Hset Hrun.
  destruct (fetch_result ev feed) as [page|] eqn:Hf.
  2:{ destruct (crawl_feed_skipped _ _ Hf) as [message Hm].
      rewrite Hm in Hrun. now injection Hrun as <- <- <-. }
  destruct (stored_snapshot ev s (Feed.id feed)) as [previous|] eqn:Hs.
  - rewrite (crawl_feed_unchanged _ _ _ _ _ _ _ Hf Hs Hset) in Hrun.
    now injection Hrun as <- <- <-.
  - assert (Hw : snapshot_write_error ev = None).
    { eapply crawl_feed_ok_written; [exact Hrun|exact Hf|now rewrite Hs]. }
    rewrite (crawl_feed_first_seen _ _ _ _ _ _ Hf Hs Hw) in Hrun.
    now injection Hrun as <- <- <-.
Qed.

(** A loop over feeds with distinct snapshot files that are all settled
    makes no entry. *)
Lemma crawl_feeds_settled w now fs : forall i l s fs' l' s',
  NoDup (snapshot_paths fs) ->
  (forall j f, fs !! j = Some f -> settled (events w (i + j)) s f) ->
  crawl_feeds w now i fs l s = (Ok (fs', l'), s') ->
  l' = l.
Proof.
  induction fs as [|feed rest IH]; intros i l s fs' l' s' Hids Hall Hrun.
  { now injection Hrun as <- <- <-. }
  rewrite crawl_feeds_cons in Hrun.
  destruct (crawl_feed now (events w i) feed l s)
    as [[[feed' l1]|e] s1] eqn:Hstep; [|discriminate].
  destruct (crawl_feeds w now (S i) rest l1 s1)
    as [[[rest' l2]|e] s2] eqn:Hrest; [|discriminate].
  injection Hrun as <- <- <-.
  unfold snapshot_paths in Hids. rewrite fmap_cons in Hids.
  apply NoDup_cons in Hids as [Hnot Hids].
  assert (l1 = l) as ->.
  { eapply crawl_feed_settled; [|exact Hstep].
    specialize (Hall 0 feed eq_refl). now rewrite Nat.add_0_r in Hall. }
  eapply IH; [exact Hids| |exact Hrest].
  intros j g Hj. specialize (Hall (S j) g Hj).
  replace (i + S j) with (S i + j) in Hall by lia.
  destruct (crawl_feed_frame _ _ _ _ _ _ _ Hstep) as (_ & _ & Hfr).
  unfold settled in *.
  rewrite (stored_snapshot_same _ s1 s); [exact Hall|].
  apply Hfr. intros Heq. apply Hnot. rewrite <- Heq.
  apply snapshot_path_elem. eapply list_elem_of_lookup_2, Hj.
Qed.

(** After a pass that returns, the snapshot of a feed whose fetch
    succeeded hashes as the fetched text does. *)
Lemma pass_leaves_snapshot w s s' fd hd i f page :
  feeds_file s = Some fd ->
  history_file s = Some hd ->
  NoDup (snapshot_paths (feeds fd)) ->
  feeds fd !! i = Some f ->
  crawl w s = (Ok tt, s') ->
  fetch_result (events w i) f = Some page ->
  exists text,
    snapshots s' !! snapshotPath (Feed.id f) = Some text
    /\ generateHash text = generateHash (Page.content page).
Proof.
  intros Hfd Hhd Hids Hi Hrun Hf.
  destruct (stored_snapshot (events w i) s (Feed.id f))
    as [previous|] eqn:Hs.
  - destruct (decide (generateHash previous
                      = generateHash (Page.content page))) as [Hh|Hh].
    + destruct (pass_unchanged w s s' fd hd i f Hfd Hhd Hids Hi Hrun
                  page previous Hf Hs Hh)
        as (_ & _ & _ & _ & _ & _ & Hsnap & _).
      exists previous. split; [|exact Hh]. rewrite Hsnap.
      unfold stored_snapshot in Hs.
      destruct (snapshot_unreadable (events w i)); [discriminate|exact Hs].
    + destruct (pass_changed w s s' fd hd i f Hfd Hhd Hids Hi Hrun
                  page previous Hf Hs Hh)
        as (_ & _ & _ & _ & _ & _ & Hsnap & _).
      exists (Page.content page). now split.
  - destruct (pass_first_seen w s s' fd hd i f Hfd Hhd Hids Hi Hrun
                page Hf Hs)
      as (_ & _ & _ & _ & _ & _ & Hsnap & _).
    exists (Page.content page). now split.
Qed.

(** X9.  A pass right after a pass, over pages that answer as they did
    and feeds with distinct snapshot files: the second pass makes no
    entry, reports none, and leaves the history as the first pass wrote
    it. *)
Theorem second_pass_is_quiet w1 w2 s0 s1 s2 fd :
  feeds_file s0 = Some fd ->
  NoDup (snapshot_paths (feeds fd)) ->
  crawl w1 s0 = (Ok tt, s1) ->
  crawl w2 s1 = (Ok tt, s2) ->
  (forall j, j < length (feeds fd) ->
     fetched (events w2 j) = fetched (events w1 j)) ->
  history_file s2 = history_file s1
  /\ last (console s2) = Some (done_line 0).
Proof.
  intros Hfd Hids Hrun1 Hrun2 Hsame.
  destruct (crawl_ok _ _ _ Hrun1)
    as (fd0 & hd0 & fs1 & l1 & t1 & Hfd0 & Hhd0 & Hloop1 & Hfd1 & Hhd1 & Hsn1).
  rewrite Hfd in Hfd0. injection Hfd0 as <-.
  destruct (crawl_feeds_visited _ _ _ _ _ _ _ _ _ Hloop1) as (Hlen1 & Hvis1).
  destruct (crawl_feeds_ok _ _ _ _ _ _ _ _ _ Hloop1) as (Hids1 & _).
  destruct (crawl_ok _ _ _ Hrun2)
    as (fd1 & hd1 & fs2 & l2 & t2 & Hfd1' & Hhd1' & Hloop2 & Hfd2 & Hhd2 & Hsn2).
  rewrite Hfd1 in Hfd1'. injection Hfd1' as <-.
  rewrite Hhd1 in Hhd1'. injection Hhd1' as <-.
  cbn [feeds] in Hloop2.
  assert (Hl2 : l2 = {| historyData :=
                          {| updates := take HISTORY_CAP
                                          (updates (historyData l1)) |};
                        updatedCount := 0 |}).
  { eapply crawl_feeds_settled; [|..|exact Hloop2].
    - unfold snapshot_paths in *.
      change (NoDup ((snapshotPath ∘ Feed.id) <$> fs1)).
      change (NoDup ((snapshotPath ∘ Feed.id) <$> feeds fd)) in Hids.
      rewrite list_fmap_compose in *. now rewrite Hids1.
    - intros j g Hj. simpl.
      assert (Hlt : j < length (feeds fd)).
      { rewrite <- Hlen1. eapply lookup_lt_Some, Hj. }
      destruct (lookup_lt_is_Some_2 (feeds fd) j Hlt) as [f Hf].
      destruct (Hvis1 j f Hf) as (g' & Hg' & Hsrc & _).
      rewrite Hj in Hg'. injection Hg' as <-.
      unfold settled.
      rewrite (fetch_result_same (events w1 j) _ f g (Hsame j Hlt) Hsrc).
      destruct (fetch_result (events w1 j) f) as [page|] eqn:Hpage;
        [|trivial].
      destruct (pass_leaves_snapshot w1 s0 s1 fd hd0 j f page
                  Hfd Hhd0 Hids Hf Hrun1 Hpage) as (text & Htext & Hhash).
      destruct Hsrc as (Hid & _). unfold stored_snapshot. rewrite Hid.
      destruct (snapshot_unreadable (events w2 j)); [trivial|].
      cbn [snapshots logged with_console]. now rewrite Htext. }
  subst l2. cbn [historyData updates updatedCount] in *. split.
  - rewrite Hhd2, Hhd1. do 2 f_equal. apply take_take.
  - assert (Hfd1s : feeds_file s1
                    = Some {| feeds := fs1; known_tags := known_tags fd |})
      by exact Hfd1.
    rewrite (crawl_after_loop _ _ _ _ _ _ _ Hfd1s Hhd1 Hloop2) in Hrun2.
    unfold bind, write_feeds, write_history, console_log in Hrun2.
    destruct (feeds_write_error w2); [discriminate|].
    destruct (history_write_error w2); [discriminate|].
    injection Hrun2 as <-. cbn [console with_console updatedCount].
    now rewrite last_snoc.
Qed.

(** *** The ids of the entries *)

Lemma pretty_N_go_no_dash x : forall s,
  no_dash s -> no_dash (pretty_N_go x s).
Proof.
  induction (N.lt_wf_0 x) as [x _ IH]; intros s Hs.
  assert (x = 0 \/ 0 < x)%N as [->|Hx] by lia.
  - now rewrite pretty_N_go_0.
  - rewrite pretty_N_go_step by exact Hx. apply IH.
    + now apply N.div_lt.
    + split; [|exact Hs]. unfold pretty_N_char.
      repeat case_match; discriminate.
Qed.

Lemma pretty_Z_no_dash (z : Z) : (0 <= z)%Z -> no_dash (pretty z).
Proof.
  intros Hz. destruct z as [|p|p]; [simpl; split; [discriminate|exact I]| |lia].
  unfold pretty, pretty_Z, pretty, pretty_positive, pretty, pretty_N.
  case_decide; [discriminate|]. now apply pretty_N_go_no_dash.
Qed.

Lemma no_dash_middle y d : ~ no_dash (y +:+ String "-" d).
Proof.
  induction y as [|c y IH]; simpl.
  - intros [Hc _]. now apply Hc.
  - intros [_ Hy]. now apply IH.
Qed.

(** An id splits in one way into the id of a feed and a clock. *)
Lemma dash_split x : forall y d1 d2,
  no_dash d1 -> no_dash d2 ->
  x +:+ String "-" d1 = y +:+ String "-" d2 ->
  x = y /\ d1 = d2.
Proof.
  induction x as [|c x IH]; intros [|c' y] d1 d2 Hd1 Hd2 Heq; simpl in Heq.
  - injection Heq as ->. now split.
  - injection Heq as <- ->. now destruct (no_dash_middle y d2).
  - injection Heq as -> <-. now destruct (no_dash_middle x d1).
  - injection Heq as <- Heq. destruct (IH y d1 d2 Hd1 Hd2 Heq) as [-> ->].
    now split.
Qed.

Lemma pass_entries_ids_distinct w now i fs new :
  pass_entries w now i fs new ->
  NoDup (Feed.id <$> fs) ->
  (forall j, j < length fs -> (0 <= date_now (events w (i + j)))%Z) ->
  NoDup (Update.id <$> new).
Proof.
  induction 1 as [i|i f fs new Hp IH|i f fs new u Hp IH Hu];
    intros Hids Hclock.
  - constructor.
  - rewrite fmap_cons in Hids. apply NoDup_cons in Hids as [_ Hids].
    apply IH; [exact Hids|]. intros j Hj.
    replace (S i + j) with (i + S j) by lia. apply Hclock. simpl. lia.
  - rewrite fmap_cons in Hids. apply NoDup_cons in Hids as [Hnot Hids].
    rewrite fmap_app. apply NoDup_app. split_and!.
    + apply IH; [exact Hids|]. intros j Hj.
      replace (S i + j) with (i + S j) by lia. apply Hclock. simpl. lia.
    + intros x Hx Hx'. apply list_elem_of_singleton in Hx'. subst x.
      apply list_elem_of_fmap in Hx as (v & Hv & Hin).
      pose proof (pass_entries_made _ _ _ _ _ Hp) as Hmade.
      rewrite Forall_forall in Hmade.
      destruct (Hmade v Hin) as (_ & j & g & Hj & _ & Hvid & _).
      destruct Hu as (_ & Huid & _). rewrite Huid, Hvid in Hv.
      apply dash_split in Hv as [Heq _].
      * apply Hnot. rewrite Heq. apply list_elem_of_fmap_2.
        eapply list_elem_of_lookup_2, Hj.
      * apply pretty_Z_no_dash. specialize (Hclock 0).
        rewrite Nat.add_0_r in Hclock. apply Hclock. simpl. lia.
      * apply pretty_Z_no_dash.
        replace (S i + j) with (i + S j) by lia. apply Hclock. simpl.
        apply lookup_lt_Some in Hj. lia.
    + apply NoDup_singleton.
Qed.

(** X11.  The entries of one pass, the ones the loop puts in front of the
    history, have ids that differ from one another, when the feeds of the
    registry have distinct ids and the clock is not before the epoch. *)
Theorem entry_ids_distinct w s s' fd hd :
  feeds_file s = Some fd ->
  history_file s = Some hd ->
  NoDup (Feed.id <$> feeds fd) ->
  clock_after_epoch w (length (feeds fd)) ->
  crawl w s = (Ok tt, s') ->
  exists new,
    loop_history w s fd hd = Some (new ++ updates hd)
    /\ (updates <$> history_file s')
       = Some (take HISTORY_CAP (new ++ updates hd))
    /\ pass_entries w (run_timestamp w) 0 (feeds fd) new
    /\ NoDup (Update.id <$> new).
Proof.
  intros Hfd Hhd Hids Hclock Hrun.
  destruct (crawl_ok _ _ _ Hrun)
    as (fd0 & hd0 & fs' & l' & s1 & Hfd0 & Hhd0 & Hloop & Hfd' & Hhd' & Hsn).
  rewrite Hfd in Hfd0. rewrite Hhd in Hhd0.
  injection Hfd0 as <-. injection Hhd0 as <-.
  destruct (crawl_feeds_ok _ _ _ _ _ _ _ _ _ Hloop)
    as (_ & new & Hnew & _ & Hpass).
  cbn [historyData] in Hnew.
  exists new. split_and!; [| |exact Hpass|].
  - unfold loop_history. now rewrite Hloop, Hnew.
  - rewrite Hhd'. cbn. now rewrite Hnew.
  - eapply pass_entries_ids_distinct; [exact Hpass|exact Hids|].
    intros j Hj. apply Hclock, Hj.
Qed.

(** *** A pass that throws after it has written snapshots *)

(** A loop that returns has overwritten the snapshot of every changed
    feed, the snapshot files being distinct. *)
Lemma crawl_feeds_overwrites w now fs i l s fs' l' s' j g page previous :
  crawl_feeds w now i fs l s = (Ok (fs', l'), s') ->
  NoDup (snapshot_paths fs) ->
  fs !! j = Some g ->
  fetch_result (events w (i + j)) g = Some page ->
  stored_snapshot (events w (i + j)) s (Feed.id g) = Some previous ->
  generateHash previous <> generateHash (Page.content page) ->
  snapshots s' !! snapshotPath (Feed.id g) = Some (Page.content page).
Proof.
  intros Hloop Hids Hj Hf Hs Hh.
  pose proof (take_drop_middle _ _ _ Hj) as Hsplit.
  pose proof (lookup_lt_Some _ _ _ Hj) as Hlt.
  set (l1 := take j fs) in *. set (l2 := drop (S j) fs) in *.
  assert (Hl1 : length l1 = j) by (subst l1; rewrite length_take; lia).
  rewrite <- Hsplit in Hloop, Hids.
  unfold snapshot_paths in Hids.
  rewrite fmap_app, fmap_cons in Hids.
  apply NoDup_app in Hids as (_ & Hnot1 & Hids).
  apply NoDup_cons in Hids as (Hnot2 & _).
  destruct (crawl_feeds_middle _ _ _ _ _ _ _ _ _ _ _ Hloop)
    as (l1' & la & sa & g' & lb & sb & l2' & Ha & Hb & Hc & _ & _).
  rewrite Hl1 in Hb, Hc.
  destruct (crawl_feeds_frame _ _ _ _ _ _ _ _ Ha) as (_ & _ & Hsa).
  destruct (crawl_feeds_frame _ _ _ _ _ _ _ _ Hc) as (_ & _ & Hsc).
  assert (Hs' : stored_snapshot (events w (i + j)) sa (Feed.id g)
                = Some previous).
  { rewrite (stored_snapshot_same _ sa s); [exact Hs|].
    apply Hsa. intros Hin. apply (Hnot1 _ Hin). left. }
  assert (Hw : snapshot_write_error (events w (i + j)) = None).
  { eapply crawl_feed_ok_written; [exact Hb|exact Hf|now rewrite Hs']. }
  rewrite (crawl_feed_changed _ _ _ _ _ _ _ Hf Hs' Hh Hw) in Hb.
  injection Hb as <- <- <-.
  rewrite Hsc by exact Hnot2. simpl. apply lookup_insert_eq.
Qed.

(** X12.  A pass that throws does not take back the snapshots it has
    written, the feeds of the registry having distinct snapshot files.
    When the snapshot of a feed cannot be written, the pass throws with
    the registry and the history as they were; a changed feed that was
    visited before has its new text as snapshot all the same, while the
    history on the disk has no entry for its change. *)
Theorem aborted_pass_keeps_new_snapshots
    w s fd hd j g page previous i f page_f message :
  feeds_file s = Some fd ->
  history_file s = Some hd ->
  NoDup (snapshot_paths (feeds fd)) ->
  feeds fd !! j = Some g ->
  feeds fd !! i = Some f ->
  j < i ->
  snapshot_writes_work w 0 i ->
  fetch_result (events w j) g = Some page ->
  stored_snapshot (events w j) s (Feed.id g) = Some previous ->
  generateHash previous <> generateHash (Page.content page) ->
  fetch_result (events w i) f = Some page_f ->
  match stored_snapshot (events w i) s (Feed.id f) with
  | None => True
  | Some previous_f =>
      generateHash previous_f <> generateHash (Page.content page_f)
  end ->
  snapshot_write_error (events w i) = Some message ->
  exists s',
    crawl w s = (Throw message, s')
    /\ feeds_file s' = Some fd
    /\ history_file s' = Some hd
    /\ snapshots s' !! snapshotPath (Feed.id g) = Some (Page.content page).
Proof.
  intros Hfd Hhd Hids Hj Hi Hji Hwork Hfg Hsg Hhg Hff Hsf Hwf.
  pose proof (take_drop_middle _ _ _ Hi) as Hsplit.
  pose proof (lookup_lt_Some _ _ _ Hi) as Hlt.
  set (l1 := take i (feeds fd)) in *. set (l2 := drop (S i) (feeds fd)) in *.
  assert (Hl1 : length l1 = i) by (subst l1; rewrite length_take; lia).
  set (s0 := logged [start_line w] s).
  set (l0 := {| historyData := hd; updatedCount := 0 |}).
  destruct (crawl_feeds_returns w (run_timestamp w) l1 0 l0 s0)
    as (l1' & la & sa & Ha).
  { now rewrite Hl1. }
  destruct (crawl_feeds_frame _ _ _ _ _ _ _ _ Ha) as (Hfa & Hha & Hsa).
  pose proof Hids as Hids'.
  unfold snapshot_paths in Hids'.
  rewrite <- Hsplit, fmap_app in Hids'.
  apply NoDup_app in Hids' as (Hids1 & Hnot1 & _).
  assert (Hg : snapshots sa !! snapshotPath (Feed.id g)
               = Some (Page.content page)).
  { eapply (crawl_feeds_overwrites w _ l1 0 l0 s0 _ _ _ j g page previous);
      [exact Ha|exact Hids1| |exact Hfg|exact Hsg|exact Hhg].
    subst l1. rewrite lookup_take_lt by exact Hji. exact Hj. }
  assert (Hsf' : match stored_snapshot (events w i) sa (Feed.id f) with
                 | None => True
                 | Some previous_f =>
                     generateHash previous_f
                     <> generateHash (Page.content page_f)
                 end).
  { rewrite (stored_snapshot_same _ sa s); [exact Hsf|].
    apply Hsa. intros Hin. apply (Hnot1 _ Hin). rewrite fmap_cons. left. }
  destruct (crawl_feed_write_fails (run_timestamp w) _ f page_f message
              la sa Hff Hsf' Hwf) as [line Hl].
  assert (Hloop : crawl_feeds w (run_timestamp w) 0 (feeds fd) l0 s0
                  = (Throw message, logged [visiting_line f; line] sa)).
  { rewrite <- Hsplit, crawl_feeds_app, Ha, crawl_feeds_cons.
    simpl. rewrite Hl1, Hl. reflexivity. }
  eexists. split_and!.
  - exact (crawl_throws _ _ _ _ _ _ Hfd Hhd Hloop).
  - simpl. rewrite Hfa. exact Hfd.
  - simpl. rewrite Hha. exact Hhd.
  - simpl. exact Hg.
Qed.

End Properties.

(** ** The line diff of a text with itself *)

Lemma script_same xs : JsDiff.script xs xs = List.map JsDiff.Keep xs.
Proof.
  induction xs as [|x xs IH]; [reflexivity|].
  simpl. rewrite String.eqb_refl. now rewrite IH.
Qed.

(** Grouping keeps the kind of the steps: kept lines give parts that are
    neither added nor removed. *)
Lemma group_keeps xs :
  Forall (fun part => is_edit part = false)
         (JsDiff.group (List.map JsDiff.Keep xs)).
Proof.
  induction xs as [|x xs IH]; [constructor|]. simpl.
  destruct (JsDiff.group (List.map JsDiff.Keep xs)) as [|q parts].
  - repeat constructor.
  - apply Forall_cons in IH as [Hq Hparts].
    destruct (JsDiff.same_kind _ q).
    + constructor; [|exact Hparts]. exact Hq.
    + repeat constructor; trivial.
Qed.

Lemma filter_none {A} (p : A -> bool) (l : list A) :
  Forall (fun x => p x = false) l -> List.filter p l = [].
Proof.
  induction 1 as [|x l Hx _ IH]; [reflexivity|]. simpl. now rewrite Hx.
Qed.

(** C8.  The diff of a text against itself has no added and no removed
    segment: [calculateDiff] gives the empty list, so the [diff] of a
    history entry made from it is empty and its summary counts none. *)
Theorem diff_of_text_with_itself_empty (A : string) :
  @calculateDiff JsDiff.line_diff A A = []
  /\ List.map diff_entry (@calculateDiff JsDiff.line_diff A A) = []
  /\ diff_summary (@calculateDiff JsDiff.line_diff A A) = "+0件 / -0件".
Proof.
  assert (Hnil : @calculateDiff JsDiff.line_diff A A = []).
  { unfold calculateDiff, diffLines, JsDiff.line_diff.
    rewrite script_same. apply filter_none, group_keeps. }
  rewrite Hnil. repeat split.
Qed.

(** ** Counting in UTF-16 units *)

(** [件] is one unit in three bytes, [😀] a surrogate pair in four: the
    first two units of ["件a件"] are ["件a"]; the first three units of
    ["a😀b"] are ["a😀"], and its first two are ["a"] and the first unit
    of the pair, [0xD83D]. *)
Example prefix_counts_units :
  Utf16.length "件a件" = 3
  /\ Utf16.prefix 2 "件a件" = "件a"
  /\ Utf16.length "a😀b" = 4
  /\ Utf16.prefix 3 "a😀b" = "a😀"
  /\ Utf16.prefix 2 "a😀b"
     = String "a" (String "237" (String "160" (String "189" EmptyString))).
Proof. split_and!; reflexivity. Qed.

(** ** The sample runs *)

Section Runs.

Import Sample.
#[local] Existing Instances md5 cheerio trim iso JsDiff.line_diff dir.
Local Open Scope list_scope.

(** Feed [a] of the sample registry has changed. *)
Lemma changed_source_recorded_witness :
  exists fd' hd' f' u,
    feeds_file after_grown = Some fd' /\ history_file after_grown = Some hd'
    /\ loop_history world_grown disk registry no_history
       = Some (entries_of_pass world_grown disk (feeds registry)
               ++ updates no_history)
    /\ updates hd'
       = take HISTORY_CAP (entries_of_pass world_grown disk (feeds registry)
                           ++ updates no_history)
    /\ updates_of (Feed.id feed_a)
         (entries_of_pass world_grown disk (feeds registry)) = [u]
    /\ Update.feedId u = Feed.id feed_a
    /\ Update.detectedAt u = run_timestamp world_grown
    /\ snapshots after_grown !! snapshotPath (Feed.id feed_a)
       = Some hello_world_foo
    /\ feeds fd' !! 0 = Some f'
    /\ Feed.lastUpdated f' = Some (run_timestamp world_grown).
Proof.
  apply (changed_source_recorded world_grown disk after_grown registry
           no_history 0 feed_a (fetched_page hello_world_foo) hello_world).
  - reflexivity.
  - reflexivity.
  - apply (bool_decide_unpack _). vm_compute. exact I.
  - reflexivity.
  - vm_compute. reflexivity.
  - reflexivity.
  - reflexivity.
  - vm_compute. discriminate.
Defined.

(** Feed [b] of the sample registry has no snapshot. *)
Lemma first_seen_snapshot_only_witness :
  exists fd' hd' f',
    feeds_file after_grown = Some fd' /\ history_file after_grown = Some hd'
    /\ loop_history world_grown disk registry no_history
       = Some (entries_of_pass world_grown disk (feeds registry)
               ++ updates no_history)
    /\ updates hd'
       = take HISTORY_CAP (entries_of_pass world_grown disk (feeds registry)
                           ++ updates no_history)
    /\ updates_of (Feed.id feed_b)
         (entries_of_pass world_grown disk (feeds registry)) = []
    /\ snapshots after_grown !! snapshotPath (Feed.id feed_b)
       = Some hello_world_foo
    /\ feeds fd' !! 1 = Some f'
    /\ Feed.lastUpdated f' = Feed.lastUpdated feed_b.
Proof.
  apply (first_seen_snapshot_only world_grown disk after_grown registry
           no_history 1 feed_b (fetched_page hello_world_foo)).
  - reflexivity.
  - reflexivity.
  - apply (bool_decide_unpack _). vm_compute. exact I.
  - reflexivity.
  - vm_compute. reflexivity.
  - reflexivity.
  - reflexivity.
Defined.

(** Feed [a] reads as its snapshot does. *)
Lemma unchanged_source_only_checked_witness :
  exists fd' hd' f',
    feeds_file after_same = Some fd' /\ history_file after_same = Some hd'
    /\ loop_history world_same disk registry no_history
       = Some (entries_of_pass world_same disk (feeds registry)
               ++ updates no_history)
    /\ updates hd'
       = take HISTORY_CAP (entries_of_pass world_same disk (feeds registry)
                           ++ updates no_history)
    /\ updates_of (Feed.id feed_a)
         (entries_of_pass world_same disk (feeds registry)) = []
    /\ snapshots after_same !! snapshotPath (Feed.id feed_a)
       = snapshots disk !! snapshotPath (Feed.id feed_a)
    /\ feeds fd' !! 0 = Some f'
    /\ Feed.lastUpdated f' = Feed.lastUpdated feed_a
    /\ Feed.lastChecked f' = Some (run_timestamp world_same).
Proof.
  apply (unchanged_source_only_checked world_same disk after_same registry
           no_history 0 feed_a (fetched_page hello_world) hello_world).
  - reflexivity.
  - reflexivity.
  - apply (bool_decide_unpack _). vm_compute. exact I.
  - reflexivity.
  - vm_compute. reflexivity.
  - reflexivity.
  - reflexivity.
  - reflexivity.
Defined.

(** C5, as the spec has it, fails: feed [a] reads as its snapshot does,
    and the pass writes it back with the title of the fetched page. *)
Lemma unchanged_source_title_modified :
  fetch_result (events world_same 0) feed_a
  = Some (fetched_page hello_world)
  /\ stored_snapshot (events world_same 0) disk (Feed.id feed_a)
     = Some hello_world
  /\ generateHash hello_world
     = generateHash (Page.content (fetched_page hello_world))
  /\ crawl world_same disk = (Ok tt, after_same)
  /\ Feed.title feed_a = "Site A"
  /\ exists fd' f',
       feeds_file after_same = Some fd'
       /\ feeds fd' !! 0 = Some f'
       /\ Feed.title f' = "News"
       /\ Feed.title f' <> Feed.title feed_a.
Proof.
  split_and!; [vm_compute; reflexivity..|].
  do 2 eexists. split_and!; [vm_compute; reflexivity..|].
  vm_compute. discriminate.
Qed.

(** The same feed, for the statement the script satisfies. *)
Lemma unchanged_source_metadata_only_witness :
  exists fd' hd' f',
    feeds_file after_same = Some fd' /\ history_file after_same = Some hd'
    /\ loop_history world_same disk registry no_history
       = Some (entries_of_pass world_same disk (feeds registry)
               ++ updates no_history)
    /\ updates hd'
       = take HISTORY_CAP (entries_of_pass world_same disk (feeds registry)
                           ++ updates no_history)
    /\ updates_of (Feed.id feed_a)
         (entries_of_pass world_same disk (feeds registry)) = []
    /\ snapshots after_same !! snapshotPath (Feed.id feed_a)
       = snapshots disk !! snapshotPath (Feed.id feed_a)
    /\ feeds fd' !! 0 = Some f'
    /\ Feed.lastChecked f' = Some (run_timestamp world_same)
    /\ Feed.title f'
       = (if decide (Page.title (fetched_page hello_world) <> ""
                     /\ Page.title (fetched_page hello_world)
                        <> Feed.url feed_a)
          then Page.title (fetched_page hello_world) else Feed.title feed_a)
    /\ Feed.id f' = Feed.id feed_a /\ Feed.url f' = Feed.url feed_a
    /\ Feed.tags f' = Feed.tags feed_a
    /\ Feed.selector f' = Feed.selector feed_a
    /\ Feed.addedAt f' = Feed.addedAt feed_a
    /\ Feed.lastUpdated f' = Feed.lastUpdated feed_a.
Proof.
  apply (unchanged_source_metadata_only world_same disk after_same registry
           no_history 0 feed_a (fetched_page hello_world) hello_world).
  - reflexivity.
  - reflexivity.
  - apply (bool_decide_unpack _). vm_compute. exact I.
  - reflexivity.
  - vm_compute. reflexivity.
  - reflexivity.
  - reflexivity.
  - reflexivity.
Defined.

(** The site of feed [a] answers 404: the feed is skipped with the
    message of the status, feed [b] is visited. *)
Lemma failed_fetch_skipped_witness :
  fetch_failed (events world_down 0) feed_a
  /\ crawl_feeds world_down (run_timestamp world_down) 0 [feed_a; feed_b]
       {| historyData := no_history; updatedCount := 0 |} disk
     = match crawl_feeds world_down (run_timestamp world_down) 1 [feed_b]
               {| historyData := no_history; updatedCount := 0 |}
               (logged (skipped_lines feed_a "HTTP 404: Not Found") disk) with
       | (Ok (l2', lb), sb) => (Ok (feed_a :: l2', lb), sb)
       | (Throw e, sb) => (Throw e, sb)
       end
  /\ exists fd' hd',
       feeds_file after_down = Some fd' /\ history_file after_down = Some hd'
       /\ loop_history world_down disk registry no_history
          = Some (entries_of_pass world_down disk (feeds registry)
                  ++ updates no_history)
       /\ updates hd'
          = take HISTORY_CAP (entries_of_pass world_down disk (feeds registry)
                              ++ updates no_history)
       /\ updates_of (Feed.id feed_a)
            (entries_of_pass world_down disk (feeds registry)) = []
       /\ snapshots after_down !! snapshotPath (Feed.id feed_a)
          = snapshots disk !! snapshotPath (Feed.id feed_a)
       /\ feeds fd' !! 0 = Some feed_a.
Proof.
  assert (Hfail : fetch_failed (events world_down (length (@nil Feed.t)))
                    feed_a)
    by reflexivity.
  destruct (failed_fetch_skipped world_down [] feed_a [feed_b] Hfail)
    as (message & Hnet & Hloop & Hpass & _).
  assert (Hmessage : message = "HTTP 404: Not Found")
    by (apply Hnet; reflexivity).
  rewrite Hmessage in Hloop.
  split_and!.
  - exact Hfail.
  - exact (Hloop (run_timestamp world_down)
                 {| historyData := no_history; updatedCount := 0 |} disk).
  - apply (Hpass disk after_down registry no_history).
    + reflexivity.
    + reflexivity.
    + reflexivity.
    + apply (bool_decide_unpack _). vm_compute. exact I.
    + vm_compute. reflexivity.
Defined.

(** C7, as the spec has it, fails: the snapshot of feed [a] cannot be
    written, and the pass throws there; feed [b] is not visited (it gets no
    snapshot, and no line of the console names it), and the registry is not
    written ([lastChecked] of feed [a] is still unset). *)
Lemma snapshot_write_failure_aborts_run :
  snapshot_write_error (events world_read_only 0)
  = Some "EACCES: permission denied"
  /\ snapshot_write_error (events world_read_only 1) = None
  /\ fst (crawl world_read_only disk) = Throw "EACCES: permission denied"
  /\ feeds_file (snd (crawl world_read_only disk)) = Some registry
  /\ snapshots (snd (crawl world_read_only disk)) !! snapshotPath "b" = None
  /\ console (snd (main world_read_only disk))
     = [start_line world_read_only; visiting_line feed_a; changed_line;
        Error "EACCES: permission denied"].
Proof. split_and!; vm_compute; reflexivity. Qed.

(** The statement the script satisfies, in two sample worlds: a pass in
    which the snapshot of feed [a] cannot be read, and the pass in which it
    cannot be written. *)
Lemma snapshot_read_recovers_write_aborts_witness :
  crawl_feed "T0" (unreadable (page hello_world_foo) 0) feed_a
    {| historyData := no_history; updatedCount := 0 |} disk
  = (Ok (update_metadata "T0" (fetched_page hello_world_foo) feed_a,
         {| historyData := no_history; updatedCount := 0 |}),
     saved "a" hello_world_foo [visiting_line feed_a; first_seen_line] disk)
  /\ exists e s',
       crawl world_read_only disk = (Throw e, s')
       /\ main world_read_only disk = (Ok tt, logged [Error e] s')
       /\ feeds_file s' = feeds_file disk
       /\ history_file s' = history_file disk
       /\ forall g, g ∈ drop 1 (feeds registry) ->
                    snapshots s' !! snapshotPath (Feed.id g)
                    = snapshots disk !! snapshotPath (Feed.id g).
Proof.
  destruct snapshot_read_recovers_write_aborts as [Hread Hwrite].
  split.
  - apply (Hread "T0" (unreadable (page hello_world_foo) 0) feed_a
                 (fetched_page hello_world_foo)); reflexivity.
  - apply (Hwrite world_read_only disk registry no_history 0 feed_a
                  (fetched_page hello_world_foo)
                  "EACCES: permission denied").
    + reflexivity.
    + reflexivity.
    + apply (bool_decide_unpack _). vm_compute. exact I.
    + reflexivity.
    + reflexivity.
    + vm_compute. discriminate.
    + reflexivity.
Defined.

(** A history of 100 entries and one changed feed: the pass makes one
    entry, and writes it in front of the old history without its last
    entry. *)
Lemma history_capped_newest_first_witness :
  (exists u,
     entries_of_pass world_grown disk_full [feed_a] = [u]
     /\ updates <$> history_file after_full
        = Some (u :: removelast (updates full_history))
     /\ length (updates full_history) = 100
     /\ length <$> (updates <$> history_file after_full) = Some 100)
  /\ exists fd new hd',
       feeds_file disk_full = Some fd /\ history_file after_full = Some hd'
       /\ loop_history world_grown disk_full fd full_history
          = Some (new ++ updates full_history)
       /\ (NoDup (snapshot_paths (feeds fd)) ->
           new = entries_of_pass world_grown disk_full (feeds fd))
       /\ pass_entries world_grown (run_timestamp world_grown) 0 (feeds fd)
            new
       /\ updates hd' = take HISTORY_CAP (new ++ updates full_history)
       /\ length (updates hd') <= 100
       /\ (forall u rest, new = u :: rest ->
             exists kept, updates hd' = u :: kept)
       /\ (forall u, new = [u] -> length (updates full_history) = 100 ->
             updates hd' = u :: removelast (updates full_history)
             /\ length (updates hd') = 100).
Proof.
  split.
  - eexists. split_and!; vm_compute; reflexivity.
  - apply (history_capped_newest_first world_grown disk_full after_full
             full_history).
    + reflexivity.
    + vm_compute. reflexivity.
Defined.

(** The entries of the sample pass. *)
Lemma entries_share_run_timestamp_witness :
  exists new hd',
    history_file after_grown = Some hd'
    /\ updates hd' = take HISTORY_CAP (new ++ updates no_history)
    /\ pass_entries world_grown (run_timestamp world_grown) 0
         (feeds registry) new
    /\ Forall (fun u =>
         Update.detectedAt u = toISOString (start_ms world_grown)
         /\ exists j g,
              feeds registry !! j = Some g
              /\ Update.feedId u = Feed.id g
              /\ Update.id u
                 = Feed.id g +:+ "-"
                   +:+ pretty (date_now (events world_grown j))
              /\ (date_now (events world_grown j) <> start_ms world_grown ->
                  Update.id u
                  <> Feed.id g +:+ "-" +:+ pretty (start_ms world_grown)))
         new
    /\ length new <= length (feeds registry)
    /\ (forall k,
          length (updates_of k new)
          <= length (feeds_with_id k (feeds registry)))
    /\ (NoDup (Feed.id <$> feeds registry) ->
        forall k, length (updates_of k new) <= 1).
Proof.
  apply (entries_share_run_timestamp world_grown disk after_grown registry
           no_history).
  - reflexivity.
  - reflexivity.
  - vm_compute. reflexivity.
Defined.

End Runs.

(** ** Ids that share a snapshot file *)

Section Shared.

Import Sample Aliasing.
#[local] Existing Instances md5 cheerio trim iso JsDiff.line_diff
  join_resolving.

(** Distinct ids do not make distinct snapshot files.  In a registry with
    the ids [b] and [./b] and no snapshot on the disk, the feed [./b]
    reads the snapshot the feed [b] has just written: the pass makes a
    history entry for it, although the pass started without a snapshot
    for it, and the one file is left with its text. *)
Example aliasing_ids_share_snapshot :
  NoDup (Feed.id <$> feeds registry)
  /\ ~ NoDup (snapshot_paths (feeds registry))
  /\ stored_snapshot (events world 1) disk (Feed.id feed_dot_b) = None
  /\ crawl world disk = (Ok tt, after)
  /\ Update.feedId <$> entries_of_pass world disk (feeds registry) = []
  /\ fmap Update.feedId <$> (updates <$> history_file after)
     = Some ["./b"]
  /\ snapshots after !! snapshotPath "b" = Some "two".
Proof.
  split_and!; try (vm_compute; reflexivity).
  - apply (bool_decide_unpack _). vm_compute. exact I.
  - apply (bool_decide_unpack _). vm_compute. exact I.
Qed.

End Shared.

(** ** The entry of a changed feed and the line diff *)

(** C9, as the script has it.  The entry a pass makes for a changed feed
    (the feeds of the registry having distinct snapshot files) has, in the
    order of the line diff of the snapshot against the fetched text, one
    segment for every added or removed part of that diff: its kind and the
    first 500 UTF-16 units of its text, which is the whole text when it
    has no more than 500.  Its summary is [+a件 / -r件], [a] and [r] the
    numbers of added and of removed parts.  The last line of
    ["Hello\nWorld"] has no terminator and the second line of
    ["Hello\nWorld\nFoo"] has one, so that the entry for these two texts
    has a removed segment ["World"], then an added segment
    ["World\nFoo"], and the summary [+1件 / -1件]. *)
Theorem change_record_diff_and_summary :
  (forall (md5 : Md5) (cheerio : Cheerio) (trim : Trim) (iso : IsoDate)
          (differ : LineDiff) (dir : PathJoin)
          w s s' fd hd i f page previous,
     feeds_file s = Some fd ->
     history_file s = Some hd ->
     NoDup (snapshot_paths (feeds fd)) ->
     feeds fd !! i = Some f ->
     crawl w s = (Ok tt, s') ->
     fetch_result (events w i) f = Some page ->
     stored_snapshot (events w i) s (Feed.id f) = Some previous ->
     generateHash previous <> generateHash (Page.content page) ->
     let parts := diffLines previous (Page.content page) in
     let new := entries_of_pass w s (feeds fd) in
     exists hd' u,
       history_file s' = Some hd'
       /\ loop_history w s fd hd = Some (new ++ updates hd)%list
       /\ updates hd' = take HISTORY_CAP (new ++ updates hd)%list
       /\ updates_of (Feed.id f) new = [u]
       /\ Forall2 records (Update.diff u) (List.filter is_edit parts)
       /\ Forall (fun seg => Utf16.length (Segment.content seg) <= 500)
                 (Update.diff u)
       /\ Forall2 (fun seg part =>
                     Utf16.length (Change.value part) <= 500 ->
                     Segment.content seg = Change.value part)
                  (Update.diff u) (List.filter is_edit parts)
       /\ Update.diffSummary u
          = "+" +:+ pretty (length (List.filter Change.added parts))
            +:+ "件 / -"
            +:+ pretty (length (List.filter Change.removed parts)) +:+ "件")
  /\ (forall now ev feed,
        let u := new_update now ev feed
                   (@calculateDiff JsDiff.line_diff Sample.hello_world
                                   Sample.hello_world_foo) in
        Update.diff u
        = [Segment.mk "removed" "World";
           Segment.mk "added" ("World" +:+ Sample.nl +:+ "Foo")]
        /\ Update.diffSummary u = "+1件 / -1件").
Proof.
  split.
  - intros md5 cheerio trim iso differ dir w s s' fd hd i f page previous
           Hfd Hhd Hids Hi Hrun Hf Hs Hh parts new.
    destruct (pass_changed w s s' fd hd i f Hfd Hhd Hids Hi Hrun
                page previous Hf Hs Hh)
      as (fd' & hd' & Hfd' & Hhd' & Hupd & Hof & Hsnap & Hi').
    destruct (pass_history w s s' fd hd Hfd Hhd Hids Hrun) as [Hloop _].
    exists hd'. eexists.
    split_and!; [exact Hhd'|exact Hloop|exact Hupd|exact Hof|..];
      apply new_update_diff.
  - intros now ev feed. split; vm_compute; reflexivity.
Qed.

Section Appended.

Import Sample.
#[local] Existing Instances md5 cheerio trim iso JsDiff.line_diff dir.
Local Open Scope list_scope.

(** C9, as the spec has it, fails on its own example: with the snapshot
    ["Hello\nWorld"] and the fetched text ["Hello\nWorld\nFoo"], the entry
    of the pass has two segments and the summary [+1件 / -1件]. *)
Lemma appended_line_summary :
  stored_snapshot (events world_grown 0) disk (Feed.id feed_a)
  = Some hello_world
  /\ Page.content <$> fetch_result (events world_grown 0) feed_a
     = Some hello_world_foo
  /\ exists u,
       updates <$> history_file (snd (crawl world_grown disk)) = Some [u]
       /\ Update.diff u
          = [Segment.mk "removed" "World";
             Segment.mk "added" ("World" +:+ nl +:+ "Foo")]
       /\ Update.diffSummary u = "+1件 / -1件"
       /\ Update.diffSummary u <> "+1件 / -0件".
Proof.
  split_and!; [vm_compute; reflexivity..|].
  eexists. split_and!; [vm_compute; reflexivity..|].
  vm_compute. discriminate.
Qed.

(** The statement the script satisfies, for feed [a] of the sample pass. *)
Lemma change_record_diff_and_summary_witness :
  let parts := diffLines hello_world hello_world_foo in
  let new := entries_of_pass world_grown disk (feeds registry) in
  exists hd' u,
    history_file after_grown = Some hd'
    /\ loop_history world_grown disk registry no_history
       = Some (new ++ updates no_history)
    /\ updates hd' = take HISTORY_CAP (new ++ updates no_history)
    /\ updates_of (Feed.id feed_a) new = [u]
    /\ Forall2 records (Update.diff u) (List.filter is_edit parts)
    /\ Forall (fun seg => Utf16.length (Segment.content seg) <= 500)
              (Update.diff u)
    /\ Forall2 (fun seg part =>
                  Utf16.length (Change.value part) <= 500 ->
                  Segment.content seg = Change.value part)
               (Update.diff u) (List.filter is_edit parts)
    /\ Update.diffSummary u
       = "+" +:+ pretty (length (List.filter Change.added parts))
         +:+ "件 / -"
         +:+ pretty (length (List.filter Change.removed parts)) +:+ "件".
Proof.
  apply (proj1 change_record_diff_and_summary md5 cheerio trim iso
           JsDiff.line_diff dir world_grown disk after_grown registry
           no_history 0 feed_a (fetched_page hello_world_foo) hello_world).
  - reflexivity.
  - reflexivity.
  - apply (bool_decide_unpack _). vm_compute. exact I.
  - reflexivity.
  - vm_compute. reflexivity.
  - reflexivity.
  - reflexivity.
  - vm_compute. discriminate.
Defined.

End Appended.

(** ** [escapeHtml] of the page builder *)

Section EscapeHtml.

Import Build.

Lemma string_app_assoc (x y z : string) :
  (x +:+ y) +:+ z = x +:+ (y +:+ z).
Proof.
  induction x as [|a x IH]; [reflexivity|].
  change (String a ((x +:+ y) +:+ z) = String a (x +:+ (y +:+ z))).
  now rewrite IH.
Qed.

Lemma replace_all_app c replacement x y :
  replace_all c replacement (x +:+ y)
  = replace_all c replacement x +:+ replace_all c replacement y.
Proof.
  induction x as [|a x IH]; [reflexivity|].
  change (String a x +:+ y) with (String a (x +:+ y)). simpl.
  destruct (Ascii.eqb a c); rewrite IH; [|reflexivity].
  symmetry. apply string_app_assoc.
Qed.

(** The five characters are told apart from every other. *)
Lemma escape_char_cases c :
  (c = "&"%char /\ escape_char c = "&amp;")
  \/ (c = "<"%char /\ escape_char c = "&lt;")
  \/ (c = ">"%char /\ escape_char c = "&gt;")
  \/ (c = double_quote /\ escape_char c = "&quot;")
  \/ (c = "'"%char /\ escape_char c = "&#039;")
  \/ (~ special c /\ escape_char c = String c EmptyString
      /\ Ascii.eqb c "&" = false /\ Ascii.eqb c "<" = false
      /\ Ascii.eqb c ">" = false /\ Ascii.eqb c double_quote = false
      /\ Ascii.eqb c "'" = false).
Proof.
  unfold escape_char.
  destruct (Ascii.eqb_spec c "&") as [->|H1]; [now left|].
  destruct (Ascii.eqb_spec c "<") as [->|H2]; [now right; left|].
  destruct (Ascii.eqb_spec c ">") as [->|H3]; [now right; right; left|].
  destruct (Ascii.eqb_spec c double_quote) as [->|H4];
    [now right; right; right; left|].
  destruct (Ascii.eqb_spec c "'") as [->|H5];
    [now right; right; right; right; left|].
  do 5 right. split_and!; try reflexivity.
  unfold special. intuition.
Qed.

Lemma five_replacements_each s : five_replacements s = escape_each s.
Proof.
  induction s as [|c s IH]; [reflexivity|].
  change (String c s) with (String c EmptyString +:+ s).
  unfold five_replacements in *. rewrite !replace_all_app, IH.
  change (escape_each (String c EmptyString +:+ s))
    with (escape_char c +:+ escape_each s).
  f_equal.
  destruct (escape_char_cases c)
    as [[-> ->]|[[-> ->]|[[-> ->]|[[-> ->]|[[-> ->]|
        (_ & -> & E1 & E2 & E3 & E4 & E5)]]]]]; try reflexivity.
  simpl. rewrite E1. simpl. rewrite E2. simpl. rewrite E3. simpl.
  rewrite E4. simpl. rewrite E5. reflexivity.
Qed.

Lemma escapeHtml_per_character_aux (s : string) :
  escapeHtml s = escape_each s.
Proof.
  unfold escapeHtml. case_decide as Hs; [now subst s|].
  apply five_replacements_each.
Qed.

(** X13.  [escapeHtml] escapes every character on its own.  The five
    replacements, made one after the other over the whole text, give what
    one pass over the characters gives: [&] is replaced first, and no
    later replacement touches the [&] or the letters of an entity that an
    earlier one wrote. *)
Theorem escapeHtml_per_character (s : string) :
  escapeHtml s = escape_each s.
Proof. apply escapeHtml_per_character_aux. Qed.

Lemma occurs_app c x y : occurs c (x +:+ y) <-> occurs c x \/ occurs c y.
Proof.
  induction x as [|a x IH].
  - simpl. change (EmptyString +:+ y) with y. tauto.
  - change (String a x +:+ y) with (String a (x +:+ y)). simpl.
    rewrite IH. tauto.
Qed.

(** An escaped character has none of the four characters that end or
    open a tag or an attribute. *)
Lemma escape_char_safe a c :
  c = "<"%char \/ c = ">"%char \/ c = double_quote \/ c = "'"%char ->
  ~ occurs c (escape_char a).
Proof.
  intros Hc Hocc.
  destruct (escape_char_cases a)
    as [[-> E]|[[-> E]|[[-> E]|[[-> E]|[[-> E]|(Hplain & E & _)]]]]];
    rewrite E in Hocc; simpl in Hocc.
  6:{ destruct Hocc as [Ha|Hf]; [subst c|contradiction].
      apply Hplain. unfold special. tauto. }
  all: destruct Hc as [-> | [-> | [-> | ->]]];
    repeat (destruct Hocc as [Hocc|Hocc]; [discriminate Hocc|]);
    exact Hocc.
Qed.

(** X14.  The text [escapeHtml] returns has none of the characters [<],
    [>], the double quotation mark and ['], whatever the text it is
    given. *)
Theorem escapeHtml_output_safe (s : string) (c : ascii) :
  c = "<"%char \/ c = ">"%char \/ c = double_quote \/ c = "'"%char ->
  ~ occurs c (escapeHtml s).
Proof.
  intros Hc. rewrite escapeHtml_per_character_aux.
  induction s as [|a s IH]; simpl; [tauto|].
  rewrite occurs_app. intros [Ha|Hs]; [|exact (IH Hs)].
  exact (escape_char_safe a c Hc Ha).
Qed.

(** What an escaped text begins with tells the character and the rest. *)
Lemma escape_char_split c1 c2 r1 r2 :
  escape_char c1 +:+ r1 = escape_char c2 +:+ r2 ->
  c1 = c2 /\ r1 = r2.
Proof.
  intros Heq.
  destruct (escape_char_cases c1)
    as [[-> E]|[[-> E]|[[-> E]|[[-> E]|[[-> E]|
        (_ & E & A1 & A2 & A3 & A4 & A5)]]]]];
    rewrite E in Heq; clear E;
    destruct (escape_char_cases c2)
      as [[-> E]|[[-> E]|[[-> E]|[[-> E]|[[-> E]|
          (_ & E & B1 & B2 & B3 & B4 & B5)]]]]];
    rewrite E in Heq; clear E;
    cbv [String.append] in Heq;
    try discriminate Heq;
    try (injection Heq as ->; now split);
    try (injection Heq as <- _; discriminate);
    try (injection Heq as -> _; discriminate);
    try (injection Heq as -> ->; now split).
Qed.

Lemma escape_each_inj a : forall b,
  escape_each a = escape_each b -> a = b.
Proof.
  induction a as [|c a IH]; intros [|d b] Heq.
  - reflexivity.
  - exfalso. simpl in Heq.
    destruct (escape_char_cases d)
      as [[-> E]|[[-> E]|[[-> E]|[[-> E]|[[-> E]|(_ & E & _)]]]]];
      rewrite E in Heq; discriminate Heq.
  - exfalso. simpl in Heq.
    destruct (escape_char_cases c)
      as [[-> E]|[[-> E]|[[-> E]|[[-> E]|[[-> E]|(_ & E & _)]]]]];
      rewrite E in Heq; discriminate Heq.
  - simpl in Heq. apply escape_char_split in Heq as [-> Heq].
    f_equal. now apply IH.
Qed.

(** X15.  [escapeHtml] loses nothing: texts that differ have escaped
    texts that differ. *)
Theorem escapeHtml_injective (a b : string) :
  escapeHtml a = escapeHtml b -> a = b.
Proof.
  rewrite !escapeHtml_per_character_aux. apply escape_each_inj.
Qed.

Lemma escape_each_length s :
  String.length s <= String.length (escape_each s).
Proof.
  induction s as [|c s IH]; [reflexivity|]. simpl.
  destruct (escape_char_cases c)
    as [[-> E]|[[-> E]|[[-> E]|[[-> E]|[[-> E]|(_ & E & _)]]]]];
    rewrite E; cbv [String.append]; simpl; lia.
Qed.

(** X16.  [escapeHtml] returns the text it is given exactly when the text
    has none of the five characters [&], [<], [>], the double quotation
    mark and [']. *)
Theorem escapeHtml_identity_iff_plain (s : string) :
  escapeHtml s = s <-> (forall c, occurs c s -> ~ special c).
Proof.
  rewrite escapeHtml_per_character_aux.
  induction s as [|a s IH]; simpl.
  { split; [intros _ c []|reflexivity]. }
  split.
  - intros Heq.
    destruct (escape_char_cases a)
      as [[-> E]|[[-> E]|[[-> E]|[[-> E]|[[-> E]|(Hplain & E & _)]]]]];
      rewrite E in Heq; cbv [String.append] in Heq;
      try discriminate Heq.
    + injection Heq as Heq.
      pose proof (escape_each_length s) as Hlen.
      rewrite <- Heq in Hlen at 1. simpl in Hlen. lia.
    + injection Heq as Heq. pose proof (proj1 IH Heq) as Hrest.
      intros c [<-|Hc]; [exact Hplain|now apply Hrest].
  - intros Hplain.
    destruct (escape_char_cases a)
      as [[-> E]|[[-> E]|[[-> E]|[[-> E]|[[-> E]|(_ & E & _)]]]]];
      try (exfalso; apply (Hplain _ (or_introl eq_refl));
           unfold special; tauto).
    rewrite E. cbv [String.append]. f_equal. apply (proj2 IH).
    intros c Hc. apply Hplain. now right.
Qed.

(** No [<] in the escaped form of a text with markup in it. *)
Lemma escapeHtml_output_safe_witness :
  ~ occurs "<" (escapeHtml "<a href='x'>Q&A</a>").
Proof.
  apply (escapeHtml_output_safe "<a href='x'>Q&A</a>" "<").
  left. reflexivity.
Defined.

(** A text with markup in it, twice. *)
Lemma escapeHtml_injective_witness :
  escapeHtml "<a href='x'>Q&A</a>" = escapeHtml "<a href='x'>Q&A</a>"
  /\ "<a href='x'>Q&A</a>" = "<a href='x'>Q&A</a>".
Proof.
  split; [reflexivity|].
  apply (escapeHtml_injective "<a href='x'>Q&A</a>" "<a href='x'>Q&A</a>").
  reflexivity.
Defined.

End EscapeHtml.

(** ** The tag filter of the page *)

Section TagFilter.

Import App.
Local Open Scope list_scope.

(** X17.  After a click on a filter button the selection is never empty,
    and [all] is selected alone or not at all. *)
Theorem selection_never_empty b d d' :
  handleTagFilter b d = Some d' ->
  selectedTags d' <> []
  /\ (selectedTags d' = ["all"] \/ "all" ∉ selectedTags d').
Proof.
  unfold handleTagFilter. intros Hrun.
  destruct (filters d !! b) as [btn|]; [|discriminate].
  case_decide as Htag.
  { injection Hrun as <-. simpl. split; [discriminate|now left]. }
  destruct (all_button (filters d)) as [allBtn|]; [|discriminate].
  injection Hrun as <-. cbn [selectedTags filterCards].
  set (selected1 := filter (fun t => t <> "all") (selectedTags d)).
  assert (Hall1 : "all" ∉ selected1).
  { subst selected1. rewrite list_elem_of_filter. intros [Hne _].
    now apply Hne. }
  destruct (is_active _ b); cbn [snd fst]; case_decide as Hlen;
    cbn [snd fst]; try (split; [discriminate|now left]).
  - split; [intros Hnil; now rewrite Hnil in Hlen|]. right.
    rewrite list_elem_of_filter. intros [_ Hin]. now apply Hall1.
  - split; [intros Hnil; now rewrite Hnil in Hlen|]. right.
    rewrite elem_of_app, list_elem_of_singleton.
    intros [Hin|Heq]; [now apply Hall1|]. now apply Htag.
Qed.

Lemma tag_alter x i (fs : list Button) :
  tag <$> alter (set_active x) i fs = tag <$> fs.
Proof.
  apply list_eq. intros k. rewrite !list_lookup_fmap.
  destruct (decide (i = k)) as [<-|Hne].
  - rewrite list_lookup_alter_eq. now destruct (fs !! i).
  - now rewrite list_lookup_alter_ne.
Qed.

(** With distinct tags, a tag names one button. *)
Lemma tag_names_button (fs : list Button) i j f g :
  NoDup (tag <$> fs) ->
  fs !! i = Some f -> fs !! j = Some g -> tag f = tag g -> i = j.
Proof.
  intros Hnd Hi Hj Heq.
  apply (NoDup_lookup (tag <$> fs) i j (tag f) Hnd);
    rewrite list_lookup_fmap; [now rewrite Hi|now rewrite Hj, Heq].
Qed.

(** The button of a tag is switched off and the tag leaves the
    selection. *)
Lemma shows_remove (fs : list Button) selected i f :
  NoDup (tag <$> fs) ->
  fs !! i = Some f ->
  shows fs selected ->
  shows (alter (set_active false) i fs)
        (filter (fun t => t <> tag f) selected).
Proof.
  intros Hnd Hi Hshows k g Hk.
  destruct (decide (i = k)) as [<-|Hne].
  - rewrite list_lookup_alter_eq, Hi in Hk. injection Hk as <-. simpl.
    rewrite list_elem_of_filter. split; [discriminate|].
    intros [Hne _]. now destruct Hne.
  - rewrite list_lookup_alter_ne in Hk by exact Hne.
    rewrite (Hshows k g Hk), list_elem_of_filter.
    split; [|tauto]. intros Hin. split; [|exact Hin].
    intros Heq. apply Hne. symmetry.
    eapply tag_names_button; eassumption.
Qed.

(** The button of a tag is switched on and the tag joins the
    selection. *)
Lemma shows_add (fs : list Button) selected i f :
  NoDup (tag <$> fs) ->
  fs !! i = Some f ->
  shows fs selected ->
  shows (alter (set_active true) i fs) (selected ++ [tag f]).
Proof.
  intros Hnd Hi Hshows k g Hk.
  rewrite elem_of_app, list_elem_of_singleton.
  destruct (decide (i = k)) as [<-|Hne].
  - rewrite list_lookup_alter_eq, Hi in Hk. injection Hk as <-. simpl.
    tauto.
  - rewrite list_lookup_alter_ne in Hk by exact Hne.
    rewrite (Hshows k g Hk). split; [tauto|].
    intros [Hin|Heq]; [exact Hin|]. exfalso. apply Hne. symmetry.
    eapply tag_names_button; eassumption.
Qed.

(** X18.  The buttons keep showing the selection.  When no two filter
    buttons have the same tag and every button is active exactly when its
    tag is selected, this is so again after a click on a filter button;
    the click changes no tag of a button. *)
Theorem buttons_show_selection b d d' :
  NoDup (tag <$> filters d) ->
  synced d ->
  handleTagFilter b d = Some d' ->
  synced d' /\ tag <$> filters d' = tag <$> filters d.
Proof.
  unfold handleTagFilter, synced. intros Hnd Hsync Hrun.
  destruct (filters d !! b) as [btn|] eqn:Hb; [|discriminate].
  case_decide as Htag.
  { injection Hrun as <-. cbn [selectedTags filters filterCards]. split.
    - intros k f Hk. rewrite list_lookup_fmap in Hk.
      destruct (filters d !! k) as [g|]; [|discriminate].
      injection Hk as <-. simpl.
      rewrite bool_decide_eq_true, list_elem_of_singleton. tauto.
    - rewrite <- list_fmap_compose. reflexivity. }
  destruct (all_button (filters d)) as [allBtn|] eqn:Hall; [|discriminate].
  injection Hrun as <-. cbn [selectedTags filters filterCards].
  unfold all_button in Hall.
  destruct (list_find _ (filters d)) as [[a fa]|] eqn:Hfind; [|discriminate].
  injection Hall as <-. apply list_find_Some in Hfind as (Ha & Hfa & _).
  set (filters1 := alter (set_active false) a (filters d)).
  set (selected1 := filter (fun t => t <> "all") (selectedTags d)).
  assert (Hs1 : shows filters1 selected1).
  { subst filters1 selected1. rewrite <- Hfa.
    now apply shows_remove. }
  assert (Hnd1 : NoDup (tag <$> filters1))
    by (subst filters1; now rewrite tag_alter).
  assert (Hne : a <> b).
  { intros ->. rewrite Hb in Ha. injection Ha as ->. now apply Htag. }
  assert (Hb1 : filters1 !! b = Some btn).
  { subst filters1. now rewrite list_lookup_alter_ne. }
  assert (Ha1 : filters1 !! a = Some (set_active false fa)).
  { subst filters1. now rewrite list_lookup_alter_eq, Ha. }
  set (toggled := if is_active filters1 b
                  then (alter (set_active false) b filters1,
                        filter (fun t => t <> tag btn) selected1)
                  else (alter (set_active true) b filters1,
                        selected1 ++ [tag btn])).
  assert (Ht : shows (fst toggled) (snd toggled)
               /\ tag <$> fst toggled = tag <$> filters d
               /\ fst toggled !! a = Some (set_active false fa)).
  { subst toggled. destruct (is_active filters1 b); cbn [fst snd].
    - split_and!; [now apply shows_remove| |].
      + subst filters1. now rewrite !tag_alter.
      + now rewrite list_lookup_alter_ne.
    - split_and!; [now apply shows_add| |].
      + subst filters1. now rewrite !tag_alter.
      + now rewrite list_lookup_alter_ne. }
  destruct Ht as (Hst & Htags & Hat).
  case_decide as Hlen; cbn [fst snd]; [|now split].
  split; [|now rewrite tag_alter].
  destruct (snd toggled) as [|t ts] eqn:Hsel; [|discriminate].
  replace ["all"] with (([] : list string) ++ [tag (set_active false fa)])
    by (simpl; now rewrite Hfa).
  apply shows_add; [now rewrite Htags|exact Hat|exact Hst].
Qed.

Lemma split_plain sep t : ~ occurs sep t -> split sep t = [t].
Proof.
  induction t as [|c t IH]; [reflexivity|]. simpl. intros Hocc.
  destruct (Ascii.eqb_spec c sep) as [->|Hne]; [tauto|].
  rewrite IH by tauto. reflexivity.
Qed.

Lemma split_before_separator sep t rest :
  ~ occurs sep t ->
  split sep (t +:+ String sep rest) = t :: split sep rest.
Proof.
  induction t as [|c t IH]; intros Hocc.
  - change (EmptyString +:+ String sep rest) with (String sep rest).
    simpl. now rewrite Ascii.eqb_refl.
  - change (String c t +:+ String sep rest)
      with (String c (t +:+ String sep rest)).
    simpl in *. destruct (Ascii.eqb_spec c sep) as [->|Hne]; [tauto|].
    rewrite IH by tauto. reflexivity.
Qed.

Lemma tags_split_after_join_aux (ts : list string) :
  ts <> [] ->
  (forall t, t ∈ ts -> ~ occurs "," t) ->
  split "," (Build.join "," ts) = ts.
Proof.
  induction ts as [|t ts IH]; [congruence|]. intros _ Hplain.
  destruct ts as [|t2 ts].
  - simpl. apply split_plain, Hplain. left.
  - change (Build.join "," (t :: t2 :: ts))
      with (t +:+ String "," (Build.join "," (t2 :: ts))).
    rewrite split_before_separator by (apply Hplain; left).
    f_equal. apply IH; [discriminate|].
    intros u Hu. apply Hplain. now right.
Qed.

(** X19.  The tags of a card come back from its [data-tags]: the builder
    joins the tags of an update with commas and the page splits the
    attribute at the commas, which gives the tags again when there is at
    least one tag and no tag has a comma in it. *)
Theorem tags_split_after_join (ts : list string) :
  ts <> [] ->
  (forall t, t ∈ ts -> ~ occurs "," t) ->
  split "," (Build.join "," ts) = ts.
Proof. apply tags_split_after_join_aux. Qed.

(** X20.  What [filterCards] shows.  A card whose [data-tags] the builder
    made from the tags [ts], at least one and none with a comma, is
    displayed when [all] is selected or one of its tags is selected, and
    is hidden otherwise; its [data-tags] stay. *)
Theorem card_shown_iff_tag_selected d k card ts :
  cards d !! k = Some card ->
  tags card = Build.join "," ts ->
  ts <> [] ->
  (forall t, t ∈ ts -> ~ occurs "," t) ->
  exists card',
    cards (filterCards d) !! k = Some card'
    /\ tags card' = tags card
    /\ (display card' = ""
        <-> "all" ∈ selectedTags d
            \/ exists t, t ∈ ts /\ t ∈ selectedTags d)
    /\ (display card' = "" \/ display card' = "none").
Proof.
  intros Hk Htags Hne Hplain. unfold filterCards. cbn [cards].
  rewrite list_lookup_fmap, Hk. cbn [fmap option_fmap option_map].
  eexists. split; [reflexivity|].
  case_bool_decide as Hall; cbn [tags display].
  { split_and!; [reflexivity|tauto|now left]. }
  rewrite Htags, (tags_split_after_join_aux ts Hne Hplain).
  destruct (existsb _ ts) eqn:Hex.
  - split_and!; [reflexivity| |now left]. split; [intros _|reflexivity].
    right. apply existsb_exists in Hex as (t & Hin & Hsel).
    exists t. split; [now apply list_elem_of_In|].
    now apply bool_decide_eq_true in Hsel.
  - split_and!; [reflexivity| |now right]. split; [discriminate|].
    intros [Hin|(t & Hin & Hsel)]; [contradiction|].
    assert (Htrue : existsb (fun t => bool_decide (t ∈ selectedTags d)) ts
                    = true).
    { apply existsb_exists. exists t.
      split; [now apply list_elem_of_In|now apply bool_decide_eq_true]. }
    congruence.
Qed.

(** A click on the button for [blog] of the sample page. *)
Lemma selection_never_empty_witness :
  selectedTags SamplePage.page_blog <> []
  /\ (selectedTags SamplePage.page_blog = ["all"]
      \/ "all" ∉ selectedTags SamplePage.page_blog).
Proof.
  apply (selection_never_empty 2 SamplePage.page SamplePage.page_blog).
  reflexivity.
Defined.

Lemma buttons_show_selection_witness :
  synced SamplePage.page_blog
  /\ tag <$> filters SamplePage.page_blog
     = tag <$> filters SamplePage.page.
Proof.
  apply (buttons_show_selection 2 SamplePage.page SamplePage.page_blog).
  - apply (bool_decide_unpack _). vm_compute. exact I.
  - intros [|[|[|k]]] f Hk; simpl in Hk; try discriminate;
      injection Hk as <-; simpl;
      rewrite list_elem_of_singleton; split; congruence.
  - reflexivity.
Defined.

Lemma no_comma_in_sample_tags :
  forall t, t ∈ SamplePage.card_tags -> ~ occurs "," t.
Proof.
  intros t Ht. unfold SamplePage.card_tags in Ht.
  apply elem_of_cons in Ht as [->|Ht].
  { simpl. intuition discriminate. }
  apply list_elem_of_singleton in Ht as ->.
  simpl. intuition discriminate.
Defined.

Lemma tags_split_after_join_witness :
  split "," (Build.join "," SamplePage.card_tags) = SamplePage.card_tags.
Proof.
  apply (tags_split_after_join SamplePage.card_tags).
  - discriminate.
  - exact no_comma_in_sample_tags.
Defined.

(** The first card of the sample page, after the click on [blog]. *)
Lemma card_shown_iff_tag_selected_witness :
  exists card',
    cards (filterCards SamplePage.page_blog) !! 0 = Some card'
    /\ tags card' = Build.join "," SamplePage.card_tags
    /\ (display card' = ""
        <-> "all" ∈ selectedTags SamplePage.page_blog
            \/ exists t, t ∈ SamplePage.card_tags
                         /\ t ∈ selectedTags SamplePage.page_blog)
    /\ (display card' = "" \/ display card' = "none").
Proof.
  apply (card_shown_iff_tag_selected SamplePage.page_blog 0
           {| tags := Build.join "," SamplePage.card_tags;
              display := "none" |} SamplePage.card_tags).
  - reflexivity.
  - reflexivity.
  - discriminate.
  - exact no_comma_in_sample_tags.
Defined.

End TagFilter.

(** ** Sample runs for the further properties of the pass *)

Section MoreRuns.

Import Sample MoreSamples.
#[local] Existing Instances md5 cheerio trim iso JsDiff.line_diff dir.
Local Open Scope list_scope.

Lemma pass_returns_when_writes_work_witness :
  exists s', crawl world_grown disk = (Ok tt, s').
Proof.
  apply (pass_returns_when_writes_work world_grown disk registry no_history).
  - reflexivity.
  - reflexivity.
  - intros j Hj. reflexivity.
  - reflexivity.
  - reflexivity.
Defined.

Lemma unreadable_document_ends_pass_witness :
  exists e,
    crawl world_grown disk_without_registry
    = (Throw e, logged [start_line world_grown] disk_without_registry)
    /\ main world_grown disk_without_registry
       = (Ok tt,
          logged [start_line world_grown; Error e] disk_without_registry).
Proof.
  apply (unreadable_document_ends_pass world_grown disk_without_registry).
  left. reflexivity.
Defined.

Lemma final_write_failure_witness :
  crawl world_registry_locked disk
  = (Throw "EACCES: permission denied", snd loop_locked)
  /\ feeds_file (snd loop_locked) = Some registry
  /\ history_file (snd loop_locked) = Some no_history.
Proof.
  apply (final_write_failure world_registry_locked disk registry no_history
           locked_feeds locked_locals (snd loop_locked)
           "EACCES: permission denied").
  - reflexivity.
  - reflexivity.
  - vm_compute. reflexivity.
  - reflexivity.
Defined.

(** A pass over 101 changed feeds: it reports 101 entries, and the
    history it writes has 100. *)
Lemma reported_count_is_entries_made_witness :
  (length (entries_of_pass world_grown disk_crowd (feeds crowd)) = 101
   /\ last (console after_crowd) = Some (done_line 101)
   /\ length <$> (updates <$> history_file after_crowd) = Some 100)
  /\ exists fd new hd',
       feeds_file disk_crowd = Some fd
       /\ loop_history world_grown disk_crowd fd no_history
          = Some (new ++ updates no_history)
       /\ (NoDup (snapshot_paths (feeds fd)) ->
           new = entries_of_pass world_grown disk_crowd (feeds fd))
       /\ history_file after_crowd = Some hd'
       /\ updates hd' = take HISTORY_CAP (new ++ updates no_history)
       /\ last (console after_crowd) = Some (done_line (length new))
       /\ (HISTORY_CAP < length new -> length (updates hd') < length new).
Proof.
  split.
  - split_and!; vm_compute; reflexivity.
  - apply (reported_count_is_entries_made world_grown disk_crowd after_crowd
             no_history).
    + reflexivity.
    + vm_compute. reflexivity.
Defined.

Lemma registry_shape_preserved_witness :
  exists fd',
    feeds_file after_grown = Some fd'
    /\ known_tags fd' = known_tags registry
    /\ Forall2 same_source (feeds registry) (feeds fd').
Proof.
  apply (registry_shape_preserved world_grown disk after_grown registry).
  - reflexivity.
  - vm_compute. reflexivity.
Defined.

Lemma fetched_feed_metadata_witness :
  exists fd' f',
    feeds_file after_grown = Some fd'
    /\ feeds fd' !! 1 = Some f'
    /\ match fetch_result (events world_grown 1) feed_b with
       | None => f' = feed_b
       | Some page =>
           Feed.lastChecked f' = Some (run_timestamp world_grown)
           /\ Feed.title f'
              = (if decide (Page.title page <> ""
                            /\ Page.title page <> Feed.url feed_b)
                 then Page.title page else Feed.title feed_b)
           /\ (Feed.lastUpdated f' = Feed.lastUpdated feed_b
               \/ Feed.lastUpdated f' = Some (run_timestamp world_grown))
       end.
Proof.
  apply (fetched_feed_metadata world_grown disk after_grown registry 1
           feed_b).
  - reflexivity.
  - reflexivity.
  - vm_compute. reflexivity.
Defined.

Lemma untitled_page_keeps_title_witness :
  exists fd' f',
    feeds_file after_untitled = Some fd'
    /\ feeds fd' !! 0 = Some f'
    /\ Feed.title f' = Feed.title feed_a.
Proof.
  apply (untitled_page_keeps_title (H0 := cheerio_untitled)
           world_grown disk after_untitled registry 0 feed_a
           {| ok := true; status := 200; statusText := "OK";
              text := inl hello_world_foo |}
           hello_world_foo "").
  - reflexivity.
  - reflexivity.
  - vm_compute. reflexivity.
  - reflexivity.
  - reflexivity.
  - reflexivity.
  - reflexivity.
Defined.

Lemma entry_agrees_with_registry_witness :
  let new := entries_of_pass world_grown disk (feeds registry) in
  exists fd' hd' f' u,
    feeds_file after_grown = Some fd' /\ history_file after_grown = Some hd'
    /\ loop_history world_grown disk registry no_history
       = Some (new ++ updates no_history)
    /\ updates hd' = take HISTORY_CAP (new ++ updates no_history)
    /\ updates_of (Feed.id feed_a) new = [u]
    /\ feeds fd' !! 0 = Some f'
    /\ Update.feedId u = Feed.id f'
    /\ Update.feedTitle u = Feed.title f'
    /\ Update.url u = Feed.url f'
    /\ Update.tags u = Feed.tags f'.
Proof.
  apply (entry_agrees_with_registry world_grown disk after_grown registry
           no_history 0 feed_a (fetched_page hello_world_foo) hello_world).
  - reflexivity.
  - reflexivity.
  - apply (bool_decide_unpack _). vm_compute. exact I.
  - reflexivity.
  - vm_compute. reflexivity.
  - reflexivity.
  - reflexivity.
  - vm_compute. discriminate.
Defined.

Lemma second_pass_is_quiet_witness :
  history_file after_second = history_file after_grown
  /\ last (console after_second) = Some (done_line 0).
Proof.
  apply (second_pass_is_quiet world_grown world_grown disk after_grown
           after_second registry).
  - reflexivity.
  - apply (bool_decide_unpack _). vm_compute. exact I.
  - vm_compute. reflexivity.
  - vm_compute. reflexivity.
  - intros j Hj. reflexivity.
Defined.


(** A pass in which both feeds have changed: it makes two entries, the
    one of feed [b] before the one of feed [a]. *)
Lemma entry_ids_distinct_witness :
  Update.id <$> entries_of_pass world_grown disk_both (feeds registry)
  = ["b-1700000000001"; "a-1700000000000"]
  /\ loop_history world_grown disk_both registry no_history
     = Some (entries_of_pass world_grown disk_both (feeds registry)
             ++ updates no_history)
  /\ exists new,
       loop_history world_grown disk_both registry no_history
       = Some (new ++ updates no_history)
       /\ (updates <$> history_file after_both)
          = Some (take HISTORY_CAP (new ++ updates no_history))
       /\ pass_entries world_grown (run_timestamp world_grown) 0
            (feeds registry) new
       /\ NoDup (Update.id <$> new).
Proof.
  split_and!; [vm_compute; reflexivity..|].
  apply (entry_ids_distinct world_grown disk_both after_both registry
           no_history).
  - reflexivity.
  - reflexivity.
  - apply (bool_decide_unpack _). vm_compute. exact I.
  - intros j Hj. simpl. lia.
  - vm_compute. reflexivity.
Defined.

Lemma aborted_pass_keeps_new_snapshots_witness :
  exists s',
    crawl world_late_failure disk
    = (Throw "EACCES: permission denied", s')
    /\ feeds_file s' = Some registry
    /\ history_file s' = Some no_history
    /\ snapshots s' !! snapshotPath (Feed.id feed_a) = Some hello_world_foo.
Proof.
  apply (aborted_pass_keeps_new_snapshots world_late_failure disk registry
           no_history 0 feed_a (fetched_page hello_world_foo) hello_world
           1 feed_b (fetched_page hello_world_foo)
           "EACCES: permission denied").
  - reflexivity.
  - reflexivity.
  - apply (bool_decide_unpack _). vm_compute. exact I.
  - reflexivity.
  - reflexivity.
  - lia.
  - intros [|j] Hj; [reflexivity|lia].
  - reflexivity.
  - reflexivity.
  - vm_compute. discriminate.
  - reflexivity.
  - exact I.
  - reflexivity.
Defined.

End MoreRuns.
